(** * The message broker of input-remapper's GUI

    A shallow embedding of [inputremapper/gui/message_broker.py]: the
    [MessageType] enumeration, the message catalog, the [MessageBroker]
    (registry, queue, reentrancy flag, drain loop) and the two
    hand-written renderings ([Signal.__str__], [UInputsData.__str__]).

    Listeners are Python callables; here a listener is an identity
    together with the program it runs against the broker's public
    interface when it is invoked.

    The second half embeds the rest of the module ([get_caller], the
    values of [MessageType]) and the components of
    [inputremapper/gui/components/common.py] that subscribe to the
    broker: [ConfirmCancelDialog], [Breadcrumbs], and the flowbox
    wrapper. Of Gtk only what these components call is kept, as the
    events they cause and the state they set. *)

From Stdlib Require Import ZArith Lia Ascii String List.
From stdpp Require Import base decidable countable gmap sets list strings
  pretty.

Local Open Scope string_scope.
Local Open Scope list_scope.

(** ** MessageType *)

Module MessageType.
Inductive t :=
| reset_gui | terminate | init
| uinputs | groups | group | preset | mapping
| selected_event
| combination_recorded | recording_started | recording_finished
| combination_update | status_msg | injector_state
| gui_focus_request | user_confirm_request
| do_stack_switch
| test1 | test2.

Definition index (k : t) : nat :=
  match k with
  | reset_gui => 0
  | terminate => 1
  | init => 2
  | uinputs => 3
  | groups => 4
  | group => 5
  | preset => 6
  | mapping => 7
  | selected_event => 8
  | combination_recorded => 9
  | recording_started => 10
  | recording_finished => 11
  | combination_update => 12
  | status_msg => 13
  | injector_state => 14
  | gui_focus_request => 15
  | user_confirm_request => 16
  | do_stack_switch => 17
  | test1 => 18
  | test2 => 19
  end.

Definition of_index (n : nat) : option t :=
  match n with
  | 0 => Some reset_gui
  | 1 => Some terminate
  | 2 => Some init
  | 3 => Some uinputs
  | 4 => Some groups
  | 5 => Some group
  | 6 => Some preset
  | 7 => Some mapping
  | 8 => Some selected_event
  | 9 => Some combination_recorded
  | 10 => Some recording_started
  | 11 => Some recording_finished
  | 12 => Some combination_update
  | 13 => Some status_msg
  | 14 => Some injector_state
  | 15 => Some gui_focus_request
  | 16 => Some user_confirm_request
  | 17 => Some do_stack_switch
  | 18 => Some test1
  | 19 => Some test2
  | _ => None
  end.

(** [member.name]: the member's name as written in the class body. *)
Definition name (k : t) : string :=
  match k with
  | reset_gui => "reset_gui"
  | terminate => "terminate"
  | init => "init"
  | uinputs => "uinputs"
  | groups => "groups"
  | group => "group"
  | preset => "preset"
  | mapping => "mapping"
  | selected_event => "selected_event"
  | combination_recorded => "combination_recorded"
  | recording_started => "recording_started"
  | recording_finished => "recording_finished"
  | combination_update => "combination_update"
  | status_msg => "status_msg"
  | injector_state => "injector_state"
  | gui_focus_request => "gui_focus_request"
  | user_confirm_request => "user_confirm_request"
  | do_stack_switch => "do_stack_switch"
  | test1 => "test1"
  | test2 => "test2"
  end.
End MessageType.

Abbreviation MessageType := MessageType.t.

#[global] Instance MessageType_eq_dec : EqDecision MessageType.
Proof. solve_decision. Defined.

Lemma MessageType_of_index_cancel (k : MessageType) :
  MessageType.of_index (MessageType.index k) = Some k.
Proof. by destruct k. Qed.

#[global] Instance MessageType_countable : Countable MessageType :=
  inj_countable MessageType.index MessageType.of_index
    MessageType_of_index_cancel.

(** The interface of an object that has a textual form, [str(x)]. *)
Class Str (A : Type) := str : A → string.

(** [str(member)] of a plain [Enum]: the class name, a dot, the member
    name. *)
#[global] Instance MessageType_str : Str MessageType :=
  λ k, "MessageType." +:+ MessageType.name k.

(** ** Type aliases of the module *)

(** [MessageListener = Callable[[Any], None]]: a callable is hashed and
    compared by identity, so a listener is its identity. *)
Definition MessageListener := nat.

(** A Python [dict]: insertion-ordered, keys unique, compared without
    regard to the order. *)
Definition Dict (K V : Type) := list (K * V).

Definition Name := string.
Definition Key := string.
Definition Capabilities := Dict Z (list Z).

Fixpoint dict_get {K V} `{EqDecision K} (k : K) (d : Dict K V) : option V :=
  match d with
  | [] => None
  | (k', v) :: d' => if decide (k = k') then Some v else dict_get k d'
  end.

(** [d1 == d2] on dicts: the same number of items, and every key of
    [d1] is in [d2] with an equal value. *)
Definition dict_eqb {K V} `{EqDecision K} (veq : V → V → bool)
    (d1 d2 : Dict K V) : bool :=
  (length d1 =? length d2)%nat
  && forallb (λ kv, match dict_get kv.1 d2 with
                    | Some v' => veq kv.2 v'
                    | None => false
                    end) d1.

Definition eqb_of {A} `{EqDecision A} (x y : A) : bool := bool_decide (x = y).

(** The keys of a dict are distinct. *)
Definition dict_wf {K V} (d : Dict K V) : Prop := NoDup d.*1.

(** Two dicts have the same keys, with values related by [R]. *)
Definition dict_same {K V} `{EqDecision K} (R : V → V → Prop)
    (d1 d2 : Dict K V) : Prop :=
  ∀ k, option_Forall2 R (dict_get k d1) (dict_get k d2).

(** ** Textual forms

    A [str] is a sequence of characters below U+0100. *)

Definition double_quote : ascii := ascii_of_nat 34.

(** [repr] of an [int]. *)
Definition repr_int (z : Z) : string := pretty z.

Definition hex_digit (n : nat) : ascii :=
  nth n ["0"; "1"; "2"; "3"; "4"; "5"; "6"; "7"; "8"; "9";
         "a"; "b"; "c"; "d"; "e"; "f"]%char "0"%char.

(** [str.isprintable] on one character. *)
Definition is_printable (c : ascii) : bool :=
  let n := nat_of_ascii c in
  ((32 <=? n) && (n <=? 126) || (161 <=? n) && negb (n =? 173))%nat.

(** One character of [repr] of a [str] quoted by [quote]. *)
Definition repr_char (quote c : ascii) : string :=
  let n := nat_of_ascii c in
  if Ascii.eqb c quote || Ascii.eqb c "\" then String "\" (String c "")
  else if (n =? 9)%nat then "\t"
  else if (n =? 10)%nat then "\n"
  else if (n =? 13)%nat then "\r"
  else if is_printable c then String c ""
  else String "\" (String "x" (String (hex_digit (n / 16))
                                 (String (hex_digit (n mod 16)) ""))).

Fixpoint contains (c : ascii) (s : string) : bool :=
  match s with
  | EmptyString => false
  | String c' s' => Ascii.eqb c c' || contains c s'
  end.

Fixpoint escape (quote : ascii) (s : string) : string :=
  match s with
  | EmptyString => ""
  | String c s' => repr_char quote c +:+ escape quote s'
  end.

(** [repr] of a [str]: single quotes, unless the text has a single
    quote and no double quote. *)
Definition repr_str (s : string) : string :=
  let quote :=
    if contains "'" s && negb (contains double_quote s) then double_quote
    else "'"%char in
  String quote (escape quote s +:+ String quote "").

(** [repr] of a list of [int]s and of the dicts of [UInputsData]. *)
Definition repr_list (l : list Z) : string :=
  "[" +:+ String.concat ", " (repr_int <$> l) +:+ "]".

Definition repr_capabilities (d : Capabilities) : string :=
  "{" +:+ String.concat ", "
            ((λ kv, repr_int kv.1 +:+ ": " +:+ repr_list kv.2) <$> d)
      +:+ "}".

Definition repr_uinputs (d : Dict Name Capabilities) : string :=
  "{" +:+ String.concat ", "
            ((λ kv, repr_str kv.1 +:+ ": " +:+ repr_capabilities kv.2) <$> d)
      +:+ "}".

(** *** The regular expression [(\d+, )+] *)

Definition is_digit (c : ascii) : bool :=
  let n := nat_of_ascii c in ((48 <=? n) && (n <=? 57))%nat.

(** [\d+], greedy: the number of digits at the head. *)
Fixpoint digits_prefix (s : list ascii) : nat :=
  match s with
  | c :: s' => if is_digit c then S (digits_prefix s') else 0
  | [] => 0
  end.

(** One group [\d+, ] at the head: all the digits there, then a comma
    and a space (with fewer digits the next character is a digit, not
    the comma). The length of the group. *)
Definition match_group (s : list ascii) : option nat :=
  let n := digits_prefix s in
  if (n =? 0)%nat then None
  else
    match drop n s with
    | c1 :: c2 :: _ =>
        if Ascii.eqb c1 "," && Ascii.eqb c2 " " then Some (n + 2) else None
    | _ => None
    end.

(** As many groups as there are at the head (greedy): their total
    length. *)
Fixpoint match_groups (fuel : nat) (s : list ascii) : nat :=
  match fuel with
  | 0 => 0
  | S fuel' =>
      match match_group s with
      | Some n => n + match_groups fuel' (drop n s)
      | None => 0
      end
  end.

(** [re.match] of the expression at the head of [s]: the length of the
    match. *)
Definition re_match (s : list ascii) : option nat :=
  let n := match_groups (length s) s in
  if (n =? 0)%nat then None else Some n.

(** [re.finditer]: the matches [(start, end)] from left to right, each
    search starting where the previous match ends. *)
Fixpoint finditer_from (fuel pos : nat) (s : list ascii) : list (nat * nat) :=
  match fuel with
  | 0 => []
  | S fuel' =>
      match s with
      | [] => []
      | c :: s' =>
          match re_match s with
          | Some n => (pos, pos + n) :: finditer_from fuel' (pos + n) (drop n s)
          | None => finditer_from fuel' (S pos) s'
          end
      end
  end.

Definition finditer (s : list ascii) : list (nat * nat) :=
  finditer_from (length s) 0 s.

(** [str.find]: the index of the first [c], or -1. *)
Fixpoint find (c : ascii) (s : list ascii) : Z :=
  match s with
  | [] => -1
  | c' :: s' =>
      if Ascii.eqb c' c then 0
      else match find c s' with
           | Z.neg _ => -1
           | i => i + 1
           end
  end%Z.

(** The body of the loop of [UInputsData.__str__], for one match. *)
Definition shorten_match (string : list ascii) (m : nat * nat) : list ascii :=
  let '(start, end_) := m in
  let start := Z.to_nat (Z.of_nat start + find "," (drop start string) + 2) in
  if (start =? end_)%nat then string
  else take start string ++ list_ascii_of_string "... " ++ drop end_ string.

(** The loop over the matches, last match first. *)
Definition shorten (string : list ascii) : list ascii :=
  foldl shorten_match string (reverse (finditer string)).

(** What the comment in [UInputsData.__str__] asks for, read from left
    to right: every sequence of two or more groups is replaced by its
    first group and an ellipsis. *)
Fixpoint compress_from (fuel : nat) (s : list ascii) : list ascii :=
  match fuel with
  | 0 => s
  | S fuel' =>
      match s with
      | [] => []
      | c :: s' =>
          match re_match s, match_group s with
          | Some n, Some g =>
              take g s
              ++ (if (g =? n)%nat then [] else list_ascii_of_string "... ")
              ++ compress_from fuel' (drop n s)
          | _, _ => c :: compress_from fuel' s'
          end
      end
  end.

Definition compress (s : list ascii) : list ascii :=
  compress_from (length s) s.

(** *** Numbers in a text

    A character that no match of the expression contains: not a digit,
    not a comma, not a space. *)
Definition is_blocker (c : ascii) : bool :=
  negb (is_digit c) && negb (Ascii.eqb c ",") && negb (Ascii.eqb c " ").

(** A number as it is written: one decimal digit or more. *)
Definition is_number (d : list ascii) : Prop :=
  d ≠ [] ∧ Forall (λ c, is_digit c = true) d.

(** The text of numbers that are each followed by a comma and a space. *)
Definition numbers_text (ds : list (list ascii)) : list ascii :=
  concat ((λ d, d ++ [","; " "]%char) <$> ds).

(** ** The message catalog *)

Section Catalog.
  (** [DeviceType] (inputremapper.groups) and [EventCombination]
      (inputremapper.event_combination) are imported, not defined here:
      any types with a decidable [==]. *)
Context {DeviceType EventCombination : Type}.
Context `{!EqDecision DeviceType, !EqDecision EventCombination}.

Definition DeviceTypes := list DeviceType.

  (** [@dataclass(frozen=True)] classes: one record per class, the
      annotated names are the fields. *)
Record UInputsData := { uinputs : Dict Name Capabilities }.
Record GroupsData := { groups : Dict Key DeviceTypes }.
Record GroupData := { group_key : string; presets : list string }.
Record PresetData := {
    name : option Name;
    mappings : option (list (Name * EventCombination));
    autoload : bool }.
Record StatusData := {
    ctx_id : Z; msg : option string; tooltip : option string }.
Record CombinationRecorded := { combination : EventCombination }.
Record CombinationUpdate := {
    old_combination : EventCombination;
    new_combination : EventCombination }.
  (** [respond] is a callable, compared by identity. *)
Record UserConfirmRequest := { request_msg : string; respond : nat }.
Record DoStackSwitch := { page_index : Z }.

  (** [class Signal(Message)]: an ordinary class, its only attribute is
      set by [__init__]. *)
Record Signal := { message_type : MessageType }.

  (** Every object that follows the [Message] protocol in this module. *)
Inductive Message :=
  | MUInputsData (d : UInputsData)
  | MGroupsData (d : GroupsData)
  | MGroupData (d : GroupData)
  | MPresetData (d : PresetData)
  | MStatusData (d : StatusData)
  | MCombinationRecorded (d : CombinationRecorded)
  | MCombinationUpdate (d : CombinationUpdate)
  | MUserConfirmRequest (d : UserConfirmRequest)
  | MDoStackSwitch (d : DoStackSwitch)
  | MSignal (s : Signal).

  (** [data.message_type]: the class attribute of a dataclass, the
      instance attribute of a [Signal]. *)
Definition Message_message_type (data : Message) : MessageType :=
    match data with
    | MUInputsData _ => MessageType.uinputs
    | MGroupsData _ => MessageType.groups
    | MGroupData _ => MessageType.group
    | MPresetData _ => MessageType.preset
    | MStatusData _ => MessageType.status_msg
    | MCombinationRecorded _ => MessageType.combination_recorded
    | MCombinationUpdate _ => MessageType.combination_update
    | MUserConfirmRequest _ => MessageType.user_confirm_request
    | MDoStackSwitch _ => MessageType.do_stack_switch
    | MSignal s => message_type s
    end.

Definition is_dataclass (data : Message) : bool :=
    match data with MSignal _ => false | _ => true end.

  (** *** Signal *)

  (** [Signal.__str__]: [f"Signal: {self.message_type}"]. *)
#[global] Instance Signal_str : Str Signal :=
    λ self, "Signal: " +:+ str (message_type self).

  (** [Signal.__eq__]: [str(self) == str(other)], for any [other] that
      has a textual form. *)
Definition Signal_eq {A} `{Str A} (self : Signal) (other : A) : bool :=
    String.eqb (str self) (str other).

(** *** UInputsData *)

  (** [UInputsData.__str__]: the f-string, then every match of the
      expression, from the last to the first, is cut down to its first
      number. *)
#[global] Instance UInputsData_str : Str UInputsData :=
  λ self,
    let string := "UInputsData(uinputs=" +:+ repr_uinputs (uinputs self) +:+ ")" in
    string_of_list_ascii (shorten (list_ascii_of_string string)).

  (** *** The generated [__eq__] of the frozen dataclasses

      [other.__class__ is self.__class__] and the tuples of fields are
      equal; an object of another class is not equal. *)
Definition UInputsData_eq (a b : UInputsData) : bool :=
    dict_eqb (dict_eqb eqb_of) (uinputs a) (uinputs b).
Definition GroupsData_eq (a b : GroupsData) : bool :=
    dict_eqb eqb_of (groups a) (groups b).

Definition dataclass_eq (a b : Message) : bool :=
    match a, b with
    | MUInputsData x, MUInputsData y => UInputsData_eq x y
    | MGroupsData x, MGroupsData y => GroupsData_eq x y
    | MGroupData x, MGroupData y =>
        eqb_of (group_key x) (group_key y) && eqb_of (presets x) (presets y)
    | MPresetData x, MPresetData y =>
        eqb_of (name x) (name y) && eqb_of (mappings x) (mappings y)
        && eqb_of (autoload x) (autoload y)
    | MStatusData x, MStatusData y =>
        eqb_of (ctx_id x) (ctx_id y) && eqb_of (msg x) (msg y)
        && eqb_of (tooltip x) (tooltip y)
    | MCombinationRecorded x, MCombinationRecorded y =>
        eqb_of (combination x) (combination y)
    | MCombinationUpdate x, MCombinationUpdate y =>
        eqb_of (old_combination x) (old_combination y)
        && eqb_of (new_combination x) (new_combination y)
    | MUserConfirmRequest x, MUserConfirmRequest y =>
        eqb_of (request_msg x) (request_msg y)
        && eqb_of (respond x) (respond y)
    | MDoStackSwitch x, MDoStackSwitch y =>
        eqb_of (page_index x) (page_index y)
    | _, _ => false
    end.

(** The dicts held by a message have distinct keys (every Python dict
    has). *)
Definition Message_wf (data : Message) : Prop :=
  match data with
  | MUInputsData d =>
      dict_wf (uinputs d) ∧ Forall (λ kv, dict_wf kv.2) (uinputs d)
  | MGroupsData d => dict_wf (groups d)
  | _ => True
  end.

(** Two messages are of the same class and have the same field values:
    dicts are the same whatever the order of insertion. *)
Definition same_fields (a b : Message) : Prop :=
  match a, b with
  | MUInputsData x, MUInputsData y =>
      dict_same (dict_same eq) (uinputs x) (uinputs y)
  | MGroupsData x, MGroupsData y => dict_same eq (groups x) (groups y)
  | MGroupData x, MGroupData y => x = y
  | MPresetData x, MPresetData y => x = y
  | MStatusData x, MStatusData y => x = y
  | MCombinationRecorded x, MCombinationRecorded y => x = y
  | MCombinationUpdate x, MCombinationUpdate y => x = y
  | MUserConfirmRequest x, MUserConfirmRequest y => x = y
  | MDoStackSwitch x, MDoStackSwitch y => x = y
  | _, _ => False
  end.

  (** *** Attribute assignment

      A frozen dataclass refuses [obj.attr = value] with
      [FrozenInstanceError]; [Signal] inherits [object.__setattr__]. *)
Inductive AttrResult :=
  | Assigned (obj : Message)
  | FrozenInstanceError.

Definition Message_setattr (obj : Message) (attr : string)
      (value : MessageType) : AttrResult :=
    match obj with
    | MSignal s =>
        if decide (attr = "message_type")
        then Assigned (MSignal {| message_type := value |})
        else Assigned obj
    | _ => FrozenInstanceError
    end.

End Catalog.

Arguments Message : clear implicits.

(** ** MessageBroker *)

Definition Exn := string.
Definition KeyError : Exn := "KeyError".

Section Broker.
Context {DeviceType EventCombination : Type}.
Abbreviation Message := (Message DeviceType EventCombination).

  (** An item of [self._messages]: [(data, file, line)]. *)
Definition QueueEntry := (Message * string * Z)%type.

  (** What the broker does that can be seen from outside, in the order
      it happens. *)
Inductive Event :=
  | EvAppend (entry : QueueEntry)
      (** [self._messages.append(...)] *)
  | EvSending (flag : bool)
      (** [self._sending = flag] *)
  | EvDebugSend (entry : QueueEntry)
      (** the [logger.debug] line of [_send] *)
  | EvListener (listener : MessageListener) (data : Message)
      (** [listener(data)] *)
  | EvDebugSubscribe (listener : MessageListener).
      (** the [logger.debug] line of [subscribe] *)

  (** The three attributes set by [__init__]; [observed] is not an
      attribute: it records the events of this broker so far, oldest
      first. *)
Record MessageBroker := {
    _listeners : gmap MessageType (gset MessageListener);
    _messages : list QueueEntry;
    _sending : bool;
    observed : list Event }.

Definition __init__ : MessageBroker :=
    {| _listeners := ∅; _messages := []; _sending := false; observed := [] |}.

Definition set_listeners (v : gmap MessageType (gset MessageListener))
      (self : MessageBroker) : MessageBroker :=
    {| _listeners := v; _messages := _messages self;
       _sending := _sending self; observed := observed self |}.
Definition set_messages (v : list QueueEntry) (self : MessageBroker) :=
    {| _listeners := _listeners self; _messages := v;
       _sending := _sending self; observed := observed self |}.
Definition set_sending (v : bool) (self : MessageBroker) :=
    {| _listeners := _listeners self; _messages := _messages self;
       _sending := v; observed := observed self ++ [EvSending v] |}.
Definition observe (ev : Event) (self : MessageBroker) :=
    {| _listeners := _listeners self; _messages := _messages self;
       _sending := _sending self; observed := observed self ++ [ev] |}.

  (** How a call ends. [OutOfFuel] is not a Python outcome: the drain of
      a broker whose listeners keep sending never returns. *)
Inductive Outcome :=
  | Returned (self : MessageBroker)
  | Raised (exc : Exn) (self : MessageBroker)
  | OutOfFuel.

Definition and_then (o : Outcome) (k : MessageBroker → Outcome) : Outcome :=
    match o with
    | Returned self => k self
    | Raised exc self => Raised exc self
    | OutOfFuel => OutOfFuel
    end.

  (** [try: ... finally: self._sending = False] *)
Definition finally_not_sending (o : Outcome) : Outcome :=
    match o with
    | Returned self => Returned (set_sending false self)
    | Raised exc self => Raised exc (set_sending false self)
    | OutOfFuel => OutOfFuel
    end.

  (** [self._listeners[key]] on a [defaultdict(set)]: a missing key is
      inserted with an empty set. *)
Definition listeners_getitem (key : MessageType) (self : MessageBroker)
      : gset MessageListener * MessageBroker :=
    match _listeners self !! key with
    | Some listeners => (listeners, self)
    | None => (∅, set_listeners (<[key := ∅]> (_listeners self)) self)
    end.

  (** The listeners registered for [key] ([∅] when the key is missing). *)
Definition registered (key : MessageType) (self : MessageBroker)
      : gset MessageListener :=
    default ∅ (_listeners self !! key).

  (** [set.remove]: raises [KeyError] when the element is absent. *)
Definition set_remove (listener : MessageListener)
      (listeners : gset MessageListener) : Exn + gset MessageListener :=
    if decide (listener ∈ listeners) then inr (listeners ∖ {[listener]})
    else inl KeyError.

Definition subscribe (massage_type : MessageType)
      (listener : MessageListener) (self : MessageBroker) : MessageBroker :=
    let self := observe (EvDebugSubscribe listener) self in
    let '(listeners, self) := listeners_getitem massage_type self in
    set_listeners (<[massage_type := listeners ∪ {[listener]}]>
                     (_listeners self)) self.

Definition unsubscribe (listener : MessageListener) (self : MessageBroker)
      : Outcome :=
    Returned
      (set_listeners
         ((λ listeners,
            match set_remove listener listeners with
            | inr removed => removed
            | inl _ (* except KeyError: pass *) => listeners
            end) <$> _listeners self) self).

  (** What a listener does when it is called: it may look at the broker,
      call its public methods, and return or raise. [file] and [line]
      are the call site that [get_caller] finds on the stack. *)
Inductive Code :=
  | Pass
  | Raise (exc : Exn)
  | CallSend (data : Message) (file : string) (line : Z) (rest : Code)
  | CallSignal (kind : MessageType) (rest : Code)
  | CallSubscribe (kind : MessageType) (listener : MessageListener)
      (rest : Code)
  | CallUnsubscribe (listener : MessageListener) (rest : Code)
  | Inspect (rest : MessageBroker → Code).

Section Listeners.
    (** The body of each listener, and the order in which a set yields
        its elements. *)
Variable body : MessageListener → Message → Code.
Variable iter : gset MessageListener → list MessageListener.

Section Open.
      (** [self._send_all], as seen from the methods that call it. *)
Variable send_all : MessageBroker → Outcome.

Definition send_body (data : Message) (file : string) (line : Z)
          (self : MessageBroker) : Outcome :=
        let entry := (data, file, line) in
        send_all (observe (EvAppend entry)
                    (set_messages (_messages self ++ [entry]) self)).

      (** [signal] calls [send] from line 109 of this file. *)
Definition signal_body (signal : MessageType) (self : MessageBroker)
          : Outcome :=
        send_body (MSignal {| message_type := signal |})
          "message_broker.py" 109 self.

Fixpoint run (code : Code) (self : MessageBroker) : Outcome :=
        match code with
        | Pass => Returned self
        | Raise exc => Raised exc self
        | CallSend data file line rest =>
            and_then (send_body data file line self) (run rest)
        | CallSignal kind rest => and_then (signal_body kind self) (run rest)
        | CallSubscribe kind listener rest =>
            run rest (subscribe kind listener self)
        | CallUnsubscribe listener rest =>
            and_then (unsubscribe listener self) (run rest)
        | Inspect rest => run (rest self) self
        end.

      (** [for listener in <copy>: listener(data)] *)
Fixpoint call_each (copy : list MessageListener) (data : Message)
          (self : MessageBroker) : Outcome :=
        match copy with
        | [] => Returned self
        | listener :: copy' =>
            and_then
              (run (body listener data) (observe (EvListener listener data) self))
              (call_each copy' data)
        end.

Definition _send_body (entry : QueueEntry) (self : MessageBroker)
          : Outcome :=
        let self := observe (EvDebugSend entry) self in
        let '(listeners, self) :=
          listeners_getitem (Message_message_type entry.1.1) self in
        call_each (iter listeners) entry.1.1 self.

      (** [while self._messages:] pop the leftmost entry and [_send] it. *)
Fixpoint while_messages (fuel : nat) (self : MessageBroker) : Outcome :=
        match _messages self with
        | [] => Returned self
        | entry :: queue =>
            match fuel with
            | 0 => OutOfFuel
            | S fuel' =>
                and_then (_send_body entry (set_messages queue self))
                  (while_messages fuel')
            end
        end.
End Open.

Fixpoint _send_all (fuel : nat) (self : MessageBroker) : Outcome :=
      if _sending self then Returned self
      else
        match fuel with
        | 0 => OutOfFuel
        | S fuel' =>
            finally_not_sending
              (while_messages (_send_all fuel') fuel' (set_sending true self))
        end.

Definition send (fuel : nat) := send_body (_send_all fuel).
Definition signal (fuel : nat) := signal_body (_send_all fuel).
Definition _send (fuel : nat) := _send_body (_send_all fuel).
End Listeners.
(** *** Reading the record of events *)

(** The entries appended to the queue, in order. *)
Definition enqueued (tr : list Event) : list QueueEntry :=
  omap (λ ev, match ev with EvAppend e => Some e | _ => None end) tr.

(** The entries whose dispatch has begun, in order. *)
Definition dispatched (tr : list Event) : list QueueEntry :=
  omap (λ ev, match ev with EvDebugSend e => Some e | _ => None end) tr.

(** The listener invocations, in order. *)
Definition calls (tr : list Event) : list (MessageListener * Message) :=
  omap (λ ev, match ev with EvListener l m => Some (l, m) | _ => None end) tr.

(** The values assigned to [_sending], in order. *)
Definition flags (tr : list Event) : list bool :=
  omap (λ ev, match ev with EvSending v => Some v | _ => None end) tr.

(** The message whose dispatch is in progress after [tr], when the one
    before [tr] was [cur]. *)
Fixpoint current (cur : option Message) (tr : list Event) : option Message :=
  match tr with
  | [] => cur
  | EvDebugSend e :: tr' => current (Some e.1.1) tr'
  | _ :: tr' => current cur tr'
  end.

(** Every listener invocation in [tr] passes the message whose dispatch
    is in progress. *)
Fixpoint calls_follow (cur : option Message) (tr : list Event) : Prop :=
  match tr with
  | [] => True
  | EvDebugSend e :: tr' => calls_follow (Some e.1.1) tr'
  | EvListener _ m :: tr' => cur = Some m ∧ calls_follow cur tr'
  | _ :: tr' => calls_follow cur tr'
  end.

(** The flag after the assignments [fl], starting from [s]; [None] when
    some assignment does not change the flag (a drain started inside a
    drain, or ended twice). *)
Fixpoint toggles (s : bool) (fl : list bool) : option bool :=
  match fl with
  | [] => Some s
  | v :: fl' => if eqb v (negb s) then toggles v fl' else None
  end.

(** The index, in the order of sending, of the message that the
    listener invocation at position [p] of [tr] serves: one less than
    the number of dispatches begun before [p]. *)
Definition serves (tr : list Event) (p : nat) : option nat :=
  match tr !! p with
  | Some (EvListener _ _) =>
      match length (dispatched (take p tr)) with
      | S i => Some i
      | 0 => None
      end
  | _ => None
  end.

(** The state a call leaves behind, when it ends. *)
Definition final (o : Outcome) : option MessageBroker :=
  match o with
  | Returned self | Raised _ self => Some self
  | OutOfFuel => None
  end.

(** The record of a broker is consistent: the queue holds exactly the
    entries sent and not yet dispatched, in the order of sending;
    listeners were only called with the message in dispatch; the flag
    was only ever toggled, and has the value last assigned. *)
Definition consistent (self : MessageBroker) : Prop :=
  enqueued (observed self) = dispatched (observed self) ++ _messages self
  ∧ calls_follow None (observed self)
  ∧ toggles false (flags (observed self)) = Some (_sending self).

(** *** Properties of listener code *)

Inductive never_raises : Code → Prop :=
| nr_Pass : never_raises Pass
| nr_CallSend data file line rest :
    never_raises rest → never_raises (CallSend data file line rest)
| nr_CallSignal kind rest :
    never_raises rest → never_raises (CallSignal kind rest)
| nr_CallSubscribe kind listener rest :
    never_raises rest → never_raises (CallSubscribe kind listener rest)
| nr_CallUnsubscribe listener rest :
    never_raises rest → never_raises (CallUnsubscribe listener rest)
| nr_Inspect rest :
    (∀ self, never_raises (rest self)) → never_raises (Inspect rest).

Inductive never_subscribes (l : MessageListener) : Code → Prop :=
| ns_Pass : never_subscribes l Pass
| ns_Raise exc : never_subscribes l (Raise exc)
| ns_CallSend data file line rest :
    never_subscribes l rest → never_subscribes l (CallSend data file line rest)
| ns_CallSignal kind rest :
    never_subscribes l rest → never_subscribes l (CallSignal kind rest)
| ns_CallSubscribe kind listener rest :
    listener ≠ l → never_subscribes l rest →
    never_subscribes l (CallSubscribe kind listener rest)
| ns_CallUnsubscribe listener rest :
    never_subscribes l rest → never_subscribes l (CallUnsubscribe listener rest)
| ns_Inspect rest :
    (∀ self, never_subscribes l (rest self)) → never_subscribes l (Inspect rest).
(** Some run of the code ends in [raise exc]. *)
Inductive raises_with (exc : Exn) : Code → Prop :=
| rw_Raise : raises_with exc (Raise exc)
| rw_CallSend data file line rest :
    raises_with exc rest → raises_with exc (CallSend data file line rest)
| rw_CallSignal kind rest :
    raises_with exc rest → raises_with exc (CallSignal kind rest)
| rw_CallSubscribe kind listener rest :
    raises_with exc rest → raises_with exc (CallSubscribe kind listener rest)
| rw_CallUnsubscribe listener rest :
    raises_with exc rest → raises_with exc (CallUnsubscribe listener rest)
| rw_Inspect rest self :
    raises_with exc (rest self) → raises_with exc (Inspect rest).

(** The code calls neither [send] nor [signal]. *)
Inductive never_sends : Code → Prop :=
| nse_Pass : never_sends Pass
| nse_Raise exc : never_sends (Raise exc)
| nse_CallSubscribe kind listener rest :
    never_sends rest → never_sends (CallSubscribe kind listener rest)
| nse_CallUnsubscribe listener rest :
    never_sends rest → never_sends (CallUnsubscribe listener rest)
| nse_Inspect rest :
    (∀ self, never_sends (rest self)) → never_sends (Inspect rest).

(** No listener raises or sends when it is called with [data]. *)
Definition well_behaved_on (body : MessageListener → Message → Code)
    (data : Message) : Prop :=
  ∀ l, never_raises (body l data) ∧ never_sends (body l data).

(** [listener] is registered for no message type. *)
Definition unregistered (listener : MessageListener) (self : MessageBroker)
    : Prop :=
  ∀ key, listener ∉ registered key self.

(** [self'] is [self] after the events [evs], none of which begins a
    dispatch or assigns the flag: the queue has grown by the entries
    appended in [evs]. *)
Definition extends (self self' : MessageBroker) (evs : list Event) : Prop :=
  observed self' = observed self ++ evs
  ∧ _messages self' = _messages self ++ enqueued evs
  ∧ _sending self' = _sending self
  ∧ dispatched evs = []
  ∧ flags evs = [].
End Broker.

Arguments QueueEntry : clear implicits.
Arguments Event : clear implicits.
Arguments MessageBroker : clear implicits.
Arguments Outcome : clear implicits.
Arguments Code : clear implicits.

(** ** A small application

    Four listeners on a broker whose messages carry no device types or
    event combinations: listener 1 signals [test2] while it handles
    [test1]; listener 2 unsubscribes itself when it is called; listener
    3 only returns; listener 4 raises on [mapping]; listener 5 signals
    [mapping] and then [test2] while it handles [init]. *)

Module Scenario.
Abbreviation Broker := (MessageBroker unit unit).
Abbreviation Msg := (Message unit unit).

Definition signal_of (kind : MessageType) : Msg :=
  MSignal {| message_type := kind |}.

Definition body (listener : MessageListener) (data : Msg)
    : Code unit unit :=
  match listener, Message_message_type data with
  | 1, MessageType.test1 => CallSignal MessageType.test2 Pass
  | 2, _ => CallUnsubscribe 2 Pass
  | 4, MessageType.mapping => Raise "boom"
  | 5, MessageType.init =>
      CallSignal MessageType.mapping (CallSignal MessageType.test2 Pass)
  | _, _ => Pass
  end.

Definition broker : Broker :=
  subscribe MessageType.init 5
    (subscribe MessageType.mapping 4
       (subscribe MessageType.test2 3
          (subscribe MessageType.test1 2
             (subscribe MessageType.test1 1 __init__)))).

(** [broker] after [signal(test1)] from line 10 of app.py. *)
Definition after_test1 : Broker :=
  default __init__
    (final (send body elements 5 (signal_of MessageType.test1) "app.py" 10
              broker)).

(** [broker] in the middle of a drain. *)
Definition draining : Broker := set_sending true broker.

(** [broker] after [signal(init)] has raised: listener 5 has queued
    [mapping] and [test2], listener 4 has raised on [mapping]. *)
Definition after_raise : Broker :=
  default __init__
    (final (send body elements 5 (signal_of MessageType.init) "app.py" 20
              broker)).

(** [after_raise] after a later [signal(test1)]. *)
Definition after_later : Broker :=
  default __init__
    (final (send body elements 5 (signal_of MessageType.test1) "app.py" 30
              after_raise)).

(** The capabilities of two devices. The name of the second has numbers
    in it, and one of its capabilities is negative. *)
Definition keyboard : Capabilities :=
  [(1, [1; 2; 3; 4; 5]); (2, [7; 8])]%Z.

Definition uinputs_message : UInputsData :=
  {| uinputs := [("keyboard", keyboard);
                 ("1, 2, 3, x", [(4, [1; -2; 3; 4])]%Z)] |}.
End Scenario.

(** * The rest of the module and the components that use it *)

Definition IndexError : Exn := "IndexError".

(** ** The members of MessageType and their values *)

(** The members, in the order of their definition. *)
Definition MessageType_members : list MessageType :=
  [MessageType.reset_gui; MessageType.terminate; MessageType.init;
   MessageType.uinputs; MessageType.groups; MessageType.group;
   MessageType.preset; MessageType.mapping; MessageType.selected_event;
   MessageType.combination_recorded; MessageType.recording_started;
   MessageType.recording_finished; MessageType.combination_update;
   MessageType.status_msg; MessageType.injector_state;
   MessageType.gui_focus_request; MessageType.user_confirm_request;
   MessageType.do_stack_switch; MessageType.test1; MessageType.test2].

(** The value each member is defined with. *)
Definition MessageType_value (k : MessageType) : string :=
  match k with
  | MessageType.reset_gui => "reset_gui"
  | MessageType.terminate => "terminate"
  | MessageType.init => "init"
  | MessageType.uinputs => "uinputs"
  | MessageType.groups => "groups"
  | MessageType.group => "group"
  | MessageType.preset => "preset"
  | MessageType.mapping => "mapping"
  | MessageType.selected_event => "selected_event"
  | MessageType.combination_recorded => "combination_recorded"
  | MessageType.recording_started => "recording_started"
  | MessageType.recording_finished => "recording_finished"
  | MessageType.combination_update => "combination_update"
  | MessageType.status_msg => "status_msg"
  | MessageType.injector_state => "injector_state"
  | MessageType.gui_focus_request => "gui_focus_request"
  | MessageType.user_confirm_request => "user_confirm_request"
  | MessageType.do_stack_switch => "do_stack_switch"
  | MessageType.test1 => "test1"
  | MessageType.test2 => "test2"
  end.

(** [MessageType(value)]: the first member defined with this value;
    [None] stands for [ValueError]. *)
Definition MessageType_of_value (value : string) : option MessageType :=
  List.find (λ k, String.eqb (MessageType_value k) value) MessageType_members.

(** [str] of a [str] is the [str]. *)
#[global] Instance string_str : Str string := λ s, s.

(** A character that [UInputsData.__str__] neither removes nor adds:
    not a digit, a comma, a space or a full stop. *)
Definition is_kept (c : ascii) : bool :=
  negb (is_digit c || Ascii.eqb c "," || Ascii.eqb c " " || Ascii.eqb c ".").

(** ** MessageBroker.get_caller *)

(** An entry of [traceback.extract_stack]: the file of a frame and the
    line it is at. *)
Record FrameSummary := { filename : string; lineno : option Z }.

(** [str.rfind]: the index of the last [c], or -1. *)
Fixpoint rfind (c : ascii) (s : list ascii) : Z :=
  match s with
  | [] => -1
  | c' :: s' =>
      match rfind c s' with
      | Z.neg _ => if Ascii.eqb c' c then 0 else -1
      | i => i + 1
      end
  end%Z.

(** [os.path.basename]: [p[p.rfind("/") + 1:]]. *)
Definition basename (p : string) : string :=
  let chars := list_ascii_of_string p in
  string_of_list_ascii (drop (Z.to_nat (rfind "/" chars + 1)) chars).

(** [traceback.extract_stack(limit=limit)] in a frame whose stack is
    [stack], oldest frame first, the frame itself last: the [limit]
    entries closest to the call, oldest first; with a negative limit
    the oldest entries. *)
Definition extract_stack (limit : Z) (stack : list FrameSummary)
    : list FrameSummary :=
  if (0 <=? limit)%Z then drop (length stack - Z.to_nat limit) stack
  else take (Z.to_nat (- limit)) stack.

(** [get_caller(position)]: [extract_stack(limit=position)[0]], the
    base name of its file and [tb.lineno or 0]; [stack] ends with the
    frame of [get_caller] itself. *)
Definition get_caller (position : Z) (stack : list FrameSummary)
    : Exn + (string * Z) :=
  match extract_stack position stack with
  | [] => inl IndexError
  | tb :: _ => inr (basename (filename tb), default 0%Z (lineno tb))
  end.

(** ** The code around the broker *)

Section Around.
Context {DeviceType EventCombination : Type}.
Abbreviation Message := (Message DeviceType EventCombination).
Abbreviation MessageBroker := (MessageBroker DeviceType EventCombination).
Abbreviation Code := (Code DeviceType EventCombination).

(** The code does not unsubscribe [l]. *)
Inductive keeps_subscribed (l : MessageListener) : Code → Prop :=
| ks_Pass : keeps_subscribed l Pass
| ks_Raise exc : keeps_subscribed l (Raise exc)
| ks_CallSend data file line rest :
    keeps_subscribed l rest → keeps_subscribed l (CallSend data file line rest)
| ks_CallSignal kind rest :
    keeps_subscribed l rest → keeps_subscribed l (CallSignal kind rest)
| ks_CallSubscribe kind listener rest :
    keeps_subscribed l rest →
    keeps_subscribed l (CallSubscribe kind listener rest)
| ks_CallUnsubscribe listener rest :
    listener ≠ l → keeps_subscribed l rest →
    keeps_subscribed l (CallUnsubscribe listener rest)
| ks_Inspect rest :
    (∀ self, keeps_subscribed l (rest self)) → keeps_subscribed l (Inspect rest).

(** The code calls [subscribe(kind, l)] on every path to its end. *)
Inductive subscribes (kind : MessageType) (l : MessageListener)
    : Code → Prop :=
| sub_here rest : subscribes kind l (CallSubscribe kind l rest)
| sub_CallSend data file line rest :
    subscribes kind l rest → subscribes kind l (CallSend data file line rest)
| sub_CallSignal kind' rest :
    subscribes kind l rest → subscribes kind l (CallSignal kind' rest)
| sub_CallSubscribe kind' listener rest :
    subscribes kind l rest →
    subscribes kind l (CallSubscribe kind' listener rest)
| sub_CallUnsubscribe listener rest :
    subscribes kind l rest → subscribes kind l (CallUnsubscribe listener rest)
| sub_Inspect rest :
    (∀ self, subscribes kind l (rest self)) → subscribes kind l (Inspect rest).

(** The code calls [unsubscribe(l)] on every path to its end. *)
Inductive unsubscribes (l : MessageListener) : Code → Prop :=
| unsub_here rest : unsubscribes l (CallUnsubscribe l rest)
| unsub_CallSend data file line rest :
    unsubscribes l rest → unsubscribes l (CallSend data file line rest)
| unsub_CallSignal kind rest :
    unsubscribes l rest → unsubscribes l (CallSignal kind rest)
| unsub_CallSubscribe kind listener rest :
    unsubscribes l rest → unsubscribes l (CallSubscribe kind listener rest)
| unsub_CallUnsubscribe listener rest :
    unsubscribes l rest → unsubscribes l (CallUnsubscribe listener rest)
| unsub_Inspect rest :
    (∀ self, unsubscribes l (rest self)) → unsubscribes l (Inspect rest).

(** The brokers that the code outside the listeners can hold: a new
    broker, and what its methods leave behind when they return or
    raise. *)
Inductive reachable (body : MessageListener → Message → Code)
    (iter : gset MessageListener → list MessageListener)
    : MessageBroker → Prop :=
| reachable___init__ : reachable body iter __init__
| reachable_subscribe kind listener self :
    reachable body iter self →
    reachable body iter (subscribe kind listener self)
| reachable_unsubscribe listener self self' :
    reachable body iter self →
    unsubscribe listener self = Returned self' →
    reachable body iter self'
| reachable_send fuel data file line self self' :
    reachable body iter self →
    final (send body iter fuel data file line self) = Some self' →
    reachable body iter self'
| reachable_signal fuel kind self self' :
    reachable body iter self →
    final (signal body iter fuel kind self) = Some self' →
    reachable body iter self'.
End Around.

(** ** Components used in multiple places (gui/components/common.py) *)

Definition newline : ascii := "010"%char.

(** [str.split(sep)] with a separator of one character: the chunks
    between the separators, at least one. *)
Fixpoint str_split (sep : ascii) (s : string) : list string :=
  match s with
  | EmptyString => [EmptyString]
  | String c s' =>
      if Ascii.eqb c sep then EmptyString :: str_split sep s'
      else match str_split sep s' with
           | chunk :: chunks => String c chunk :: chunks
           | [] => [String c EmptyString]
           end
  end.

(** What the components use of Gtk. *)
Module Gtk.
Definition ResponseType_ACCEPT : Z := -3.
Definition ResponseType_CANCEL : Z := -6.
Definition STYLE_CLASS_DESTRUCTIVE_ACTION : string := "destructive-action".
End Gtk.

(** *** ConfirmCancelDialog *)

(** What [_on_user_confirm_request] does, in order: the calls on the
    message dialog, and the call of the callback of the request. *)
Module Dialog.
Inductive Event :=
  | MessageDialog (text : string)
      (** [Gtk.MessageDialog(window, MODAL | DESTROY_WITH_PARENT, QUESTION,
          NONE, text)] *)
  | format_secondary_text (text : string)
  | add_button (button_text : string) (response_id : Z)
  | add_class (class_name : string)
      (** on the style context of the button added last *)
  | run (response : Z)
      (** [message_dialog.run()] has returned [response] *)
  | respond (callback : nat) (answer : bool)
      (** [msg.respond(answer)] *)
  | hide.
End Dialog.

(** [ConfirmCancelDialog.__init__]: the handler, a bound method, is
    subscribed; [on_user_confirm_request] is its identity. *)
Definition ConfirmCancelDialog___init__ {DeviceType EventCombination}
    (on_user_confirm_request : MessageListener)
    (message_broker : MessageBroker DeviceType EventCombination)
    : MessageBroker DeviceType EventCombination :=
  subscribe MessageType.user_confirm_request on_user_confirm_request
    message_broker.

(** [ConfirmCancelDialog._on_user_confirm_request]. [response] is what
    the user answers to the dialog; [call_respond callback answer] is
    how the call [msg.respond(answer)] ends, [Some exc] when the
    callback raises [exc]. The result is what the handler has done, and
    the exception it raises, if any: an exception of the callback goes
    through the handler, and the dialog is not hidden then. The calls
    on the Gtk objects are taken to return. *)
Definition _on_user_confirm_request (call_respond : nat → bool → option Exn)
    (msg : UserConfirmRequest) (response : Z)
    : list Dialog.Event * option Exn :=
  let chunks := str_split newline (request_msg msg) in
  match chunks with
  | [] => ([], Some IndexError)
  | primary :: rest =>
      let secondary := String.concat " " rest in
      let answer := bool_decide (response = Gtk.ResponseType_ACCEPT) in
      let shown :=
        [Dialog.MessageDialog primary]
        ++ (if decide (secondary = "") then []
            else [Dialog.format_secondary_text secondary])
        ++ [Dialog.add_button "Cancel" Gtk.ResponseType_CANCEL;
            Dialog.add_button "Confirm" Gtk.ResponseType_ACCEPT;
            Dialog.add_class Gtk.STYLE_CLASS_DESTRUCTIVE_ACTION;
            Dialog.run response;
            Dialog.respond (respond msg) answer] in
      match call_respond (respond msg) answer with
      | Some exc => (shown, Some exc)
      | None => (shown ++ [Dialog.hide], None)
      end
  end.

(** Every line break replaced by a space. *)
Definition replace_newlines (s : string) : string :=
  string_of_list_ascii
    ((λ c, if Ascii.eqb c newline then " "%char else c)
       <$> list_ascii_of_string s).

(** What [_on_user_confirm_request] does after the texts are set, up
    to the call of the callback. *)
Definition dialog_buttons_and_answer (msg : UserConfirmRequest) (response : Z)
    : list Dialog.Event :=
  [Dialog.add_button "Cancel" Gtk.ResponseType_CANCEL;
   Dialog.add_button "Confirm" Gtk.ResponseType_ACCEPT;
   Dialog.add_class Gtk.STYLE_CLASS_DESTRUCTIVE_ACTION;
   Dialog.run response;
   Dialog.respond (respond msg)
     (bool_decide (response = Gtk.ResponseType_ACCEPT))].

(** The calls of the callback among the events of the dialog. *)
Definition answers (events : list Dialog.Event) : list (nat * bool) :=
  omap (λ ev, match ev with
              | Dialog.respond callback answer => Some (callback, answer)
              | _ => None
              end) events.

(** *** FlowBoxEntry and FlowBoxWrapper *)

Module FlowBoxEntry.
(** The attributes set by [__init__], and the state of the toggle
    button. *)
Record t := { icon_name : option string; name : string; active : bool }.

(** [show_active]: [set_active(active)], while the handler of the
    toggle is disabled. *)
Definition show_active (active : bool) (self : t) : t :=
  {| icon_name := icon_name self; name := name self; active := active |}.
End FlowBoxEntry.

Module FlowBoxWrapper.
(** [_gui]: the children of the flowbox, each with its own children. *)
Record t := { _gui : list (list FlowBoxEntry.t) }.

(** The loop of [show_active_entry]; [child.get_children()[0]] raises
    [IndexError] for a child without children, after the children
    before it have been shown. *)
Fixpoint show_active_entry_loop (name : option string)
    (children : list (list FlowBoxEntry.t))
    : option Exn * list (list FlowBoxEntry.t) :=
  match children with
  | [] => (None, [])
  | child :: children' =>
      match child with
      | [] => (Some IndexError, children)
      | flow_box_entry :: others =>
          let shown :=
            FlowBoxEntry.show_active
              (bool_decide (Some (FlowBoxEntry.name flow_box_entry) = name))
              flow_box_entry in
          let '(exc, children'') := show_active_entry_loop name children' in
          (exc, (shown :: others) :: children'')
      end
  end.

Definition show_active_entry (name : option string) (self : t)
    : option Exn * t :=
  let '(exc, children) := show_active_entry_loop name (_gui self) in
  (exc, {| _gui := children |}).
End FlowBoxWrapper.

(** The entries [show_active_entry] looks at: the first child of each
    child of the flowbox. *)
Definition flow_box_entries (self : FlowBoxWrapper.t) : list FlowBoxEntry.t :=
  omap head (FlowBoxWrapper._gui self).

(** What [show_active_entry] makes of an entry. *)
Definition shown_for (name : option string) (entry : FlowBoxEntry.t)
    : FlowBoxEntry.t :=
  FlowBoxEntry.show_active
    (bool_decide (Some (FlowBoxEntry.name entry) = name)) entry.

(** *** Breadcrumbs *)

(** Of [MappingData] (inputremapper.configs.mapping), what
    [_on_mapping_changed] reads. *)
Module MappingData.
Record t {EventCombination : Type} := {
    name : option string;
    event_combination : EventCombination }.
Arguments t : clear implicits.
End MappingData.

Record Breadcrumbs := {
    show_device_group : bool;
    show_preset : bool;
    show_mapping : bool;
    _group_key : string;
    _preset_name : string;
    _mapping_name : string;
    _gui : string  (** the text of the label *) }.

Section Components.
Context {DeviceType EventCombination : Type}.
Context `{!EqDecision EventCombination}.

(** [EventCombination.empty_combination()], [beautify] and the
    translation function [_] are imported. *)
Variable empty_combination : EventCombination.
Variable beautify : EventCombination → string.
Variable gettext : string → string.

Definition _connect_message_listener
    (_on_group_changed _on_preset_changed _on_mapping_changed : MessageListener)
    (message_broker : MessageBroker DeviceType EventCombination)
    : MessageBroker DeviceType EventCombination :=
  subscribe MessageType.mapping _on_mapping_changed
    (subscribe MessageType.preset _on_preset_changed
       (subscribe MessageType.group _on_group_changed message_broker)).

(** [Breadcrumbs.__init__]; the three handlers are bound methods, given
    by their identities; [label] is the text the label has. *)
Definition Breadcrumbs___init__
    (_on_group_changed _on_preset_changed _on_mapping_changed : MessageListener)
    (message_broker : MessageBroker DeviceType EventCombination)
    (label : string)
    (show_device_group show_preset show_mapping : bool)
    : MessageBroker DeviceType EventCombination * Breadcrumbs :=
  (_connect_message_listener _on_group_changed _on_preset_changed
     _on_mapping_changed message_broker,
   {| show_device_group := show_device_group;
      show_preset := show_preset;
      show_mapping := show_mapping;
      _group_key := "";
      _preset_name := "";
      _mapping_name := "";
      _gui := label |}).

Definition _render (self : Breadcrumbs) : Breadcrumbs :=
  let label := [] in
  let label :=
    if show_device_group self then label ++ [_group_key self] else label in
  let label :=
    if show_preset self then label ++ [_preset_name self] else label in
  let label :=
    if show_mapping self then label ++ [_mapping_name self] else label in
  {| show_device_group := show_device_group self;
     show_preset := show_preset self;
     show_mapping := show_mapping self;
     _group_key := _group_key self;
     _preset_name := _preset_name self;
     _mapping_name := _mapping_name self;
     _gui := String.concat "  /  " label |}.

(** [self._preset_name = data.name or ""] *)
Definition _on_preset_changed
    (data : PresetData (EventCombination := EventCombination))
    (self : Breadcrumbs) : Breadcrumbs :=
  let _preset_name :=
    match name data with
    | Some n => if decide (n = "") then "" else n
    | None => ""
    end in
  _render
    {| show_device_group := show_device_group self;
       show_preset := show_preset self;
       show_mapping := show_mapping self;
       _group_key := _group_key self;
       _preset_name := _preset_name;
       _mapping_name := _mapping_name self;
       _gui := _gui self |}.

Definition _on_group_changed (data : GroupData) (self : Breadcrumbs)
    : Breadcrumbs :=
  _render
    {| show_device_group := show_device_group self;
       show_preset := show_preset self;
       show_mapping := show_mapping self;
       _group_key := group_key data;
       _preset_name := _preset_name self;
       _mapping_name := _mapping_name self;
       _gui := _gui self |}.

Definition _on_mapping_changed (mapping : MappingData.t EventCombination)
    (self : Breadcrumbs) : Breadcrumbs :=
  let _mapping_name :=
    match MappingData.name mapping with
    | Some (String _ _ as n) => n
    | _ =>
        if decide (MappingData.event_combination mapping ≠ empty_combination)
        then beautify (MappingData.event_combination mapping)
        else gettext "empty mapping"
    end in
  _render
    {| show_device_group := show_device_group self;
       show_preset := show_preset self;
       show_mapping := show_mapping self;
       _group_key := _group_key self;
       _preset_name := _preset_name self;
       _mapping_name := _mapping_name;
       _gui := _gui self |}.

(** A message that reaches a handler of the breadcrumbs. *)
Inductive BreadcrumbsCall :=
  | group_changed (data : GroupData)
  | preset_changed (data : PresetData (EventCombination := EventCombination))
  | mapping_changed (mapping : MappingData.t EventCombination).

Definition Breadcrumbs_handle (self : Breadcrumbs) (call : BreadcrumbsCall)
    : Breadcrumbs :=
  match call with
  | group_changed data => _on_group_changed data self
  | preset_changed data => _on_preset_changed data self
  | mapping_changed mapping => _on_mapping_changed mapping self
  end.

(** The name that a call gives to a part of the breadcrumbs. *)
Definition group_of (call : BreadcrumbsCall) : option string :=
  match call with group_changed data => Some (group_key data) | _ => None end.

Definition preset_of (call : BreadcrumbsCall) : option string :=
  match call with
  | preset_changed data => Some (default "" (name data))
  | _ => None
  end.

Definition mapping_of (call : BreadcrumbsCall) : option string :=
  match call with
  | mapping_changed mapping =>
      Some (if bool_decide (MappingData.name mapping = None
                            ∨ MappingData.name mapping = Some "")
            then if decide (MappingData.event_combination mapping
                            = empty_combination)
                 then gettext "empty mapping"
                 else beautify (MappingData.event_combination mapping)
            else default "" (MappingData.name mapping))
  | _ => None
  end.
End Components.

Arguments BreadcrumbsCall : clear implicits.

(** The parts that the flags show, in their order. *)
Definition shown_parts (self : Breadcrumbs) : list string :=
  (if show_device_group self then [_group_key self] else [])
  ++ (if show_preset self then [_preset_name self] else [])
  ++ (if show_mapping self then [_mapping_name self] else []).

(** ** A listener that answers every message with the same message *)

Module Echo.
Definition body (listener : MessageListener) (data : Scenario.Msg)
    : Code unit unit :=
  match listener with
  | 1 => CallSend data "echo.py" 1 Pass
  | _ => Pass
  end.

Definition broker : Scenario.Broker :=
  subscribe MessageType.test1 1 __init__.
End Echo.

(** ** A listener that subscribes another one when it is called *)

Module Latecomer.
Definition body (listener : MessageListener) (data : Scenario.Msg)
    : Code unit unit :=
  match listener with
  | 1 => CallSubscribe MessageType.test1 2 Pass
  | _ => Pass
  end.

(** A broker with listener 1 registered for [test1], in the middle of
    a drain. *)
Definition draining : Scenario.Broker :=
  set_sending true (subscribe MessageType.test1 1 __init__).
End Latecomer.

(** * Properties of the messages *)

Local Close Scope string_scope.

Section DictLemmas.
Context {K V : Type} `{EqDecision K}.
Implicit Types (d : Dict K V).

Lemma dict_get_Some_elem_of k v d : dict_get k d = Some v → (k, v) ∈ d.
Proof.
  induction d as [|[k' v'] d IH]; simpl; [done|].
  case_decide as Hk; [intros [= ->]; subst; left|right; auto].
Qed.

Lemma dict_get_None k d : dict_get k d = None ↔ k ∉ d.*1.
Proof.
  induction d as [|[k' v'] d IH]; simpl.
  - split; [intros _; apply not_elem_of_nil|done].
  - rewrite not_elem_of_cons. case_decide as Hk; [|tauto].
    split; [done|]. intros [Hne _]. done.
Qed.

Lemma dict_get_NoDup k v d : NoDup d.*1 → (k, v) ∈ d → dict_get k d = Some v.
Proof.
  induction d as [|[k' v'] d IH]; simpl; [by intros _ ?%elem_of_nil|].
  intros [Hk Hnd]%NoDup_cons [[= -> ->]|Hin]%elem_of_cons.
  - by rewrite decide_True.
  - rewrite decide_False; [by apply IH|].
    intros ->. apply Hk. apply list_elem_of_fmap. by exists (k', v).
Qed.

Lemma dict_get_is_Some k d : is_Some (dict_get k d) ↔ k ∈ d.*1.
Proof.
  rewrite <-not_eq_None_Some, dict_get_None.
  split; [apply dec_stable|auto].
Qed.

(** [dict_eqb] decides [dict_same], for dicts with distinct keys whose
    values are compared by a [veq] that decides [R]. *)
Lemma dict_eqb_spec (veq : V → V → bool) (R : V → V → Prop) (P : V → Prop)
    d1 d2 :
  (∀ v v', P v → P v' → (veq v v' = true ↔ R v v')) →
  dict_wf d1 → dict_wf d2 →
  Forall (λ kv, P kv.2) d1 → Forall (λ kv, P kv.2) d2 →
  dict_eqb veq d1 d2 = true ↔ dict_same R d1 d2.
Proof.
  intros Hveq Hnd1 Hnd2 HP1 HP2. unfold dict_eqb.
  rewrite andb_true_iff, Nat.eqb_eq, forallb_forall.
  rewrite Forall_forall in HP1, HP2. split.
  - intros [Hlen Hall] k.
    assert (∀ k' v, (k', v) ∈ d1 →
              ∃ v', dict_get k' d2 = Some v' ∧ R v v') as Hin.
    { intros k' v Hkv. specialize (Hall _ (proj1 (list_elem_of_In _ _) Hkv)).
      simpl in Hall. destruct (dict_get k' d2) as [v'|] eqn:E; [|done].
      exists v'. split; [done|]. apply Hveq; [| |done].
      - by apply (HP1 (k', v)).
      - apply (HP2 (k', v')). by apply dict_get_Some_elem_of. }
    assert (d1.*1 ≡ₚ d2.*1) as Hperm.
    { apply submseteq_length_Permutation;
        [|by rewrite !length_fmap, Hlen].
      apply NoDup_submseteq; [exact Hnd1|]. intros k' Hk'.
      apply list_elem_of_fmap in Hk' as ([k'' v] & -> & Hkv).
      destruct (Hin _ _ Hkv) as (v' & Hget & _). simpl.
      apply dict_get_is_Some. by rewrite Hget. }
    destruct (dict_get k d1) as [v|] eqn:E1.
    + destruct (Hin k v) as (v' & -> & HR);
        [by apply dict_get_Some_elem_of|by constructor].
    + apply dict_get_None in E1. rewrite Hperm in E1.
      apply dict_get_None in E1. rewrite E1. constructor.
  - intros Hsame.
    assert (d1.*1 ≡ₚ d2.*1) as Hperm.
    { apply NoDup_Permutation; [exact Hnd1|exact Hnd2|]. intros k.
      rewrite <-!dict_get_is_Some. specialize (Hsame k).
      destruct Hsame; split; intros [? ?]; done || by eexists. }
    split.
    + apply Permutation_length in Hperm. by rewrite !length_fmap in Hperm.
    + intros [k v] Hkv%list_elem_of_In. simpl.
      specialize (Hsame k). rewrite (dict_get_NoDup k v d1) in Hsame by done.
      inversion Hsame as [? v' HR Heq1 Heq2|]; subst.
      apply Hveq; [by apply (HP1 (k, v))| |done].
      apply (HP2 (k, v')). by apply dict_get_Some_elem_of.
Qed.
End DictLemmas.

(** ** The shortening of [UInputsData.__str__] *)

Section Shorten.
Implicit Types (s pre : list ascii) (c : ascii).

Lemma digits_prefix_le s : digits_prefix s ≤ length s.
Proof.
  induction s as [|c s IH]; simpl; [lia|]. destruct (is_digit c); simpl; lia.
Qed.

Lemma digits_prefix_take s :
  Forall (λ c, is_digit c = true) (take (digits_prefix s) s).
Proof.
  induction s as [|c s IH]; simpl; [constructor|].
  destruct (is_digit c) eqn:E; simpl; [by constructor|constructor].
Qed.

(** A group is one digit or more, a comma and a space. *)
Lemma match_group_Some s g :
  match_group s = Some g →
  ∃ ds rest,
    s = ds ++ ","%char :: " "%char :: rest
    ∧ ds ≠ [] ∧ Forall (λ c, is_digit c = true) ds
    ∧ g = length ds + 2.
Proof.
  unfold match_group. destruct (digits_prefix s =? 0) eqn:E0; [done|].
  apply Nat.eqb_neq in E0.
  destruct (drop (digits_prefix s) s) as [|c1 [|c2 rest]] eqn:Ed; try done.
  destruct (Ascii.eqb c1 ",") eqn:E1; [|done].
  destruct (Ascii.eqb c2 " ") eqn:E2; [|done].
  apply Ascii.eqb_eq in E1, E2. subst. simpl. intros [= <-].
  pose proof (digits_prefix_le s) as Hle.
  exists (take (digits_prefix s) s), rest. split_and!.
  - by rewrite <-Ed, take_drop.
  - intros Hnil. apply (f_equal length) in Hnil.
    rewrite length_take in Hnil. simpl in Hnil. lia.
  - apply digits_prefix_take.
  - rewrite length_take. lia.
Qed.

Lemma digits_prefix_app ds c rest :
  Forall (λ c, is_digit c = true) ds → is_digit c = false →
  digits_prefix (ds ++ c :: rest) = length ds.
Proof.
  induction 1 as [|d ds Hd _ IH]; intros Hc; simpl; [by rewrite Hc|].
  rewrite Hd. f_equal. by apply IH.
Qed.

Lemma match_group_digits ds rest :
  ds ≠ [] → Forall (λ c, is_digit c = true) ds →
  match_group (ds ++ ","%char :: " "%char :: rest) = Some (length ds + 2).
Proof.
  intros Hne Hds. unfold match_group.
  rewrite digits_prefix_app by done.
  destruct ds as [|d ds]; [done|]. simpl length.
  change (S (length ds) =? 0) with false. cbv iota.
  replace (S (length ds)) with (length (d :: ds)) by done.
  by rewrite drop_app_length.
Qed.

Lemma match_groups_le fuel s : match_groups fuel s ≤ length s.
Proof.
  revert s. induction fuel as [|fuel IH]; intros s; simpl; [lia|].
  destruct (match_group s) as [g|] eqn:Eg; [|lia].
  destruct (match_group_Some s g Eg) as (ds & rest & -> & _ & _ & ->).
  specialize (IH (drop (length ds + 2) (ds ++ ","%char :: " "%char :: rest))).
  rewrite length_drop in IH. rewrite !length_app in *. simpl in *. lia.
Qed.

(** A match begins with a group and stays within the string. *)
Lemma re_match_Some s n :
  re_match s = Some n →
  ∃ g, match_group s = Some g ∧ g ≤ n ∧ n ≤ length s.
Proof.
  unfold re_match. destruct (match_groups (length s) s =? 0) eqn:E0; [done|].
  intros [= <-]. apply Nat.eqb_neq in E0.
  pose proof (match_groups_le (length s) s) as Hle.
  destruct (length s) as [|fuel]; [done|]. simpl in *.
  destruct (match_group s) as [g|]; [|done].
  exists g. split; [done|]. lia.
Qed.

Lemma find_comma_digits ds rest :
  Forall (λ c, is_digit c = true) ds →
  find ","%char (ds ++ ","%char :: rest) = Z.of_nat (length ds).
Proof.
  induction 1 as [|d ds Hd _ IH]; [done|]. cbn [app find length].
  destruct (Ascii.eqb d ",") eqn:E.
  { apply Ascii.eqb_eq in E. by subst. }
  rewrite IH. destruct (length ds); simpl; lia.
Qed.

(** The loop of [__str__], which cuts the matches from the last to the
    first by their positions in the original text, computes what the
    comment describes from left to right. *)
Lemma shorten_from_compress fuel (pos : nat) pre s :
  length pre = pos → length s ≤ fuel →
  foldl shorten_match (pre ++ s) (reverse (finditer_from fuel pos s))
  = pre ++ compress_from fuel s.
Proof.
  revert pos pre s.
  induction fuel as [|fuel IH]; intros pos pre s Hpre Hlen.
  { destruct s; [done|simpl in Hlen; lia]. }
  destruct s as [|c s']; [done|]. cbn [finditer_from compress_from].
  destruct (re_match (c :: s')) as [n|] eqn:Er.
  - destruct (re_match_Some _ _ Er) as (g & Eg & Hgn & Hn). rewrite Eg.
    destruct (match_group_Some _ _ Eg) as (ds & rest & Es & Hne & Hds & ->).
    remember (c :: s') as s eqn:Hs. clear Hs.
    rewrite reverse_cons, foldl_app.
    rewrite <-(take_drop n s) at 1. rewrite app_assoc.
    rewrite (IH (pos + n) (pre ++ take n s) (drop n s)); cycle 1.
    { rewrite length_app, length_take. lia. }
    { rewrite length_drop. simpl in *. lia. }
    set (Y := compress_from fuel (drop n s)).
    cbn [foldl shorten_match].
    assert (take n s = (ds ++ [","%char; " "%char])
                       ++ drop (length ds + 2) (take n s)) as Htake.
    { rewrite <-(take_drop (length ds + 2) (take n s)) at 1. f_equal.
      rewrite take_take.
      replace ((length ds + 2) `min` n) with (length ds + 2) by lia.
      rewrite Es.
      change (ds ++ ","%char :: " "%char :: rest)
        with (ds ++ [","%char; " "%char] ++ rest).
      rewrite app_assoc.
      rewrite take_app_length'; [done|]. rewrite length_app. simpl. lia. }
    assert (drop pos ((pre ++ take n s) ++ Y)
            = ds ++ ","%char :: (" "%char :: drop (length ds + 2) (take n s)
                                  ++ Y)) as ->.
    { rewrite <-app_assoc, drop_app_length' by done. rewrite Htake at 1.
      by rewrite <-!app_assoc. }
    rewrite find_comma_digits by done.
    replace (Z.to_nat (Z.of_nat pos + Z.of_nat (length ds) + 2))
      with (pos + (length ds + 2)) by lia.
    destruct (length ds + 2 =? n) eqn:En.
    + apply Nat.eqb_eq in En.
      replace (pos + (length ds + 2) =? pos + n) with true
        by (symmetry; apply Nat.eqb_eq; lia).
      rewrite <-En, <-!app_assoc. simpl. by rewrite En.
    + apply Nat.eqb_neq in En.
      replace (pos + (length ds + 2) =? pos + n) with false
        by (symmetry; apply Nat.eqb_neq; lia).
      rewrite <-(app_assoc pre), take_app_add' by done.
      rewrite take_app_le by (rewrite length_take; lia).
      rewrite take_take.
      replace ((length ds + 2) `min` n) with (length ds + 2) by lia.
      rewrite drop_app_add' by done.
      rewrite drop_app_length'; [|rewrite length_take; lia].
      by rewrite <-!app_assoc.
  - rewrite (cons_middle c pre s'), app_assoc.
    rewrite (IH (S pos) (pre ++ [c]) s').
    + by rewrite <-app_assoc.
    + rewrite length_app. simpl. lia.
    + simpl in Hlen. lia.
Qed.

(** [shorten] is [compress]. *)
Lemma shorten_compress s : shorten s = compress s.
Proof.
  unfold shorten, finditer, compress.
  by apply (shorten_from_compress (length s) 0 [] s).
Qed.

Implicit Types (u v : list ascii) (b e : ascii).

Lemma is_blocker_spec b :
  is_blocker b = true →
  is_digit b = false ∧ Ascii.eqb b "," = false ∧ Ascii.eqb b " " = false.
Proof.
  unfold is_blocker. rewrite !andb_true_iff, !negb_true_iff. tauto.
Qed.

(** ** Fuel *)

Lemma match_group_pos s g : match_group s = Some g → 2 ≤ g ≤ length s.
Proof.
  intros Hg. destruct (match_group_Some s g Hg) as (ds & rest & -> & _ & _ & ->).
  rewrite length_app. simpl. lia.
Qed.

Lemma compress_from_fuel f1 f2 s :
  length s ≤ f1 → length s ≤ f2 → compress_from f1 s = compress_from f2 s.
Proof.
  revert f2 s. induction f1 as [|f1 IH]; intros f2 s H1 H2.
  { destruct s; [by destruct f2|simpl in H1; lia]. }
  destruct f2 as [|f2]; [destruct s; [done|simpl in H2; lia]|].
  destruct s as [|c s']; [done|]. cbn [compress_from].
  simpl in H1, H2.
  destruct (re_match (c :: s')) as [n|] eqn:Er.
  - destruct (re_match_Some _ _ Er) as (g & Eg & Hgn & Hn). rewrite Eg.
    apply match_group_pos in Eg.
    do 2 f_equal. apply IH; rewrite length_drop; simpl in *; lia.
  - f_equal. apply IH; lia.
Qed.

Lemma compress_cons c s :
  compress (c :: s)
  = match re_match (c :: s), match_group (c :: s) with
    | Some n, Some g =>
        take g (c :: s)
        ++ (if g =? n then [] else list_ascii_of_string "... ")
        ++ compress (drop n (c :: s))
    | _, _ => c :: compress s
    end.
Proof.
  unfold compress. cbn [length compress_from].
  destruct (re_match (c :: s)) as [n|] eqn:Er; [|done].
  destruct (re_match_Some _ _ Er) as (g & Eg & Hgn & Hn). rewrite Eg.
  apply match_group_pos in Eg.
  do 2 f_equal. apply compress_from_fuel; rewrite length_drop; simpl in *; lia.
Qed.

Lemma compress_cons_None c s :
  match_group (c :: s) = None → compress (c :: s) = c :: compress s.
Proof. intros Hg. rewrite compress_cons, Hg. by destruct (re_match _). Qed.

(** ** Characters that end every match *)

Lemma digits_prefix_blocker u b v :
  is_digit b = false →
  digits_prefix (u ++ b :: v) = digits_prefix (u ++ [b])
  ∧ digits_prefix (u ++ [b]) ≤ length u.
Proof.
  intros Hb. induction u as [|c u [IH1 IH2]]; simpl.
  - rewrite Hb. split; [done|lia].
  - destruct (is_digit c); [|split; [done|lia]]. rewrite IH1. split; [done|lia].
Qed.

(** A group that begins before a blocker ends before it, and does not
    depend on what follows the blocker. *)
Lemma match_group_blocker u b :
  is_blocker b = true →
  ∃ r, (∀ v, match_group (u ++ b :: v) = r)
       ∧ ∀ g, r = Some g → g ≤ length u.
Proof.
  intros (Hd & Hc & Hs)%is_blocker_spec.
  pose proof (digits_prefix_blocker u b) as Hdp.
  destruct (Hdp [] Hd) as [_ Hle].
  set (n := digits_prefix (u ++ [b])) in *.
  assert (∀ v, match_group (u ++ b :: v)
               = if n =? 0 then None
                 else match drop n u ++ b :: v with
                      | c1 :: c2 :: _ =>
                          if Ascii.eqb c1 "," && Ascii.eqb c2 " "
                          then Some (n + 2) else None
                      | _ => None
                      end) as Hmg.
  { intros v. unfold match_group. destruct (Hdp v Hd) as [-> _]. fold n.
    by rewrite drop_app_le by done. }
  destruct (n =? 0) eqn:E0.
  { exists None. split; [by intros v; rewrite Hmg|done]. }
  destruct (drop n u) as [|c1 [|c2 rest]] eqn:Ed.
  - exists None. split; [|done]. intros v. rewrite Hmg. simpl.
    destruct v; [done|]. by rewrite Hc.
  - exists None. split; [|done]. intros v. rewrite Hmg. simpl.
    by rewrite Hs, andb_false_r.
  - exists (if Ascii.eqb c1 "," && Ascii.eqb c2 " " then Some (n + 2) else None).
    split; [by intros v; rewrite Hmg|].
    intros g Hg. destruct (_ && _); [|done]. injection Hg as <-.
    apply (f_equal length) in Ed. rewrite length_drop in Ed. simpl in Ed. lia.
Qed.

Lemma drop_app_blocker (n : nat) u b v :
  n ≤ length u → drop n (u ++ b :: v) = drop n u ++ b :: v.
Proof. intros. by rewrite drop_app_le. Qed.

Lemma match_groups_blocker f1 f2 u b v1 v2 :
  is_blocker b = true → length u < f1 → length u < f2 →
  match_groups f1 (u ++ b :: v1) = match_groups f2 (u ++ b :: v2)
  ∧ match_groups f1 (u ++ b :: v1) ≤ length u.
Proof.
  intros Hb. revert f2 u.
  induction f1 as [|f1 IH]; intros f2 u H1 H2; [lia|].
  destruct f2 as [|f2]; [lia|]. cbn [match_groups].
  destruct (match_group_blocker u b Hb) as (r & Hr & Hle).
  rewrite !Hr. destruct r as [g|]; [|split; [done|lia]].
  specialize (Hle g eq_refl).
  pose proof (match_group_pos _ _ (Hr [])) as [Hg _].
  rewrite !drop_app_blocker by done.
  destruct (IH f2 (drop g u)) as [-> Hn]; rewrite ?length_drop; try lia.
  rewrite length_drop in Hn. split; [done|lia].
Qed.

(** A match that begins before a blocker ends before it, and does not
    depend on what follows the blocker. *)
Lemma re_match_blocker u b :
  is_blocker b = true →
  ∃ r, (∀ v, re_match (u ++ b :: v) = r)
       ∧ ∀ n, r = Some n → n ≤ length u.
Proof.
  intros Hb.
  set (n := match_groups (S (length u)) (u ++ [b])).
  assert (∀ v, match_groups (length (u ++ b :: v)) (u ++ b :: v) = n
               ∧ n ≤ length u) as Hn.
  { intros v.
    destruct (match_groups_blocker (length (u ++ b :: v)) (S (length u))
                u b v [] Hb) as [-> ?]; [rewrite length_app; simpl; lia|lia|].
    fold n. split; [done|].
    destruct (match_groups_blocker (S (length u)) (S (length u))
                u b [] [] Hb) as [_ ?]; [lia..|done]. }
  exists (if n =? 0 then None else Some n). split.
  - intros v. unfold re_match. by destruct (Hn v) as [-> _].
  - intros m Hm. destruct (n =? 0); [done|]. injection Hm as <-.
    by destruct (Hn []).
Qed.

(** The text before a blocker, the blocker included, is shortened on its
    own. *)
Lemma compress_app_blocker u b v :
  is_blocker b = true →
  compress (u ++ b :: v) = compress (u ++ [b]) ++ compress v.
Proof.
  intros Hb.
  assert (∀ t, match_group (b :: t) = None) as Hnone.
  { intros t. unfold match_group. simpl.
    apply is_blocker_spec in Hb as (-> & _). done. }
  remember (length u) as k eqn:Hk.
  assert (length u ≤ k) as Hle by lia. clear Hk. revert u Hle.
  induction k as [|k IH]; intros u Hle.
  { destruct u; [|simpl in Hle; lia]. simpl.
    by rewrite !compress_cons_None. }
  destruct u as [|c u].
  { simpl. by rewrite !compress_cons_None. }
  simpl in Hle.
  destruct (re_match_blocker (c :: u) b Hb) as (r & Hr & Hrle).
  destruct (match_group_blocker (c :: u) b Hb) as (rg & Hrg & Hgle).
  pose proof (Hr v) as Hrv. pose proof (Hr []) as Hr0.
  pose proof (Hrg v) as Hgv. pose proof (Hrg []) as Hg0.
  simpl in Hrv, Hr0, Hgv, Hg0. simpl app.
  rewrite !compress_cons, Hrv, Hr0, Hgv, Hg0.
  destruct r as [n|]; [destruct rg as [g|]|].
  - specialize (Hrle n eq_refl). specialize (Hgle g eq_refl).
    destruct (re_match_Some _ _ Hr0) as (g' & Eg' & Hgn & _).
    rewrite Hg0 in Eg'. injection Eg' as <-.
    pose proof (match_group_pos _ _ Hg0) as [Hg2 _].
    change (c :: u ++ b :: v) with ((c :: u) ++ b :: v).
    change (c :: u ++ [b]) with ((c :: u) ++ [b]).
    rewrite !take_app_le by done.
    rewrite !drop_app_blocker by done.
    rewrite (IH (drop n (c :: u))); [by rewrite <-!app_assoc|].
    rewrite length_drop. simpl in *. lia.
  - simpl. f_equal. apply IH. lia.
  - simpl. f_equal. apply IH. lia.
Qed.

(** ** A sequence of numbers *)

Lemma numbers_text_cons d ds t :
  numbers_text (d :: ds) ++ t = d ++ ","%char :: " "%char :: numbers_text ds ++ t.
Proof. unfold numbers_text. simpl. by rewrite <-!app_assoc. Qed.

Lemma numbers_text_length d ds :
  length (numbers_text (d :: ds)) = length d + 2 + length (numbers_text ds).
Proof.
  change (numbers_text (d :: ds))
    with ((d ++ [","%char; " "%char]) ++ numbers_text ds).
  rewrite !length_app. simpl. lia.
Qed.

Lemma match_group_number z e t :
  Forall (λ c, is_digit c = true) z → is_blocker e = true →
  match_group (z ++ e :: t) = None.
Proof.
  intros Hz (Hd & Hc & _)%is_blocker_spec. unfold match_group.
  rewrite digits_prefix_app by done.
  destruct (length z =? 0); [done|].
  rewrite drop_app_length. destruct t; [done|]. by rewrite Hc.
Qed.

Lemma drop_group d t :
  drop (length d + 2) (d ++ ","%char :: " "%char :: t) = t.
Proof.
  change (d ++ ","%char :: " "%char :: t)
    with (d ++ [","%char; " "%char] ++ t).
  rewrite app_assoc, drop_app_length'; [done|]. rewrite length_app. simpl. lia.
Qed.

Lemma take_group d t :
  take (length d + 2) (d ++ ","%char :: " "%char :: t)
  = d ++ [","%char; " "%char].
Proof.
  change (d ++ ","%char :: " "%char :: t)
    with (d ++ [","%char; " "%char] ++ t).
  rewrite app_assoc, take_app_length'; [done|]. rewrite length_app. simpl. lia.
Qed.

(** The groups at the head of a sequence of numbers are all the numbers
    but the last. *)
Lemma match_groups_numbers fuel ds z e t :
  Forall is_number ds → Forall (λ c, is_digit c = true) z →
  is_blocker e = true → length ds < fuel →
  match_groups fuel (numbers_text ds ++ z ++ e :: t)
  = length (numbers_text ds).
Proof.
  intros Hds Hz He. revert fuel.
  induction Hds as [|d ds [Hne Hd] _ IH]; intros fuel Hf.
  - destruct fuel as [|fuel]; [simpl in Hf; lia|]. simpl.
    by rewrite match_group_number.
  - destruct fuel as [|fuel]; [simpl in Hf; lia|]. cbn [match_groups].
    rewrite numbers_text_cons, match_group_digits by done.
    rewrite drop_group, IH by (simpl in Hf; lia).
    rewrite numbers_text_length. lia.
Qed.

Lemma numbers_text_length_le ds : length ds ≤ length (numbers_text ds).
Proof.
  induction ds as [|d ds IH]; [done|]. rewrite numbers_text_length. simpl. lia.
Qed.

Lemma compress_number z e t :
  Forall (λ c, is_digit c = true) z → is_blocker e = true →
  compress (z ++ e :: t) = z ++ e :: compress t.
Proof.
  intros Hz He. induction Hz as [|c z Hc Hz IH]; simpl.
  - apply compress_cons_None. by apply (match_group_number []).
  - rewrite compress_cons_None, IH; [done|].
    apply (match_group_number (c :: z)); [by constructor|done].
Qed.

(** A sequence of numbers is shortened to its first number, an ellipsis
    when it has three numbers or more, and its last number. *)
Lemma compress_numbers a mids z e t :
  is_number a → Forall is_number mids → is_number z →
  is_blocker e = true →
  compress (numbers_text (a :: mids) ++ z ++ e :: t)
  = a ++ [","%char; " "%char]
    ++ (if decide (mids = []) then [] else list_ascii_of_string "... ")
    ++ z ++ e :: compress t.
Proof.
  intros [Hane Ha] Hmids [Hzne Hz] He.
  set (s := numbers_text (a :: mids) ++ z ++ e :: t).
  assert (match_group s = Some (length a + 2)) as Hg.
  { unfold s. rewrite numbers_text_cons. by apply match_group_digits. }
  assert (re_match s = Some (length (numbers_text (a :: mids)))) as Hr.
  { unfold re_match, s. rewrite match_groups_numbers; try done.
    - rewrite numbers_text_length. by destruct (length a + 2 + _) eqn:E; [lia|].
    - by constructor.
    - rewrite length_app. pose proof (numbers_text_length_le (a :: mids)).
      rewrite length_app. simpl in *. lia. }
  destruct s as [|c s'] eqn:Es.
  { unfold s in Es. rewrite numbers_text_cons in Es. by destruct a. }
  rewrite compress_cons, Hr, Hg, <-Es. unfold s.
  rewrite drop_app_length, compress_number by done.
  rewrite numbers_text_cons, take_group, numbers_text_length.
  rewrite <-!app_assoc. do 3 f_equal.
  destruct mids as [|m mids]; simpl.
  - replace (length a + 2 =? length a + 2 + 0) with true; [done|].
    symmetry. apply Nat.eqb_eq. lia.
  - rewrite numbers_text_length.
    replace (length a + 2 =? _) with false; [done|].
    symmetry. apply Nat.eqb_neq. lia.
Qed.
End Shorten.

(** ** The text of the numbers of a message *)

Section Repr.
Implicit Types (s : string) (z : Z).

Lemma list_ascii_of_string_app s1 s2 :
  list_ascii_of_string (s1 +:+ s2)
  = list_ascii_of_string s1 ++ list_ascii_of_string s2.
Proof. induction s1 as [|c s1 IH]; simpl; [done|by rewrite IH]. Qed.

Lemma pretty_N_char_digit x : is_digit (pretty_N_char x) = true.
Proof. unfold pretty_N_char. by repeat case_match. Qed.

Lemma pretty_N_go_number x s :
  is_number (list_ascii_of_string s) →
  is_number (list_ascii_of_string (pretty_N_go x s)).
Proof.
  revert s. induction (N.lt_wf_0 x) as [x _ IH]; intros s Hs.
  assert (x = 0 ∨ 0 < x)%N as [->|Hx] by lia; [done|].
  rewrite pretty_N_go_step by done. apply IH; [by apply N.div_lt|].
  destruct Hs as [_ Hs]. split; [done|]. simpl. constructor; [|done].
  apply pretty_N_char_digit.
Qed.

(** [repr] of an [int] that is not negative is a number. *)
Lemma repr_int_number z :
  (0 ≤ z)%Z → is_number (list_ascii_of_string (repr_int z)).
Proof.
  intros Hz. unfold repr_int, pretty, pretty_Z.
  destruct z as [|p|p]; [by split; [|repeat constructor]| |lia].
  unfold pretty, pretty_positive, pretty, pretty_N.
  case_decide; [done|].
  rewrite pretty_N_go_step by lia. apply pretty_N_go_number.
  split; [done|]. repeat constructor. apply pretty_N_char_digit.
Qed.

Lemma concat_numbers (l : list Z) (last : Z) :
  list_ascii_of_string (String.concat ", " (repr_int <$> l ++ [last]))
  = numbers_text ((λ z, list_ascii_of_string (repr_int z)) <$> l)
    ++ list_ascii_of_string (repr_int last).
Proof.
  induction l as [|a l IH]; [done|].
  rewrite fmap_cons, numbers_text_cons, <-IH.
  change ((a :: l) ++ [last]) with (a :: (l ++ [last])).
  rewrite fmap_cons. cbn [String.concat].
  destruct (repr_int <$> l ++ [last]) as [|x xs] eqn:E.
  { by destruct l. }
  by rewrite !list_ascii_of_string_app.
Qed.

Lemma concat_elem_of {A} (f : A → string) (sep : string) (x : A) (l : list A) :
  x ∈ l →
  ∃ p q, list_ascii_of_string (String.concat sep (f <$> l))
         = p ++ list_ascii_of_string (f x) ++ q.
Proof.
  induction l as [|a l IH]; intros Hin; [by apply elem_of_nil in Hin|].
  rewrite fmap_cons.
  assert (list_ascii_of_string (String.concat sep (f a :: (f <$> l)))
          = list_ascii_of_string (f a)
            ++ match l with
               | [] => []
               | _ => list_ascii_of_string sep
                      ++ list_ascii_of_string (String.concat sep (f <$> l))
               end) as ->.
  { destruct l; simpl; [by rewrite app_nil_r|].
    by rewrite !list_ascii_of_string_app. }
  apply elem_of_cons in Hin as [->|Hin].
  - by exists [], (match l with
                   | [] => []
                   | _ => list_ascii_of_string sep
                          ++ list_ascii_of_string (String.concat sep (f <$> l))
                   end).
  - destruct (IH Hin) as (p & q & E).
    destruct l; [by apply elem_of_nil in Hin|]. rewrite E.
    exists (list_ascii_of_string (f a) ++ list_ascii_of_string sep ++ p), q.
    by rewrite <-!app_assoc.
Qed.

(** The text of a list of capabilities is somewhere in the text of the
    message that holds it. *)
Lemma repr_uinputs_elem_of (d : Dict Name Capabilities) name caps k l :
  (name, caps) ∈ d → (k, l) ∈ caps →
  ∃ pre post,
    list_ascii_of_string
      ("UInputsData(uinputs=" +:+ repr_uinputs d +:+ ")")%string
    = pre ++ "["%char
          :: list_ascii_of_string (String.concat ", " (repr_int <$> l))
          ++ "]"%char :: post.
Proof.
  intros Hd Hcaps.
  destruct (concat_elem_of
              (λ kv : string * Capabilities,
                 repr_str kv.1 +:+ ": " +:+ repr_capabilities kv.2)%string
              ", " _ _ Hd) as (p1 & q1 & E1).
  destruct (concat_elem_of
              (λ kv : Z * list Z,
                 repr_int kv.1 +:+ ": " +:+ repr_list kv.2)%string
              ", " _ _ Hcaps) as (p2 & q2 & E2).
  unfold repr_uinputs. rewrite !list_ascii_of_string_app, E1.
  cbn [fst snd]. unfold repr_capabilities.
  rewrite !list_ascii_of_string_app, E2.
  cbn [fst snd]. unfold repr_list. rewrite !list_ascii_of_string_app.
  eexists (list_ascii_of_string "UInputsData(uinputs={" ++ p1
           ++ list_ascii_of_string (repr_str name)
           ++ list_ascii_of_string ": {" ++ p2
           ++ list_ascii_of_string (repr_int k) ++ list_ascii_of_string ": "),
          (q2 ++ list_ascii_of_string "}" ++ q1 ++ list_ascii_of_string "})").
  by repeat first [rewrite <-app_assoc
                  |progress cbn [app list_ascii_of_string]].
Qed.

(** Numbers that are not negative, between two characters that are
    neither digits, commas nor spaces: [shorten] keeps the first and the
    last, with an ellipsis between them when there are three or more;
    what comes before and after is shortened on its own. *)
Lemma shorten_numbers pre b (first : Z) mids (last : Z) e post :
  is_blocker b = true → is_blocker e = true →
  (0 ≤ first)%Z → Forall (λ z, 0 ≤ z)%Z mids → (0 ≤ last)%Z →
  shorten (pre ++ b
             :: list_ascii_of_string
                  (String.concat ", " (repr_int <$> first :: mids ++ [last]))
             ++ e :: post)
  = shorten (pre ++ [b])
    ++ list_ascii_of_string (repr_int first)
    ++ (if decide (mids = []) then list_ascii_of_string ", "
        else list_ascii_of_string ", ... ")
    ++ list_ascii_of_string (repr_int last)
    ++ e :: shorten post.
Proof.
  intros Hb He Hf Hm Hl. rewrite !shorten_compress.
  rewrite compress_app_blocker by done. f_equal.
  change (first :: mids ++ [last]) with ((first :: mids) ++ [last]).
  rewrite concat_numbers, fmap_cons, <-app_assoc.
  rewrite compress_numbers; try done; try by apply repr_int_number.
  - destruct mids; simpl; by rewrite <-?app_assoc.
  - apply Forall_fmap. eapply Forall_impl; [done|].
    intros z Hz. by apply repr_int_number.
Qed.
End Repr.

Section CatalogLemmas.
Context {DeviceType EventCombination : Type}.
Context `{!EqDecision DeviceType, !EqDecision EventCombination}.
Implicit Types (a b obj : Message DeviceType EventCombination).

Lemma eqb_of_true {A} `{EqDecision A} (x y : A) : eqb_of x y = true ↔ x = y.
Proof. unfold eqb_of. apply bool_decide_eq_true. Qed.

Lemma dict_eqb_eqb_of_spec {K V} `{EqDecision K, EqDecision V}
    (d1 d2 : Dict K V) :
  dict_wf d1 → dict_wf d2 →
  dict_eqb eqb_of d1 d2 = true ↔ dict_same eq d1 d2.
Proof.
  intros Hnd1 Hnd2.
  apply (dict_eqb_spec eqb_of eq (λ _, True)); try done.
  - intros; apply eqb_of_true.
  - by apply Forall_true.
  - by apply Forall_true.
Qed.

(** C8, as the code has it. Every dataclass message refuses the
    assignment of any attribute with [FrozenInstanceError], so its
    type and its fields stay as constructed; a [Signal] is not frozen:
    assigning its [message_type] succeeds and changes it; and two
    dataclass messages are equal exactly when they are of the same class
    with the same field values. *)
Theorem dataclasses_are_frozen_and_compared_by_fields :
  (∀ obj attr value,
     is_dataclass obj = true →
     Message_setattr obj attr value = FrozenInstanceError)
  ∧ (∀ s value,
       Message_setattr (MSignal s : Message DeviceType EventCombination)
         "message_type"%string value
       = Assigned (MSignal {| message_type := value |}))
  ∧ (∀ a b,
       is_dataclass a = true → is_dataclass b = true →
       Message_wf a → Message_wf b →
       dataclass_eq a b = true ↔ same_fields a b).
Proof.
  split_and!.
  - by intros [] attr value.
  - done.
  - intros a b Ha Hb Hwa Hwb.
    destruct a as [x|x|x|x|x|x|x|x|x|x], b as [y|y|y|y|y|y|y|y|y|y];
      try done; simpl in *.
    + destruct Hwa as [Hwa1 Hwa2], Hwb as [Hwb1 Hwb2].
      unfold UInputsData_eq.
      apply (dict_eqb_spec _ _ dict_wf); try done.
      intros; by apply dict_eqb_eqb_of_spec.
    + unfold GroupsData_eq. by apply dict_eqb_eqb_of_spec.
    + rewrite !andb_true_iff, !eqb_of_true. destruct x, y; simpl.
      split; [intros [-> ->]; done|intros [= -> ->]; done].
    + rewrite !andb_true_iff, !eqb_of_true. destruct x, y; simpl.
      split; [intros [[-> ->] ->]; done|intros [= -> -> ->]; done].
    + rewrite !andb_true_iff, !eqb_of_true. destruct x, y; simpl.
      split; [intros [[-> ->] ->]; done|intros [= -> -> ->]; done].
    + rewrite !eqb_of_true. destruct x, y; simpl.
      split; [intros ->; done|intros [= ->]; done].
    + rewrite !andb_true_iff, !eqb_of_true. destruct x, y; simpl.
      split; [intros [-> ->]; done|intros [= -> ->]; done].
    + rewrite !andb_true_iff, !eqb_of_true. destruct x, y; simpl.
      split; [intros [-> ->]; done|intros [= -> ->]; done].
    + rewrite !eqb_of_true. destruct x, y; simpl.
      split; [intros ->; done|intros [= ->]; done].
Qed.
End CatalogLemmas.

(** * Properties of the broker *)

Section RecordLemmas.
Context {DeviceType EventCombination : Type}.
Abbreviation Msg := (Message DeviceType EventCombination).
Implicit Types (tr evs : list (Event DeviceType EventCombination)).
Implicit Types (self : MessageBroker DeviceType EventCombination).

Lemma enqueued_app tr1 tr2 :
  enqueued (tr1 ++ tr2) = enqueued tr1 ++ enqueued tr2.
Proof. apply omap_app. Qed.

Lemma dispatched_app tr1 tr2 :
  dispatched (tr1 ++ tr2) = dispatched tr1 ++ dispatched tr2.
Proof. apply omap_app. Qed.

Lemma calls_app tr1 tr2 : calls (tr1 ++ tr2) = calls tr1 ++ calls tr2.
Proof. apply omap_app. Qed.

Lemma flags_app tr1 tr2 : flags (tr1 ++ tr2) = flags tr1 ++ flags tr2.
Proof. apply omap_app. Qed.

Lemma current_app cur tr1 tr2 :
  current cur (tr1 ++ tr2) = current (current cur tr1) tr2.
Proof.
  revert cur. induction tr1 as [|ev tr1 IH]; intros cur; [done|].
  destruct ev; simpl; apply IH.
Qed.

Lemma calls_follow_app cur tr1 tr2 :
  calls_follow cur (tr1 ++ tr2)
  ↔ calls_follow cur tr1 ∧ calls_follow (current cur tr1) tr2.
Proof.
  revert cur. induction tr1 as [|ev tr1 IH]; intros cur; [naive_solver|].
  destruct ev; simpl; rewrite ?IH; naive_solver.
Qed.

Lemma toggles_app s fl1 fl2 :
  toggles s (fl1 ++ fl2) = toggles s fl1 ≫= λ s', toggles s' fl2.
Proof.
  revert s. induction fl1 as [|v fl1 IH]; intros s; [done|].
  simpl. destruct (eqb v (negb s)); [apply IH|done].
Qed.

(** Events that begin no dispatch leave the message in dispatch as it
    is. *)
Lemma current_no_dispatch cur evs : dispatched evs = [] → current cur evs = cur.
Proof.
  induction evs as [|ev evs IH]; [done|].
  destruct ev; simpl; try done; apply IH.
Qed.

(** A run of events without a dispatch, whose invocations all pass
    [data], follows the dispatch of [data]. *)
Lemma calls_follow_block data evs :
  dispatched evs = [] → Forall (λ c, c.2 = data) (calls evs) →
  calls_follow (Some data) evs.
Proof.
  induction evs as [|ev evs IH]; [done|].
  destruct ev; simpl; try done; try (intros; by apply IH).
  intros Hd Hc. apply Forall_cons in Hc as [Hc1 Hc2]. simpl in Hc1.
  split; [by subst|by apply IH].
Qed.

(** The message in dispatch is the message of the last entry whose
    dispatch began. *)
Lemma current_last tr :
  current None tr = (λ e : QueueEntry DeviceType EventCombination, e.1.1)
                    <$> last (dispatched tr).
Proof.
  induction tr as [|ev tr IH] using rev_ind; [done|].
  rewrite current_app, dispatched_app. destruct ev; simpl;
    rewrite ?app_nil_r; try done.
  by rewrite last_snoc.
Qed.
End RecordLemmas.

Section Registry.
Context {DeviceType EventCombination : Type}.
Implicit Types (self : MessageBroker DeviceType EventCombination).

Lemma registered_observe key ev self :
  registered key (observe ev self) = registered key self.
Proof. done. Qed.

Lemma listeners_getitem_fst key self :
  (listeners_getitem key self).1 = registered key self.
Proof.
  unfold listeners_getitem, registered.
  by destruct (_listeners self !! key).
Qed.

Lemma listeners_getitem_snd key self :
  let self' := (listeners_getitem key self).2 in
  (∀ key', registered key' self' = registered key' self)
  ∧ _listeners self' !! key = Some (registered key self)
  ∧ _messages self' = _messages self
  ∧ _sending self' = _sending self
  ∧ observed self' = observed self.
Proof.
  unfold listeners_getitem, registered.
  destruct (_listeners self !! key) as [s|] eqn:E; simpl; [by rewrite E|].
  split_and!; try done; [|by rewrite lookup_insert_eq].
  intros key'. destruct (decide (key = key')) as [->|Hne].
  - by rewrite lookup_insert_eq, E.
  - by rewrite lookup_insert_ne.
Qed.

Lemma registered_subscribe key kind listener self :
  registered key (subscribe kind listener self)
  = if decide (key = kind) then registered kind self ∪ {[listener]}
    else registered key self.
Proof.
  unfold subscribe.
  pose proof (listeners_getitem_fst kind (observe (EvDebugSubscribe listener) self)) as H1.
  pose proof (listeners_getitem_snd kind (observe (EvDebugSubscribe listener) self)) as H2.
  destruct (listeners_getitem kind _) as [ls self1]. simpl in *.
  destruct H2 as (Hreg & _). unfold registered at 1. simpl.
  case_decide as Hk.
  - subst key. by rewrite lookup_insert_eq, H1.
  - rewrite lookup_insert_ne by done. apply Hreg.
Qed.

Lemma subscribe_fields kind listener self :
  _messages (subscribe kind listener self) = _messages self
  ∧ _sending (subscribe kind listener self) = _sending self
  ∧ observed (subscribe kind listener self)
    = observed self ++ [EvDebugSubscribe listener].
Proof.
  unfold subscribe.
  pose proof (listeners_getitem_snd kind (observe (EvDebugSubscribe listener) self)) as H2.
  destruct (listeners_getitem kind _) as [ls self1]. simpl in *.
  by destruct H2 as (_ & _ & -> & -> & ->).
Qed.

(** What [unsubscribe] leaves behind. *)
Definition without (listener : MessageListener) self :=
  set_listeners
    ((λ listeners, match set_remove listener listeners with
                   | inr removed => removed
                   | inl _ => listeners
                   end) <$> _listeners self) self.

Lemma unsubscribe_returns listener self :
  unsubscribe listener self = Returned (without listener self).
Proof. done. Qed.

Lemma registered_without key listener self :
  registered key (without listener self) = registered key self ∖ {[listener]}.
Proof.
  unfold registered, without. simpl. rewrite lookup_fmap.
  destruct (_listeners self !! key) as [s|]; simpl; [|set_solver].
  unfold set_remove. case_decide; [done|set_solver].
Qed.

Lemma unregistered_without listener self : unregistered listener (without listener self).
Proof. intros key. rewrite registered_without. set_solver. Qed.

Lemma unregistered_without_other l listener self :
  unregistered l self → unregistered l (without listener self).
Proof. intros H key. rewrite registered_without. specialize (H key). set_solver. Qed.

Lemma unregistered_subscribe l kind listener self :
  listener ≠ l → unregistered l self → unregistered l (subscribe kind listener self).
Proof.
  intros Hne H key. rewrite registered_subscribe.
  case_decide; [subst; specialize (H kind); set_solver|apply H].
Qed.
Lemma subscribe_listeners kind listener self :
  _listeners (subscribe kind listener self)
  = <[kind := registered kind self ∪ {[listener]}]> (_listeners self).
Proof.
  unfold subscribe, listeners_getitem, registered. simpl.
  destruct (_listeners self !! kind) as [s|] eqn:E; simpl; [done|].
  by rewrite insert_insert_eq.
Qed.

Lemma without_unregistered listener self :
  unregistered listener self →
  _listeners (without listener self) = _listeners self.
Proof.
  intros Hun. apply map_eq. intros key. simpl. rewrite lookup_fmap.
  specialize (Hun key). unfold registered in Hun.
  destruct (_listeners self !! key) as [s|]; simpl in *; [|done].
  unfold set_remove. by case_decide.
Qed.

Lemma filter_eq_not_elem_of (x : MessageListener) (l : list MessageListener) :
  x ∉ l → filter (λ y, y = x) l = [].
Proof.
  induction l as [|y l IH]; [done|]. intros [Hne Hl]%not_elem_of_cons.
  rewrite filter_cons_False by (intros ->; done). by apply IH.
Qed.

(** An element of a list without repetition is met once. *)
Lemma filter_eq_NoDup (x : MessageListener) (l : list MessageListener) :
  NoDup l → x ∈ l → length (filter (λ y, y = x) l) = 1.
Proof.
  induction 1 as [|y l Hy Hnd IH]; [by intros ?%elem_of_nil|].
  rewrite filter_cons. intros [->|Hin]%elem_of_cons.
  - rewrite decide_True by done. simpl.
    by rewrite filter_eq_not_elem_of.
  - rewrite decide_False by (intros ->; done). by apply IH.
Qed.
End Registry.

(** ** Inside a drain

    While [_sending] is set, [_send_all] returns at once: a listener's
    [send] only appends. *)
Section Drain.
Context {DeviceType EventCombination : Type}.
Implicit Types (self : MessageBroker DeviceType EventCombination).
Implicit Types (evs : list (Event DeviceType EventCombination)).
Variable body :
  MessageListener → Message DeviceType EventCombination →
  Code DeviceType EventCombination.
Variable iter : gset MessageListener → list MessageListener.
Variable send_all :
  MessageBroker DeviceType EventCombination →
  Outcome DeviceType EventCombination.
Hypothesis send_all_sending :
  ∀ self, _sending self = true → send_all self = Returned self.
Hypothesis iter_elements : ∀ listeners, iter listeners ≡ₚ elements listeners.

Lemma extends_refl self : extends self self [].
Proof. unfold extends. by rewrite !app_nil_r. Qed.

Lemma extends_trans self1 self2 self3 evs1 evs2 :
  extends self1 self2 evs1 → extends self2 self3 evs2 →
  extends self1 self3 (evs1 ++ evs2).
Proof.
  intros (Ho1 & Hm1 & Hs1 & Hd1 & Hf1) (Ho2 & Hm2 & Hs2 & Hd2 & Hf2).
  unfold extends.
  rewrite Ho2, Ho1, Hm2, Hm1, Hs2, Hs1, enqueued_app, dispatched_app,
    flags_app, Hd1, Hd2, Hf1, Hf2, !app_assoc. done.
Qed.

Lemma send_body_sending data file line self :
  _sending self = true →
  send_body send_all data file line self
  = Returned (observe (EvAppend (data, file, line))
               (set_messages (_messages self ++ [(data, file, line)]) self)).
Proof. intros Hs. unfold send_body. by rewrite send_all_sending. Qed.

Lemma extends_append entry self :
  extends self (observe (EvAppend entry)
                  (set_messages (_messages self ++ [entry]) self))
    [EvAppend entry].
Proof. done. Qed.

Lemma extends_subscribe kind listener self :
  extends self (subscribe kind listener self) [EvDebugSubscribe listener].
Proof.
  destruct (subscribe_fields kind listener self) as (Hm & Hs & Ho).
  unfold extends. rewrite Hm, Hs, Ho. simpl. by rewrite app_nil_r.
Qed.

Lemma extends_without listener self : extends self (without listener self) [].
Proof. unfold extends. simpl. by rewrite !app_nil_r. Qed.

(** A listener's code, run inside a drain, ends; it begins no dispatch
    and calls no listener. *)
Lemma run_sending code self :
  _sending self = true →
  ∃ self' evs,
    final (run send_all code self) = Some self'
    ∧ extends self self' evs
    ∧ calls evs = []
    ∧ (never_raises code → run send_all code self = Returned self')
    ∧ (∀ exc s, run send_all code self = Raised exc s → raises_with exc code)
    ∧ (∀ l, never_subscribes l code → unregistered l self →
            unregistered l self').
Proof.
  revert self.
  induction code as [|exc|data file line rest IH|kind rest IH
                    |kind listener rest IH|listener rest IH|rest IH];
    intros self Hs; simpl.
  - exists self, []. split_and!; auto using extends_refl. inversion 1.
  - exists self, []. split_and!; auto using extends_refl.
    + inversion 1.
    + intros exc' s [= <- _]. constructor.
  - rewrite send_body_sending by done. simpl.
    destruct (IH (observe (EvAppend (data, file, line))
                    (set_messages (_messages self ++ [(data, file, line)]) self)))
      as (self' & evs & Hf & He & Hc & Hr & Hx & Hu); [done|].
    exists self', ([EvAppend (data, file, line)] ++ evs). split_and!; try done.
    + eapply extends_trans; [apply extends_append|done].
    + inversion 1; auto.
    + intros exc s Hrun. constructor. by eapply Hx.
    + intros l Hl. inversion Hl; subst. intros. by apply Hu.
  - unfold signal_body. rewrite send_body_sending by done. simpl.
    set (entry := (MSignal {| message_type := kind |},
                   "message_broker.py"%string, 109%Z)).
    destruct (IH (observe (EvAppend entry)
                    (set_messages (_messages self ++ [entry]) self)))
      as (self' & evs & Hf & He & Hc & Hr & Hx & Hu); [done|].
    exists self', ([EvAppend entry] ++ evs). split_and!; try done.
    + eapply extends_trans; [apply extends_append|done].
    + inversion 1; auto.
    + intros exc s Hrun. constructor. by eapply Hx.
    + intros l Hl. inversion Hl; subst. intros. by apply Hu.
  - destruct (IH (subscribe kind listener self))
      as (self' & evs & Hf & He & Hc & Hr & Hx & Hu).
    { by rewrite (proj1 (proj2 (subscribe_fields kind listener self))). }
    exists self', ([EvDebugSubscribe listener] ++ evs). split_and!; try done.
    + eapply extends_trans; [apply extends_subscribe|done].
    + inversion 1; auto.
    + intros exc s Hrun. constructor. by eapply Hx.
    + intros l Hl. inversion Hl; subst. intros.
      by apply Hu, unregistered_subscribe.
  - fold (without listener self).
    destruct (IH (without listener self))
      as (self' & evs & Hf & He & Hc & Hr & Hx & Hu); [done|].
    exists self', evs. split_and!; try done.
    + inversion 1; auto.
    + intros exc s Hrun. constructor. by eapply Hx.
    + intros l Hl. inversion Hl; subst. intros.
      by apply Hu, unregistered_without_other.
  - destruct (IH self self) as (self' & evs & Hf & He & Hc & Hr & Hx & Hu); [done|].
    exists self', evs. split_and!; try done.
    + inversion 1; auto.
    + intros exc s Hrun. econstructor. by eapply Hx.
    + intros l Hl. inversion Hl; subst. intros. by apply Hu.
Qed.

Lemma extends_listener listener data self :
  extends self (observe (EvListener listener data) self)
    [EvListener listener data].
Proof. unfold extends. simpl. by rewrite app_nil_r. Qed.

(** The fan-out over the copy: the listeners are called in the order of
    the copy, each with [data], until one raises. *)
Lemma call_each_sending copy data self :
  _sending self = true →
  ∃ self' evs called,
    final (call_each body send_all copy data self) = Some self'
    ∧ extends self self' evs
    ∧ calls evs = (λ l, (l, data)) <$> called
    ∧ called `prefix_of` copy
    ∧ (∀ s, call_each body send_all copy data self = Returned s → called = copy)
    ∧ (∀ exc s, call_each body send_all copy data self = Raised exc s →
         ∃ l, last called = Some l ∧ raises_with exc (body l data))
    ∧ (Forall (λ l, never_raises (body l data)) copy →
         call_each body send_all copy data self = Returned self')
    ∧ (∀ l, (∀ l' m, never_subscribes l (body l' m)) →
            unregistered l self → unregistered l self').
Proof.
  revert self. induction copy as [|listener copy IH]; intros self Hs; simpl.
  { exists self, [], []. split_and!; auto using extends_refl; try done. }
  destruct (run_sending (body listener data)
              (observe (EvListener listener data) self))
    as (self1 & evs1 & Hf1 & He1 & Hc1 & Hr1 & Hx1 & Hu1); [done|].
  destruct (run send_all (body listener data)
              (observe (EvListener listener data) self))
    as [s|exc s|] eqn:Erun; simpl in Hf1; [| |done].
  - injection Hf1 as ->. simpl.
    assert (_sending self1 = true) as Hs1.
    { destruct He1 as (_ & _ & -> & _). done. }
    destruct (IH self1 Hs1)
      as (self' & evs & called & Hf & He & Hc & Hp & Hret & Hx & Hr & Hu).
    exists self', ([EvListener listener data] ++ evs1 ++ evs), (listener :: called).
    split_and!; try done.
    + eapply extends_trans; [apply extends_listener|].
      eapply extends_trans; done.
    + rewrite !calls_app, Hc1, Hc. done.
    + by apply prefix_cons.
    + intros s Hrun. f_equal. by eapply Hret.
    + intros exc s Hrun. destruct (Hx _ _ Hrun) as (l & Hl & Hw).
      exists l. split; [|done]. destruct called; [done|]. done.
    + intros Hall. apply Forall_cons in Hall as [_ Hall]. by apply Hr.
    + intros l Hl Hun. apply Hu; [done|]. by apply Hu1.
  - injection Hf1 as ->. simpl.
    exists self1, ([EvListener listener data] ++ evs1), [listener].
    split_and!; try done.
    + eapply extends_trans; [apply extends_listener|done].
    + rewrite !calls_app, Hc1. done.
    + apply prefix_cons, prefix_nil.
    + intros exc' s' [= <- <-]. exists listener. split; [done|].
      by eapply Hx1.
    + intros Hall. apply Forall_cons in Hall as [Hnr _].
      specialize (Hr1 Hnr). congruence.
    + intros l Hl Hun. by apply Hu1.
Qed.

(** The dispatch of one entry inside a drain. *)
Lemma _send_body_sending entry self :
  _sending self = true →
  let data := entry.1.1 in
  let copy := iter (registered (Message_message_type data) self) in
  ∃ self' evs called,
    final (_send_body body iter send_all entry self) = Some self'
    ∧ extends (observe (EvDebugSend entry) self) self' evs
    ∧ calls evs = (λ l, (l, data)) <$> called
    ∧ called `prefix_of` copy
    ∧ (∀ s, _send_body body iter send_all entry self = Returned s →
         called = copy)
    ∧ (∀ exc s, _send_body body iter send_all entry self = Raised exc s →
         ∃ l, last called = Some l ∧ raises_with exc (body l data))
    ∧ (Forall (λ l, never_raises (body l data)) copy →
         _send_body body iter send_all entry self = Returned self')
    ∧ (∀ l, (∀ l' m, never_subscribes l (body l' m)) →
            unregistered l self → unregistered l self').
Proof.
  intros Hs data copy. unfold _send_body.
  pose proof (listeners_getitem_fst (Message_message_type data)
                (observe (EvDebugSend entry) self)) as H1.
  pose proof (listeners_getitem_snd (Message_message_type data)
                (observe (EvDebugSend entry) self)) as H2.
  fold data.
  destruct (listeners_getitem (Message_message_type data) _) as [ls self1].
  simpl in H1, H2. destruct H2 as (Hreg & _ & Hm & Hsd & Ho).
  rewrite registered_observe in H1. subst ls. fold copy.
  destruct (call_each_sending copy data self1)
    as (self' & evs & called & Hf & He & Hc & Hp & Hret & Hx & Hr & Hu).
  { by rewrite Hsd. }
  exists self', evs, called. split_and!; try done.
  - destruct He as (Ho' & Hm' & Hs' & Hd' & Hf').
    unfold extends. by rewrite Ho', Hm', Hs', Ho, Hm, Hsd.
  - intros l Hl Hun. apply Hu; [done|]. intros key. rewrite Hreg.
    apply Hun.
Qed.

Lemma callers_fmap (data : Message DeviceType EventCombination)
    (called : list MessageListener) :
  ((λ l, (l, data)) <$> called).*1 = called.
Proof.
  induction called as [|l called IH]; [done|]. cbn. f_equal. exact IH.
Qed.

(** A listener that is registered nowhere is in no copy. *)
Lemma unregistered_not_called l key self called :
  unregistered l self → called `prefix_of` iter (registered key self) →
  l ∉ called.
Proof.
  intros Hun Hp Hin. apply (Hun key).
  apply elem_of_elements. rewrite <-iter_elements.
  by eapply elem_of_prefix.
Qed.

(** The loop of [_send_all], from a state with the flag set. *)
Lemma while_messages_sending fuel self self' :
  _sending self = true →
  final (while_messages body iter send_all fuel self) = Some self' →
  ∃ evs,
    observed self' = observed self ++ evs
    ∧ _sending self' = true
    ∧ flags evs = []
    ∧ dispatched evs ++ _messages self' = _messages self ++ enqueued evs
    ∧ (∀ cur, calls_follow cur evs)
    ∧ (∀ s, while_messages body iter send_all fuel self = Returned s →
         _messages self' = [])
    ∧ (∀ exc s, while_messages body iter send_all fuel self = Raised exc s →
         ∃ l m, last (calls evs) = Some (l, m) ∧ raises_with exc (body l m))
    ∧ ((∀ l m, never_raises (body l m)) →
         while_messages body iter send_all fuel self = Returned self')
    ∧ (∀ l, (∀ l' m, never_subscribes l (body l' m)) →
            unregistered l self →
            unregistered l self' ∧ l ∉ (calls evs).*1).
Proof.
  revert self. induction fuel as [|fuel IH]; intros self Hs Hfin.
  - simpl in *. destruct (_messages self) as [|entry queue] eqn:Eq; [|done].
    injection Hfin as <-. exists []. rewrite !app_nil_r, Eq.
    split_and!; try done. intros l _ Hun. split; [done|]. simpl. set_solver.
  - simpl in *. destruct (_messages self) as [|entry queue] eqn:Eq.
    { injection Hfin as <-. exists []. rewrite !app_nil_r, Eq.
      split_and!; try done. intros l _ Hun. split; [done|]. simpl.
      set_solver. }
    destruct (_send_body_sending entry (set_messages queue self) Hs)
      as (self1 & evs1 & called & Hf1 & He1 & Hc1 & Hp1 & Hret1 & Hx1 & Hr1 & Hu1).
    destruct He1 as (Ho1 & Hm1 & Hs1 & Hd1 & Hfl1). simpl in *.
    assert (calls_follow (Some entry.1.1) evs1) as Hcf1.
    { apply calls_follow_block; [done|]. rewrite Hc1.
      apply Forall_fmap, Forall_true. done. }
    assert (∀ l, unregistered l self → l ∉ (calls evs1).*1) as Hnc1.
    { intros l Hun. rewrite Hc1, callers_fmap.
      eapply unregistered_not_called; [|exact Hp1]. exact Hun. }
    destruct (_send_body body iter send_all entry (set_messages queue self))
      as [s|exc s|] eqn:Esend; simpl in Hf1; [| |done].
    + injection Hf1 as ->. simpl in Hfin.
      destruct (IH self1) as (evs2 & Ho2 & Hs2 & Hfl2 & Hcons & Hcf2 & Hret2
                              & Hx2 & Hr2 & Hu2); [by rewrite Hs1|done|].
      exists ([EvDebugSend entry] ++ evs1 ++ evs2).
      split_and!.
      * rewrite Ho2, Ho1. by rewrite <-!app_assoc.
      * done.
      * rewrite !flags_app, Hfl1, Hfl2. done.
      * rewrite !dispatched_app, !enqueued_app, Hd1. simpl.
        rewrite Hcons, Hm1. simpl. by rewrite <-!app_assoc.
      * intros cur. simpl. apply calls_follow_app. split; [done|].
        apply Hcf2.
      * done.
      * intros exc s Hrun. destruct (Hx2 _ _ Hrun) as (l & m & Hl & Hw).
        exists l, m. split; [|done].
        rewrite !calls_app, !last_app, Hl. done.
      * intros Hall. simpl. apply Hr2. done.
      * intros l Hl Hun.
        assert (unregistered l self1) as Hun1 by (by apply Hu1).
        destruct (Hu2 l Hl Hun1) as [Hun2 Hnc2]. split; [done|].
        rewrite !calls_app, !fmap_app. simpl.
        rewrite not_elem_of_app. split; [by apply Hnc1|done].
    + injection Hf1 as ->. simpl in Hfin. injection Hfin as <-.
      exists ([EvDebugSend entry] ++ evs1).
      split_and!.
      * rewrite Ho1. by rewrite <-!app_assoc.
      * by rewrite Hs1.
      * rewrite !flags_app, Hfl1. done.
      * rewrite !dispatched_app, !enqueued_app, Hd1, Hm1. done.
      * intros cur. simpl. done.
      * done.
      * intros exc' s' [= <- <-]. destruct (Hx1 _ _ eq_refl) as (l & Hl & Hw).
        exists l, entry.1.1. split; [|done].
        rewrite calls_app, Hc1. simpl. rewrite fmap_last, Hl. done.
      * intros Hall. exfalso.
        assert (Returned self1 = Raised exc self1) as Habs; [|done].
        rewrite <-Hr1; [done|]. apply Forall_forall. intros; apply Hall.
      * intros l Hl Hun. split; [by apply Hu1|].
        rewrite calls_app. simpl. by apply Hnc1.
Qed.
(** *** Listeners that do not send: the queue only shrinks *)

Lemma run_never_sends code self self' :
  never_sends code →
  final (run send_all code self) = Some self' →
  _messages self' = _messages self.
Proof.
  intros Hns. revert self.
  induction Hns as [|exc|kind listener rest _ IH|listener rest _ IH|rest _ IH];
    intros self Hfin; simpl in Hfin.
  - by injection Hfin as <-.
  - by injection Hfin as <-.
  - rewrite (IH _ Hfin). apply subscribe_fields.
  - by rewrite (IH _ Hfin).
  - by apply (IH self).
Qed.

Lemma call_each_never_sends copy data self self' :
  (∀ l, never_sends (body l data)) →
  final (call_each body send_all copy data self) = Some self' →
  _messages self' = _messages self.
Proof.
  intros Hns. revert self.
  induction copy as [|listener copy IH]; intros self Hfin; simpl in Hfin.
  { by injection Hfin as <-. }
  destruct (run send_all (body listener data)
              (observe (EvListener listener data) self))
    as [s|exc s|] eqn:Erun; simpl in Hfin; [| |done].
  - rewrite (IH _ Hfin).
    apply (run_never_sends (body listener data)
             (observe (EvListener listener data) self)); [done|].
    by rewrite Erun.
  - injection Hfin as <-.
    apply (run_never_sends (body listener data)
             (observe (EvListener listener data) self)); [done|].
    by rewrite Erun.
Qed.

Lemma _send_body_never_sends entry self self' :
  (∀ l, never_sends (body l entry.1.1)) →
  final (_send_body body iter send_all entry self) = Some self' →
  _messages self' = _messages self.
Proof.
  intros Hns. unfold _send_body.
  pose proof (listeners_getitem_snd (Message_message_type entry.1.1)
                (observe (EvDebugSend entry) self)) as H2.
  destruct (listeners_getitem (Message_message_type entry.1.1) _)
    as [ls self1].
  simpl in H2. destruct H2 as (_ & _ & Hm & _).
  intros Hfin. rewrite (call_each_never_sends _ _ _ _ Hns Hfin). done.
Qed.

(** When no listener raises or sends on the messages that are queued,
    the loop returns within as many rounds as there are entries. *)
Lemma while_messages_returns fuel self :
  Forall (λ entry : QueueEntry DeviceType EventCombination,
            ∀ l, never_raises (body l entry.1.1)
                 ∧ never_sends (body l entry.1.1)) (_messages self) →
  _sending self = true →
  length (_messages self) ≤ fuel →
  ∃ self', while_messages body iter send_all fuel self = Returned self'.
Proof.
  revert self.
  induction fuel as [|fuel IH]; intros self Hq Hs Hlen; simpl.
  - destruct (_messages self); [by eexists|simpl in Hlen; lia].
  - destruct (_messages self) as [|entry queue] eqn:Eq; [by eexists|].
    simpl in Hlen. apply Forall_cons in Hq as [Hentry Hq].
    destruct (_send_body_sending entry (set_messages queue self) Hs)
      as (self1 & evs1 & called & Hf1 & He1 & _ & _ & _ & _ & Hr & _).
    assert (_send_body body iter send_all entry (set_messages queue self)
            = Returned self1) as Hret.
    { apply Hr, Forall_forall. intros l _. apply Hentry. }
    rewrite Hret. simpl.
    assert (_messages self1 = queue) as Hm.
    { apply (_send_body_never_sends entry (set_messages queue self) self1);
        [intros l; apply Hentry|by rewrite Hret]. }
    apply IH.
    + by rewrite Hm.
    + destruct He1 as (_ & _ & -> & _). done.
    + rewrite Hm. lia.
Qed.
End Drain.

(** ** What the record of a consistent broker says about order *)

Section Order.
Context {DeviceType EventCombination : Type}.
Implicit Types (tr : list (Event DeviceType EventCombination)).

Lemma serves_enqueued tr msgs p l m :
  enqueued tr = dispatched tr ++ msgs → calls_follow None tr →
  tr !! p = Some (EvListener l m) →
  ∃ i file line,
    serves tr p = Some i ∧ enqueued tr !! i = Some (m, file, line).
Proof.
  intros Hq Hcf Hp.
  pose proof (take_drop_middle tr p _ Hp) as Hsplit.
  rewrite <-Hsplit in Hcf. apply calls_follow_app in Hcf as [_ Hcf].
  simpl in Hcf. destruct Hcf as [Hcur _]. rewrite current_last in Hcur.
  destruct (last (dispatched (take p tr))) as [[[m' file] line]|] eqn:El;
    [|done].
  simpl in Hcur. injection Hcur as ->.
  rewrite last_lookup in El.
  destruct (length (dispatched (take p tr))) as [|i] eqn:Elen.
  { destruct (dispatched (take p tr)); done. }
  simpl in El. exists i, file, line. split.
  - unfold serves. by rewrite Hp, Elen.
  - rewrite Hq, <-Hsplit, dispatched_app, <-app_assoc.
    by apply lookup_app_l_Some.
Qed.

Lemma dispatched_take_mono tr (p1 p2 : nat) :
  p1 ≤ p2 →
  length (dispatched (take p1 tr)) ≤ length (dispatched (take p2 tr)).
Proof.
  intros Hle. rewrite <-(take_drop p1 (take p2 tr)), dispatched_app,
    length_app, take_take. replace (p1 `min` p2) with p1 by lia. lia.
Qed.

Lemma serves_mono tr (p1 p2 i j : nat) :
  serves tr p1 = Some i → serves tr p2 = Some j → i < j → p1 < p2.
Proof.
  unfold serves. intros H1 H2 Hij.
  destruct (tr !! p1) as [[]|]; try done.
  destruct (tr !! p2) as [[]|]; try done.
  destruct (length (dispatched (take p1 tr))) as [|i'] eqn:E1; [done|].
  destruct (length (dispatched (take p2 tr))) as [|j'] eqn:E2; [done|].
  injection H1 as ->. injection H2 as ->.
  destruct (decide (p1 < p2)) as [|Hge]; [done|].
  pose proof (dispatched_take_mono tr p2 p1 ltac:(lia)). lia.
Qed.
End Order.

(** ** What the listeners of a dispatch do to the registry *)

Section Changes.
Context {DeviceType EventCombination : Type}.
Implicit Types (self : MessageBroker DeviceType EventCombination).
Implicit Types (evs : list (Event DeviceType EventCombination)).
Variable body :
  MessageListener → Message DeviceType EventCombination →
  Code DeviceType EventCombination.
Variable iter : gset MessageListener → list MessageListener.
Variable send_all :
  MessageBroker DeviceType EventCombination →
  Outcome DeviceType EventCombination.
Hypothesis send_all_sending :
  ∀ self, _sending self = true → send_all self = Returned self.

(** What the code of a listener, run inside a drain, does to the
    registry. *)
Lemma run_registry code self self' :
  _sending self = true →
  final (run send_all code self) = Some self' →
  _sending self' = true
  ∧ (∀ l key, keeps_subscribed l code →
       l ∈ registered key self → l ∈ registered key self')
  ∧ (∀ l key, never_subscribes l code →
       l ∉ registered key self → l ∉ registered key self')
  ∧ (∀ l key, subscribes key l code → keeps_subscribed l code →
       l ∈ registered key self')
  ∧ (∀ l, unsubscribes l code → never_subscribes l code →
       unregistered l self').
Proof.
  revert self.
  induction code as [|exc|data file line rest IH|kind rest IH
                    |kind listener rest IH|listener rest IH|rest IH];
    intros self Hs; simpl.
  - intros [= <-]. split_and!; try done; by inversion 1.
  - intros [= <-]. split_and!; try done; by inversion 1.
  - rewrite (send_body_sending send_all send_all_sending) by done. simpl.
    intros Hf. apply IH in Hf as (Hs' & Hk & Hn & Hsub & Hun); [|done].
    split_and!; [done|..].
    + intros l key Hl. inversion Hl; subst. by apply Hk.
    + intros l key Hl. inversion Hl; subst. by apply Hn.
    + intros l key Hl Hl'. inversion Hl; inversion Hl'; subst. by apply Hsub.
    + intros l Hl Hl'. inversion Hl; inversion Hl'; subst. by apply Hun.
  - unfold signal_body.
    rewrite (send_body_sending send_all send_all_sending) by done. simpl.
    intros Hf. apply IH in Hf as (Hs' & Hk & Hn & Hsub & Hun); [|done].
    split_and!; [done|..].
    + intros l key Hl. inversion Hl; subst. by apply Hk.
    + intros l key Hl. inversion Hl; subst. by apply Hn.
    + intros l key Hl Hl'. inversion Hl; inversion Hl'; subst. by apply Hsub.
    + intros l Hl Hl'. inversion Hl; inversion Hl'; subst. by apply Hun.
  - intros Hf. apply IH in Hf as (Hs' & Hk & Hn & Hsub & Hun);
      [|by destruct (subscribe_fields kind listener self) as (_ & -> & _)].
    split_and!; [done|..].
    + intros l key Hl Hin. inversion Hl; subst. apply Hk; [done|].
      rewrite registered_subscribe. case_decide; [subst|done]. set_solver.
    + intros l key Hl Hin. inversion Hl; subst. apply Hn; [done|].
      rewrite registered_subscribe. case_decide; [subst|done]. set_solver.
    + intros l key Hl Hl'. inversion Hl'; subst.
      inversion Hl; subst; [|by apply Hsub].
      apply Hk; [done|]. rewrite registered_subscribe, decide_True by done.
      set_solver.
    + intros l Hl Hl'. inversion Hl; inversion Hl'; subst. by apply Hun.
  - fold (without listener self).
    intros Hf. apply (IH (without listener self)) in Hf
      as (Hs' & Hk & Hn & Hsub & Hun); [|done].
    split_and!; [done|..].
    + intros l key Hl Hin. inversion Hl; subst. apply Hk; [done|].
      rewrite registered_without. set_solver.
    + intros l key Hl Hin. inversion Hl; subst. apply Hn; [done|].
      rewrite registered_without. set_solver.
    + intros l key Hl Hl'. inversion Hl; inversion Hl'; subst. by apply Hsub.
    + intros l Hl Hl'. inversion Hl'; subst.
      inversion Hl; subst; [|by apply Hun].
      intros key. apply Hn; [done|]. rewrite registered_without. set_solver.
  - intros Hf. apply IH in Hf as (Hs' & Hk & Hn & Hsub & Hun); [|done].
    split_and!; [done|..].
    + intros l key Hl. inversion Hl; subst. by apply Hk.
    + intros l key Hl. inversion Hl; subst. by apply Hn.
    + intros l key Hl Hl'. inversion Hl; inversion Hl'; subst. by apply Hsub.
    + intros l Hl Hl'. inversion Hl; inversion Hl'; subst. by apply Hun.
Qed.

(** What a fan-out that returns, inside a drain, has done to the
    registry. *)
Lemma call_each_registry copy data self self' :
  _sending self = true →
  call_each body send_all copy data self = Returned self' →
  (∀ l key, (∀ l0, l0 ∈ copy → keeps_subscribed l (body l0 data)) →
     l ∈ registered key self → l ∈ registered key self')
  ∧ (∀ l key, (∀ l0, l0 ∈ copy → never_subscribes l (body l0 data)) →
       l ∉ registered key self → l ∉ registered key self')
  ∧ (∀ l key, (∃ l0, l0 ∈ copy ∧ subscribes key l (body l0 data)) →
       (∀ l0, l0 ∈ copy → keeps_subscribed l (body l0 data)) →
       l ∈ registered key self')
  ∧ (∀ l, (∃ l0, l0 ∈ copy ∧ unsubscribes l (body l0 data)) →
       (∀ l0, l0 ∈ copy → never_subscribes l (body l0 data)) →
       unregistered l self').
Proof.
  revert self. induction copy as [|l1 copy IH]; intros self Hs; simpl.
  { intros [= <-]. split_and!; try done.
    - by intros l key (l0 & ?%elem_of_nil & _).
    - by intros l (l0 & ?%elem_of_nil & _). }
  destruct (run send_all (body l1 data) (observe (EvListener l1 data) self))
    as [s1| |] eqn:Erun; simpl; [|done|done].
  destruct (run_registry (body l1 data) (observe (EvListener l1 data) self) s1)
    as (Hs1 & Hk1 & Hn1 & Hsub1 & Hun1); [done|by rewrite Erun|].
  intros Hret. apply IH in Hret as (Hk & Hn & Hsub & Hun); [|done].
  split_and!.
  - intros l key Hall Hin. apply Hk; [intros; apply Hall; set_solver|].
    apply Hk1; [apply Hall; set_solver|done].
  - intros l key Hall Hin. apply Hn; [intros; apply Hall; set_solver|].
    apply Hn1; [apply Hall; set_solver|done].
  - intros l key (l0 & [->|Hin]%elem_of_cons & Hl0) Hall.
    + apply Hk; [intros; apply Hall; set_solver|].
      apply Hsub1; [done|apply Hall; set_solver].
    + apply Hsub; [by exists l0|intros; apply Hall; set_solver].
  - intros l (l0 & [->|Hin]%elem_of_cons & Hl0) Hall.
    + intros key. apply Hn; [intros; apply Hall; set_solver|].
      apply Hun1; [done|apply Hall; set_solver].
    + apply Hun; [by exists l0|intros; apply Hall; set_solver].
Qed.

(** What a dispatch that returns, inside a drain, has done to the
    registry. *)
Lemma _send_body_registry entry self self' :
  _sending self = true →
  let data := entry.1.1 in
  let copy := iter (registered (Message_message_type data) self) in
  _send_body body iter send_all entry self = Returned self' →
  (∀ l key, (∀ l0, l0 ∈ copy → keeps_subscribed l (body l0 data)) →
     l ∈ registered key self → l ∈ registered key self')
  ∧ (∀ l key, (∀ l0, l0 ∈ copy → never_subscribes l (body l0 data)) →
       l ∉ registered key self → l ∉ registered key self')
  ∧ (∀ l key, (∃ l0, l0 ∈ copy ∧ subscribes key l (body l0 data)) →
       (∀ l0, l0 ∈ copy → keeps_subscribed l (body l0 data)) →
       l ∈ registered key self')
  ∧ (∀ l, (∃ l0, l0 ∈ copy ∧ unsubscribes l (body l0 data)) →
       (∀ l0, l0 ∈ copy → never_subscribes l (body l0 data)) →
       unregistered l self').
Proof.
  intros Hs data copy. unfold _send_body.
  pose proof (listeners_getitem_fst (Message_message_type data)
                (observe (EvDebugSend entry) self)) as H1.
  pose proof (listeners_getitem_snd (Message_message_type data)
                (observe (EvDebugSend entry) self)) as H2.
  fold data.
  destruct (listeners_getitem (Message_message_type data) _) as [ls self1].
  simpl in H1, H2. destruct H2 as (Hreg & _ & _ & Hsd & _).
  rewrite registered_observe in H1. subst ls. fold copy.
  intros Hret.
  apply call_each_registry in Hret as (Hk & Hn & Hsub & Hun);
    [|by rewrite Hsd].
  split_and!.
  - intros l key Hall Hin. apply Hk; [done|]. by rewrite Hreg.
  - intros l key Hall Hin. apply Hn; [done|]. by rewrite Hreg.
  - done.
  - done.
Qed.
End Changes.

(** ** The public methods *)

Section Methods.
Context {DeviceType EventCombination : Type}.
Implicit Types (self : MessageBroker DeviceType EventCombination).
Implicit Types (evs : list (Event DeviceType EventCombination)).
Implicit Types (data : Message DeviceType EventCombination).
Variable body :
  MessageListener → Message DeviceType EventCombination →
  Code DeviceType EventCombination.
Variable iter : gset MessageListener → list MessageListener.
Hypothesis iter_elements : ∀ listeners, iter listeners ≡ₚ elements listeners.

Lemma _send_all_sending fuel self :
  _sending self = true → _send_all body iter fuel self = Returned self.
Proof. intros Hs. destruct fuel; simpl; by rewrite Hs. Qed.

Lemma _send_all_unfold fuel self :
  _sending self = false →
  _send_all body iter (S fuel) self
  = finally_not_sending
      (while_messages body iter (_send_all body iter fuel) fuel
         (set_sending true self)).
Proof. intros Hs. simpl. by rewrite Hs. Qed.

Lemma while_messages_cons send_all fuel self entry queue :
  _messages self = entry :: queue →
  while_messages body iter send_all (S fuel) self
  = and_then (_send_body body iter send_all entry (set_messages queue self))
      (while_messages body iter send_all fuel).
Proof. intros Hq. simpl. by rewrite Hq. Qed.

(** A drain that starts: one assignment of the flag before, one after,
    none in between; what was queued or appended and not dispatched is
    still queued. *)
Lemma _send_all_idle fuel self self' :
  _sending self = false →
  final (_send_all body iter fuel self) = Some self' →
  ∃ evs,
    observed self' = observed self ++ [EvSending true] ++ evs ++ [EvSending false]
    ∧ _sending self' = false
    ∧ flags evs = []
    ∧ dispatched evs ++ _messages self' = _messages self ++ enqueued evs
    ∧ (∀ cur, calls_follow cur evs)
    ∧ (∀ s, _send_all body iter fuel self = Returned s → _messages self' = [])
    ∧ (∀ exc s, _send_all body iter fuel self = Raised exc s →
         ∃ l m, last (calls evs) = Some (l, m) ∧ raises_with exc (body l m))
    ∧ ((∀ l m, never_raises (body l m)) →
         _send_all body iter fuel self = Returned self')
    ∧ (∀ l, (∀ l' m, never_subscribes l (body l' m)) →
            unregistered l self →
            unregistered l self' ∧ l ∉ (calls evs).*1).
Proof.
  intros Hs Hfin. destruct fuel as [|fuel]; simpl in *; rewrite Hs in *;
    [done|].
  destruct (while_messages body iter (_send_all body iter fuel) fuel
              (set_sending true self)) as [s|exc s|] eqn:Ew;
    simpl in Hfin; [| |done]; injection Hfin as <-.
  - destruct (while_messages_sending body iter (_send_all body iter fuel)
                (_send_all_sending fuel) iter_elements fuel
                (set_sending true self) s)
      as (evs & Ho & Hs' & Hfl & Hcons & Hcf & Hret & Hx & Hr & Hu);
      [done|by rewrite Ew|].
    exists evs. simpl in *. split_and!; try done.
    + rewrite Ho. by rewrite <-!app_assoc.
    + intros s' _. by eapply Hret.
  - destruct (while_messages_sending body iter (_send_all body iter fuel)
                (_send_all_sending fuel) iter_elements fuel
                (set_sending true self) s)
      as (evs & Ho & Hs' & Hfl & Hcons & Hcf & Hret & Hx & Hr & Hu);
      [done|by rewrite Ew|].
    exists evs. simpl in *. split_and!; try done.
    + rewrite Ho. by rewrite <-!app_assoc.
    + intros exc' s' [= <- _]. by eapply Hx.
    + intros Hall. specialize (Hr Hall). rewrite Ew in Hr. done.
Qed.
(** [send] while a drain is running: the entry is appended, nothing
    else happens. *)
Lemma send_sending fuel data file line self :
  _sending self = true →
  send body iter fuel data file line self
  = Returned (observe (EvAppend (data, file, line))
               (set_messages (_messages self ++ [(data, file, line)]) self)).
Proof.
  intros Hs. unfold send. apply send_body_sending; [|done].
  apply _send_all_sending.
Qed.

(** [send] on an idle broker: the entry is appended and one drain
    runs. *)
Lemma send_idle fuel data file line self self' :
  _sending self = false →
  final (send body iter fuel data file line self) = Some self' →
  ∃ evs,
    observed self'
    = observed self
      ++ [EvAppend (data, file, line); EvSending true] ++ evs
      ++ [EvSending false]
    ∧ _sending self' = false
    ∧ flags evs = []
    ∧ dispatched evs ++ _messages self'
      = _messages self ++ [(data, file, line)] ++ enqueued evs
    ∧ (∀ cur, calls_follow cur evs)
    ∧ (∀ s, send body iter fuel data file line self = Returned s →
         _messages self' = [])
    ∧ (∀ exc s, send body iter fuel data file line self = Raised exc s →
         ∃ l m, last (calls evs) = Some (l, m) ∧ raises_with exc (body l m))
    ∧ ((∀ l m, never_raises (body l m)) →
         send body iter fuel data file line self = Returned self')
    ∧ (∀ l, (∀ l' m, never_subscribes l (body l' m)) →
            unregistered l self →
            unregistered l self' ∧ l ∉ (calls evs).*1).
Proof.
  intros Hs Hfin. unfold send, send_body in *.
  destruct (_send_all_idle fuel
              (observe (EvAppend (data, file, line))
                 (set_messages (_messages self ++ [(data, file, line)]) self))
              self' Hs Hfin)
    as (evs & Ho & Hs' & Hfl & Hcons & Hcf & Hret & Hx & Hr & Hu).
  exists evs. simpl in *. split_and!; try done.
  - rewrite Ho. by rewrite <-!app_assoc.
  - rewrite Hcons. by rewrite <-!app_assoc.
Qed.

Lemma consistent___init__ :
  consistent (__init__ : MessageBroker DeviceType EventCombination).
Proof. done. Qed.

Lemma consistent_subscribe kind listener self :
  consistent self → consistent (subscribe kind listener self).
Proof.
  intros (Hq & Hcf & Ht).
  destruct (subscribe_fields kind listener self) as (Hm & Hs & Ho).
  unfold consistent. rewrite Hm, Hs, Ho, enqueued_app, dispatched_app,
    flags_app. simpl. rewrite !app_nil_r. split_and!; try done.
  apply calls_follow_app. done.
Qed.

Lemma consistent_without listener self :
  consistent self → consistent (without listener self).
Proof. done. Qed.

(** Every call of [send] keeps the record consistent. *)
Lemma consistent_send fuel data file line self self' :
  consistent self →
  final (send body iter fuel data file line self) = Some self' →
  consistent self'.
Proof.
  intros (Hq & Hcf & Ht) Hfin. destruct (_sending self) eqn:Hs.
  - rewrite send_sending in Hfin by done. injection Hfin as <-.
    unfold consistent. simpl.
    rewrite enqueued_app, dispatched_app, flags_app, Hq, Hs. simpl.
    rewrite !app_nil_r, <-app_assoc. split_and!; try done.
    apply calls_follow_app. done.
  - destruct (send_idle fuel data file line self self' Hs Hfin)
      as (evs & Ho & Hs' & Hfl & Hcons & Hcf' & _).
    unfold consistent. rewrite Ho, Hs'.
    rewrite !enqueued_app, !dispatched_app, !flags_app, Hfl. simpl.
    rewrite !app_nil_r, Hq. split_and!.
    + rewrite <-!app_assoc. f_equal. by rewrite Hcons.
    + apply calls_follow_app. split; [done|]. simpl.
      apply calls_follow_app. split; [apply Hcf'|done].
    + rewrite toggles_app, Ht. done.
Qed.

(** C1. Messages are delivered in the order they were sent, also when a
    listener sends while it handles an earlier message: after any call
    of [send] on a broker with a consistent record, the queue is what
    was sent and not yet dispatched, in the order of sending (the i-th
    dispatch is the dispatch of the i-th entry sent, whoever sent it);
    every listener invocation passes the message of the entry then in
    dispatch; and an invocation that serves an entry sent earlier comes
    before every invocation that serves an entry sent later. *)
Theorem fifo_delivery fuel data file line self self' :
  consistent self →
  final (send body iter fuel data file line self) = Some self' →
  let tr := observed self' in
  (∃ evs, tr = observed self ++ EvAppend (data, file, line) :: evs)
  ∧ enqueued tr = dispatched tr ++ _messages self'
  ∧ (∀ p l m, tr !! p = Some (EvListener l m) →
       ∃ i file' line',
         serves tr p = Some i ∧ enqueued tr !! i = Some (m, file', line'))
  ∧ (∀ p1 p2 i j : nat,
       serves tr p1 = Some i → serves tr p2 = Some j → i < j → p1 < p2).
Proof.
  intros Hc Hfin tr.
  destruct (consistent_send fuel data file line self self' Hc Hfin)
    as (Hq & Hcf & _).
  split_and!.
  - subst tr. destruct (_sending self) eqn:Hs.
    + rewrite send_sending in Hfin by done. injection Hfin as <-.
      by exists [].
    + destruct (send_idle fuel data file line self self' Hs Hfin)
        as (evs & -> & _).
      by exists (EvSending true :: evs ++ [EvSending false]).
  - done.
  - intros p l m Hp. by eapply serves_enqueued.
  - apply serves_mono.
Qed.

(** C2. One drain at a time: a call of [send] made while the flag is set
    appends its entry and returns, without starting a drain; over the
    whole life of a broker the flag is only ever toggled (no drain
    starts inside a drain); and a drain that runs to its end leaves the
    queue empty, having dispatched, in that one drain, whatever was
    queued before and every entry appended while it was running. *)
Theorem one_drain_at_a_time fuel data file line self :
  (_sending self = true →
   send body iter fuel data file line self
   = Returned (observe (EvAppend (data, file, line))
                (set_messages (_messages self ++ [(data, file, line)]) self)))
  ∧ (∀ self', consistent self →
       final (send body iter fuel data file line self) = Some self' →
       toggles false (flags (observed self')) = Some (_sending self'))
  ∧ (∀ self', _sending self = false →
       send body iter fuel data file line self = Returned self' →
       _messages self' = []
       ∧ ∃ evs,
           observed self'
           = observed self
             ++ [EvAppend (data, file, line); EvSending true] ++ evs
             ++ [EvSending false]
           ∧ flags evs = []
           ∧ dispatched evs
             = _messages self ++ [(data, file, line)] ++ enqueued evs).
Proof.
  split_and!.
  - apply send_sending.
  - intros self' Hc Hfin.
    by destruct (consistent_send fuel data file line self self' Hc Hfin)
      as (_ & _ & ?).
  - intros self' Hs Hret.
    destruct (send_idle fuel data file line self self' Hs)
      as (evs & Ho & Hs' & Hfl & Hcons & Hcf' & Hempty & _);
      [by rewrite Hret|].
    specialize (Hempty _ Hret). split; [done|].
    exists evs. split_and!; try done.
    by rewrite Hempty, app_nil_r in Hcons.
Qed.

(** A dispatch inside a drain whose listeners do not raise returns, and
    has called the listeners of the copy, each with the message. *)
Lemma _send_calls_copy fuel entry self :
  _sending self = true →
  let data := entry.1.1 in
  let copy := iter (registered (Message_message_type data) self) in
  (∀ l, l ∈ copy → never_raises (body l data)) →
  ∃ self' evs,
    _send body iter fuel entry self = Returned self'
    ∧ observed self' = observed self ++ EvDebugSend entry :: evs
    ∧ calls evs = (λ l, (l, data)) <$> copy
    ∧ _sending self' = true.
Proof.
  intros Hs data copy Hnr.
  destruct (_send_body_sending body iter (_send_all body iter fuel)
              (_send_all_sending fuel) entry self Hs)
    as (self' & evs & called & Hf & He & Hc & Hp & Hret & Hx & Hr & Hu).
  specialize (Hr (proj2 (Forall_forall _ _) Hnr)).
  exists self', evs. unfold _send. split_and!; try done.
  - destruct He as (-> & _). simpl. by rewrite <-app_assoc.
  - rewrite Hc. f_equal. by eapply Hret.
  - by destruct He as (_ & _ & -> & _).
Qed.

(** The listeners called with [data] in a dispatch that has called a
    copy of [listeners] are the elements of [listeners]. *)
Lemma called_registered evs data (listeners : gset MessageListener) l :
  calls evs = (λ l, (l, data)) <$> iter listeners →
  (l, data) ∈ calls evs ↔ l ∈ listeners.
Proof.
  intros ->. rewrite list_elem_of_fmap, <-elem_of_elements, <-iter_elements.
  split; [by intros (l0 & [= ->] & ?)|by exists l].
Qed.

(** C3. The dispatch of an entry calls the listeners of a copy of the
    set registered for the entry's type when the dispatch begins: if
    none of them raises on this message, the dispatch returns (whatever
    they subscribe or unsubscribe meanwhile, themselves included), and
    the listeners called are those of the copy, once each, with the
    message: those registered for the type before the dispatch. What
    they did to the registry is in force when the dispatch returns: a
    listener that one of them has subscribed for a type, and none has
    unsubscribed, is registered for that type; a listener that one of
    them has unsubscribed, and none has subscribed, is registered for
    nothing; a listener that none of them has subscribed or
    unsubscribed is registered as before. The next dispatch calls the
    listeners registered for the type of its entry then, and no
    others. *)
Theorem dispatch_uses_a_copy fuel entry self :
  _sending self = true →
  let data := entry.1.1 in
  let copy := iter (registered (Message_message_type data) self) in
  (∀ l, l ∈ copy → never_raises (body l data)) →
  ∃ self' evs,
    _send body iter fuel entry self = Returned self'
    ∧ observed self' = observed self ++ EvDebugSend entry :: evs
    ∧ calls evs = (λ l, (l, data)) <$> copy
    ∧ copy ≡ₚ elements (registered (Message_message_type data) self)
    ∧ (∀ l', (l', data) ∈ calls evs
             ↔ l' ∈ registered (Message_message_type data) self)
    ∧ _sending self' = true
    ∧ (∀ l' kind,
         (∃ l, l ∈ copy ∧ subscribes kind l' (body l data)) →
         (∀ l, l ∈ copy → keeps_subscribed l' (body l data)) →
         l' ∈ registered kind self')
    ∧ (∀ l',
         (∃ l, l ∈ copy ∧ unsubscribes l' (body l data)) →
         (∀ l, l ∈ copy → never_subscribes l' (body l data)) →
         unregistered l' self')
    ∧ (∀ l' kind,
         (∀ l, l ∈ copy → never_subscribes l' (body l data)
                          ∧ keeps_subscribed l' (body l data)) →
         (l' ∈ registered kind self' ↔ l' ∈ registered kind self))
    ∧ ∀ entry',
        let data' := entry'.1.1 in
        let copy' := iter (registered (Message_message_type data') self') in
        (∀ l, l ∈ copy' → never_raises (body l data')) →
        ∃ self'' evs',
          _send body iter fuel entry' self' = Returned self''
          ∧ observed self'' = observed self' ++ EvDebugSend entry' :: evs'
          ∧ calls evs' = (λ l, (l, data')) <$> copy'
          ∧ ∀ l', (l', data') ∈ calls evs'
                  ↔ l' ∈ registered (Message_message_type data') self'.
Proof.
  pose proof (_send_calls_copy fuel) as Hone.
  intros Hs data copy Hnr.
  destruct (Hone entry self Hs Hnr) as (self' & evs & Hret & Ho & Hc & Hs').
  destruct (_send_body_registry body iter (_send_all body iter fuel)
              (_send_all_sending fuel) entry self self' Hs Hret)
    as (Hk & Hn & Hsub & Hun).
  exists self', evs.
  split_and!; try done; [apply iter_elements|by intros; eapply called_registered| |].
  - intros l' kind Hall. split.
    + intros Hin. destruct (decide (l' ∈ registered kind self)); [done|].
      exfalso. eapply Hn; [|done|done]. intros l Hl. by apply Hall.
    + apply Hk. intros l Hl. by apply Hall.
  - intros entry' data' copy' Hnr'.
    destruct (Hone entry' self' Hs' Hnr') as (self'' & evs' & ? & ? & ? & _).
    exists self'', evs'. split_and!; try done.
    by intros; eapply called_registered.
Qed.

(** [send] on an idle broker returns, when the listeners are well
    behaved on what is queued and on the message sent. *)
Lemma send_returns fuel data file line self :
  Forall (λ entry : QueueEntry DeviceType EventCombination,
            well_behaved_on body entry.1.1)
    (_messages self ++ [(data, file, line)]) →
  _sending self = false →
  length (_messages self) + 2 ≤ fuel →
  ∃ self', send body iter fuel data file line self = Returned self'.
Proof.
  intros Hq Hs Hlen. destruct fuel as [|fuel]; [lia|].
  unfold send, send_body. simpl. rewrite Hs.
  destruct (while_messages_returns body iter (_send_all body iter fuel)
              (_send_all_sending fuel) fuel
              (set_sending true
                 (observe (EvAppend (data, file, line))
                    (set_messages (_messages self ++ [(data, file, line)])
                       self)))) as [s Hw]; [done|done| |].
  - simpl. rewrite length_app. simpl. lia.
  - rewrite Hw. by eexists.
Qed.

(** C4. A listener's exception comes out of [send]: when the dispatch of
    the entry at the head of the queue raises, the drain raises the same
    exception, with the flag cleared and nothing else changed; and
    whenever [send] on an idle broker raises, the exception is one
    raised by the listener called last, the flag is clear, no second
    drain ran, and what was sent and not dispatched is still queued, in
    order; a later [send] that returns has dispatched these entries
    first and leaves the queue empty, and it does return when the
    listeners are well behaved on what is then queued and sent. *)
Theorem listener_exception_aborts_drain fuel data file line self :
  _sending self = false →
  (∀ entry queue exc s,
     _messages self = entry :: queue →
     _send body iter (S fuel) entry
       (set_messages queue (set_sending true self)) = Raised exc s →
     _send_all body iter (S (S fuel)) self
     = Raised exc (set_sending false s))
  ∧ (∀ exc self',
       send body iter fuel data file line self = Raised exc self' →
       _sending self' = false
       ∧ (∃ evs l m,
            observed self'
            = observed self
              ++ [EvAppend (data, file, line); EvSending true] ++ evs
              ++ [EvSending false]
            ∧ flags evs = []
            ∧ last (calls evs) = Some (l, m)
            ∧ raises_with exc (body l m)
            ∧ dispatched evs ++ _messages self'
              = _messages self ++ [(data, file, line)] ++ enqueued evs)
       ∧ (∀ fuel2 data2 file2 line2 self'',
            send body iter fuel2 data2 file2 line2 self' = Returned self'' →
            _messages self'' = []
            ∧ ∃ evs2,
                observed self''
                = observed self'
                  ++ [EvAppend (data2, file2, line2); EvSending true]
                  ++ evs2 ++ [EvSending false]
                ∧ dispatched evs2
                  = _messages self' ++ [(data2, file2, line2)]
                    ++ enqueued evs2)
       ∧ (∀ fuel2 data2 file2 line2,
            Forall (λ entry : QueueEntry DeviceType EventCombination,
                      well_behaved_on body entry.1.1)
              (_messages self' ++ [(data2, file2, line2)]) →
            length (_messages self') + 2 ≤ fuel2 →
            ∃ self'',
              send body iter fuel2 data2 file2 line2 self'
              = Returned self'')).
Proof.
  intros Hs. split.
  - intros entry queue exc s Hq Hsend.
    rewrite _send_all_unfold by done.
    rewrite (while_messages_cons _ _ _ entry queue) by done.
    unfold _send in Hsend. by rewrite Hsend.
  - intros exc self' Hraise.
    destruct (send_idle fuel data file line self self' Hs)
      as (evs & Ho & Hs' & Hfl & Hcons & _ & _ & Hx & _);
      [by rewrite Hraise|].
    destruct (Hx _ _ Hraise) as (l & m & Hl & Hw).
    split_and!; [done|by exists evs, l, m| |].
    + intros fuel2 data2 file2 line2 self'' Hret.
      destruct (send_idle fuel2 data2 file2 line2 self' self'' Hs')
        as (evs2 & Ho2 & _ & _ & Hcons2 & _ & Hempty & _);
        [by rewrite Hret|].
      specialize (Hempty _ Hret). split; [done|]. exists evs2.
      split; [done|]. by rewrite Hempty, app_nil_r in Hcons2.
    + intros fuel2 data2 file2 line2 Hq Hlen. by apply send_returns.
Qed.

(** C5. Subscribing a listener twice to a type leaves the registry as
    one subscription does, and a dispatch, for that type, that returns
    has called the listener exactly once. *)
Theorem subscribe_is_idempotent kind listener self :
  let once := subscribe kind listener self in
  let twice := subscribe kind listener once in
  _listeners twice = _listeners once
  ∧ _messages twice = _messages once
  ∧ _sending twice = _sending once
  ∧ registered kind twice = registered kind self ∪ {[listener]}
  ∧ ∀ fuel entry s s',
      Message_message_type entry.1.1 = kind →
      _sending s = true →
      registered kind s = registered kind twice →
      _send body iter fuel entry s = Returned s' →
      ∃ evs,
        observed s' = observed s ++ EvDebugSend entry :: evs
        ∧ length (filter (λ l, l = listener) (calls evs).*1) = 1.
Proof.
  intros once twice.
  assert (registered kind once = registered kind self ∪ {[listener]}) as Hr1.
  { subst once. rewrite registered_subscribe. by rewrite decide_True. }
  assert (registered kind twice = registered kind self ∪ {[listener]}) as Hr2.
  { subst twice. rewrite registered_subscribe, decide_True by done.
    rewrite Hr1. set_solver. }
  split_and!.
  - subst twice. rewrite subscribe_listeners, Hr1.
    subst once. rewrite subscribe_listeners, insert_insert_eq.
    f_equal. set_solver.
  - subst twice. by rewrite (proj1 (subscribe_fields kind listener once)).
  - subst twice.
    by rewrite (proj1 (proj2 (subscribe_fields kind listener once))).
  - done.
  - intros fuel entry s s' Hk Hs Hreg Hret. rewrite Hr2 in Hreg.
    destruct (_send_body_sending body iter (_send_all body iter fuel)
                (_send_all_sending fuel) entry s Hs)
      as (s1 & evs & called & Hf & He & Hc & Hp & Hcopy & _).
    unfold _send in Hret. rewrite Hret in Hf. injection Hf as <-.
    exists evs. split.
    + destruct He as (-> & _). simpl. by rewrite <-app_assoc.
    + rewrite Hc, callers_fmap, (Hcopy _ Hret), Hk.
      apply filter_eq_NoDup.
      * rewrite iter_elements. apply NoDup_elements.
      * rewrite iter_elements. apply elem_of_elements. rewrite Hreg.
        set_solver.
Qed.

(** C6. [unsubscribe] returns, for a listener that is registered and for
    one that is not (then the registry is as before); afterwards the
    listener is in the set of no type, and no call of [send] calls it,
    as long as no listener subscribes it again. *)
Theorem unsubscribe_removes_everywhere listener self :
  ∃ self',
    unsubscribe listener self = Returned self'
    ∧ (∀ key, registered key self' = registered key self ∖ {[listener]})
    ∧ unregistered listener self'
    ∧ (unregistered listener self → _listeners self' = _listeners self)
    ∧ ∀ fuel data file line self'',
        (∀ l m, never_subscribes listener (body l m)) →
        final (send body iter fuel data file line self') = Some self'' →
        ∃ evs,
          observed self'' = observed self' ++ evs
          ∧ (listener ∉ (calls evs).*1)
          ∧ unregistered listener self''.
Proof.
  exists (without listener self). split_and!.
  - done.
  - intros key. apply registered_without.
  - apply unregistered_without.
  - apply without_unregistered.
  - intros fuel data file line self'' Hns Hfin.
    pose proof (unregistered_without listener self) as Hun.
    destruct (_sending (without listener self)) eqn:Hs.
    + rewrite send_sending in Hfin by done. injection Hfin as <-.
      exists [EvAppend (data, file, line)]. split_and!; try done.
      simpl. apply not_elem_of_nil.
    + destruct (send_idle fuel data file line _ self'' Hs Hfin)
        as (evs & Ho & _ & _ & _ & _ & _ & _ & _ & Hu).
      destruct (Hu listener Hns Hun) as [Hun' Hnc].
      exists ([EvAppend (data, file, line); EvSending true] ++ evs
              ++ [EvSending false]).
      split_and!; try done.
      rewrite !calls_app. simpl. by rewrite app_nil_r.
Qed.

(** The dispatch of an entry for whose type nobody is registered calls
    nobody and returns. *)
Lemma _send_body_nobody send_all entry self :
  registered (Message_message_type entry.1.1) self = ∅ →
  ∃ self',
    _send_body body iter send_all entry self = Returned self'
    ∧ (∀ key, registered key self' = registered key self)
    ∧ _messages self' = _messages self
    ∧ _sending self' = _sending self
    ∧ observed self' = observed self ++ [EvDebugSend entry].
Proof.
  intros Hreg. unfold _send_body.
  pose proof (listeners_getitem_fst (Message_message_type entry.1.1)
                (observe (EvDebugSend entry) self)) as H1.
  pose proof (listeners_getitem_snd (Message_message_type entry.1.1)
                (observe (EvDebugSend entry) self)) as H2.
  destruct (listeners_getitem (Message_message_type entry.1.1) _)
    as [ls self1].
  simpl in H1, H2. destruct H2 as (Hr & _ & Hm & Hs & Ho).
  rewrite registered_observe, Hreg in H1. subst ls.
  assert (iter ∅ = []) as ->.
  { apply Permutation_nil_r. rewrite iter_elements. by rewrite elements_empty. }
  simpl. by exists self1.
Qed.

(** C9, as the code has it. [send] raises only what a listener it
    calls raises: when an exception comes out of [send], the broker was
    idle, [send] has started a drain, and the exception is raised by
    the code of the listener that this drain called last, on the
    message it was called with; and [send] returns when the listeners
    are well behaved on what is queued and sent. In particular
    [signal], on an idle broker with an empty queue and nobody
    registered for the type, returns, calls nobody, and leaves nobody
    registered for the type. *)
Theorem send_raises_only_what_a_listener_raises fuel data file line self :
  (∀ exc self',
     send body iter fuel data file line self = Raised exc self' →
     _sending self = false
     ∧ ∃ evs l m,
         observed self'
         = observed self
           ++ [EvAppend (data, file, line); EvSending true] ++ evs
           ++ [EvSending false]
         ∧ last (calls evs) = Some (l, m)
         ∧ raises_with exc (body l m))
  ∧ (Forall (λ entry : QueueEntry DeviceType EventCombination,
               well_behaved_on body entry.1.1)
       (_messages self ++ [(data, file, line)]) →
     _sending self = false →
     length (_messages self) + 2 ≤ fuel →
     ∃ self', send body iter fuel data file line self = Returned self')
  ∧ (∀ kind,
       _sending self = false → _messages self = [] →
       registered kind self = ∅ → 2 ≤ fuel →
       ∃ self',
         signal body iter fuel kind self = Returned self'
         ∧ registered kind self' = ∅
         ∧ calls (observed self') = calls (observed self)
         ∧ _messages self' = []).
Proof.
  split_and!.
  - intros exc self' Hraise. destruct (_sending self) eqn:Hs.
    { by rewrite send_sending in Hraise. }
    split; [done|].
    destruct (send_idle fuel data file line self self' Hs)
      as (evs & Ho & _ & _ & _ & _ & _ & Hx & _); [by rewrite Hraise|].
    destruct (Hx _ _ Hraise) as (l & m & Hl & Hw). by exists evs, l, m.
  - apply send_returns.
  - intros kind Hs Hq Hreg Hfuel.
    destruct fuel as [|[|fuel']]; [lia|lia|].
    unfold signal, signal_body, send_body.
    rewrite _send_all_unfold by done.
    set (entry := (MSignal {| message_type := kind |},
                   "message_broker.py"%string, 109%Z)).
    rewrite (while_messages_cons _ _ _ entry []) by (simpl; by rewrite Hq).
    destruct (_send_body_nobody (_send_all body iter (S fuel')) entry
                (set_messages []
                   (set_sending true
                      (observe (EvAppend entry)
                         (set_messages (_messages self ++ [entry]) self)))))
      as (self1 & -> & Hr & Hm & Hs1 & Ho); [done|].
    cbn [and_then].
    assert (while_messages body iter (_send_all body iter (S fuel'))
              fuel' self1 = Returned self1) as ->.
    { destruct fuel'; cbn [while_messages]; by rewrite Hm. }
    cbn [finally_not_sending]. eexists. split; [done|]. split_and!.
    + change (registered kind self1 = ∅). by rewrite (Hr kind).
    + simpl. rewrite Ho. simpl. rewrite !calls_app. simpl.
      by rewrite !app_nil_r.
    + simpl. by rewrite Hm.
Qed.

(** C7. [signal] is [send] of a [Signal] of that type (called from
    line 109 of the module); the message has the type given, every
    listener called in its dispatch is passed that very [Signal]; and
    two [Signal]s are equal, by the equality of their textual forms,
    exactly when they have the same type. *)
Theorem signal_sends_a_Signal fuel kind self :
  signal body iter fuel kind self
  = send body iter fuel (MSignal {| message_type := kind |})
      "message_broker.py"%string 109%Z self
  ∧ Message_message_type
      (MSignal {| message_type := kind |}
         : Message DeviceType EventCombination) = kind
  ∧ (∀ file line s s',
       _sending s = true →
       final (_send body iter fuel
                (MSignal {| message_type := kind |}, file, line) s)
       = Some s' →
       ∃ evs,
         observed s'
         = observed s
           ++ EvDebugSend (MSignal {| message_type := kind |}, file, line)
              :: evs
         ∧ Forall (λ c, c.2 = MSignal {| message_type := kind |}
                        ∧ Message_message_type c.2 = kind) (calls evs))
  ∧ Signal_eq {| message_type := kind |} {| message_type := kind |} = true
  ∧ (∀ s1 s2 : Signal,
       Signal_eq s1 s2 = true ↔ message_type s1 = message_type s2).
Proof.
  split_and!.
  - done.
  - done.
  - intros file line s s' Hs Hfin.
    destruct (_send_body_sending body iter (_send_all body iter fuel)
                (_send_all_sending fuel)
                (MSignal {| message_type := kind |}, file, line) s Hs)
      as (s1 & evs & called & Hf & He & Hc & _).
    unfold _send in Hfin. rewrite Hfin in Hf. injection Hf as <-.
    exists evs. split.
    + destruct He as (-> & _). simpl. by rewrite <-app_assoc.
    + rewrite Hc. apply Forall_fmap, Forall_true. done.
  - unfold Signal_eq. apply String.eqb_refl.
  - intros [k1] [k2]. unfold Signal_eq. simpl.
    destruct k1, k2; vm_compute; split; congruence.
Qed.

End Methods.

(** ** Fuel only decides whether the end of a call is reached *)

Section Fuel.
Context {DeviceType EventCombination : Type}.
Implicit Types (self : MessageBroker DeviceType EventCombination).
Variable body :
  MessageListener → Message DeviceType EventCombination →
  Code DeviceType EventCombination.
Variable iter : gset MessageListener → list MessageListener.
Variables send_all1 send_all2 :
  MessageBroker DeviceType EventCombination →
  Outcome DeviceType EventCombination.
Hypothesis send_all1_sending :
  ∀ self, _sending self = true → send_all1 self = Returned self.
Hypothesis send_all2_sending :
  ∀ self, _sending self = true → send_all2 self = Returned self.

Lemma run_any_send_all code self :
  _sending self = true → run send_all1 code self = run send_all2 code self.
Proof.
  revert self.
  induction code as [|exc|data file line rest IH|kind rest IH
                    |kind listener rest IH|listener rest IH|rest IH];
    intros self Hs; simpl; try done.
  - rewrite !send_body_sending by done. simpl. by apply IH.
  - unfold signal_body. rewrite !send_body_sending by done. simpl.
    by apply IH.
  - apply IH. by rewrite (proj1 (proj2 (subscribe_fields kind listener self))).
  - by apply IH.
  - by apply IH.
Qed.

Lemma call_each_any_send_all copy data self :
  _sending self = true →
  call_each body send_all1 copy data self
  = call_each body send_all2 copy data self.
Proof.
  revert self. induction copy as [|listener copy IH]; intros self Hs; simpl;
    [done|].
  rewrite run_any_send_all by done.
  destruct (run_sending send_all2 send_all2_sending (body listener data)
              (observe (EvListener listener data) self))
    as (self1 & evs & Hf & He & _); [done|].
  destruct (run send_all2 (body listener data)
              (observe (EvListener listener data) self))
    as [s|exc s|]; simpl in *; try done.
  injection Hf as ->. apply IH. by destruct He as (_ & _ & -> & _).
Qed.

Lemma _send_body_any_send_all entry self :
  _sending self = true →
  _send_body body iter send_all1 entry self
  = _send_body body iter send_all2 entry self.
Proof.
  intros Hs. unfold _send_body.
  pose proof (listeners_getitem_snd (Message_message_type entry.1.1)
                (observe (EvDebugSend entry) self)) as H2.
  destruct (listeners_getitem (Message_message_type entry.1.1) _)
    as [ls self1].
  simpl in H2. destruct H2 as (_ & _ & _ & Hs1 & _).
  apply call_each_any_send_all. by rewrite Hs1.
Qed.

Lemma while_messages_more_fuel (fuel fuel' : nat) self r :
  fuel ≤ fuel' → _sending self = true →
  while_messages body iter send_all1 fuel self = r → r ≠ OutOfFuel →
  while_messages body iter send_all2 fuel' self = r.
Proof.
  revert fuel' self.
  induction fuel as [|fuel IH]; intros fuel' self Hle Hs Hr Hne.
  - simpl in Hr. destruct (_messages self) eqn:Eq; [|congruence].
    destruct fuel'; simpl; by rewrite Eq.
  - destruct fuel' as [|fuel']; [lia|]. simpl in *.
    destruct (_messages self) as [|entry queue]; [done|].
    rewrite <-_send_body_any_send_all by done.
    destruct (_send_body_sending body iter send_all1 send_all1_sending
                entry (set_messages queue self) Hs)
      as (self1 & evs & called & Hf & He & _).
    destruct (_send_body body iter send_all1 entry (set_messages queue self))
      as [s|exc s|]; simpl in *; try done.
    injection Hf as ->. apply IH; [lia| |done|done].
    by destruct He as (_ & _ & -> & _).
Qed.
End Fuel.

Section MoreFuel.
Context {DeviceType EventCombination : Type}.
Implicit Types (self : MessageBroker DeviceType EventCombination).
Variable body :
  MessageListener → Message DeviceType EventCombination →
  Code DeviceType EventCombination.
Variable iter : gset MessageListener → list MessageListener.

Lemma _send_all_more_fuel (fuel fuel' : nat) self r :
  fuel ≤ fuel' →
  _send_all body iter fuel self = r → r ≠ OutOfFuel →
  _send_all body iter fuel' self = r.
Proof.
  intros Hle Hr Hne. destruct (_sending self) eqn:Hs.
  { rewrite _send_all_sending in * by done. done. }
  destruct fuel as [|fuel]; [simpl in Hr; rewrite Hs in Hr; congruence|].
  destruct fuel' as [|fuel']; [lia|].
  rewrite _send_all_unfold in * by done.
  destruct (while_messages body iter (_send_all body iter fuel) fuel
              (set_sending true self)) as [s|exc s|] eqn:Ew;
    simpl in Hr; [| |congruence].
  - rewrite (while_messages_more_fuel body iter _ _
               (_send_all_sending body iter fuel)
               (_send_all_sending body iter fuel')
               fuel fuel' _ (Returned s)); [done|lia|done|done|done].
  - rewrite (while_messages_more_fuel body iter _ _
               (_send_all_sending body iter fuel)
               (_send_all_sending body iter fuel')
               fuel fuel' _ (Raised exc s)); [done|lia|done|done|done].
Qed.

(** What [send] returns or raises with some fuel, it returns or raises
    with any more. *)
Lemma send_more_fuel (fuel fuel' : nat) data file line self r :
  fuel ≤ fuel' →
  send body iter fuel data file line self = r → r ≠ OutOfFuel →
  send body iter fuel' data file line self = r.
Proof. unfold send, send_body. apply _send_all_more_fuel. Qed.
End MoreFuel.

(** * The rendering of [UInputsData] *)

Section Rendering.
Context {DeviceType EventCombination : Type}.
Implicit Types (self : MessageBroker DeviceType EventCombination).
Variable body :
  MessageListener → Message DeviceType EventCombination →
  Code DeviceType EventCombination.
Variable iter : gset MessageListener → list MessageListener.

(** C10. [UInputsData.__str__] shortens the numbers of the text and
    nothing else depends on it. In any text, numbers that are not
    negative, separated by a comma and a space and standing between two
    characters that are neither digits, commas nor spaces (the brackets
    of a list), are cut down to the first and the last with an ellipsis
    between them, [first, ... last], when there are three or more, and
    are kept when there are two; the text before and after is shortened
    on its own. So every list of three or more such numbers among the
    capabilities of a message is rendered by [str] as its first and last
    number. The generated [==] compares the [uinputs] fields and not
    the renderings, which can be equal for messages that are not; and a
    dispatch passes the message itself to the listeners registered for
    [MessageType.uinputs]. *)
Theorem uinputs_rendering_shortens_number_runs :
  (∀ pre b (first : Z) mids (last : Z) e post,
     is_blocker b = true → is_blocker e = true →
     (0 ≤ first)%Z → Forall (λ z, 0 ≤ z)%Z mids → (0 ≤ last)%Z →
     shorten (pre ++ b
                :: list_ascii_of_string
                     (String.concat ", "
                        (repr_int <$> first :: mids ++ [last]))
                ++ e :: post)
     = shorten (pre ++ [b])
       ++ list_ascii_of_string (repr_int first)
       ++ (if decide (mids = []) then list_ascii_of_string ", "
           else list_ascii_of_string ", ... ")
       ++ list_ascii_of_string (repr_int last)
       ++ e :: shorten post)
  ∧ (∀ (data : UInputsData) name caps k (first : Z) mids (last : Z),
       (name, caps) ∈ uinputs data →
       (k, first :: mids ++ [last]) ∈ caps →
       mids ≠ [] →
       (0 ≤ first)%Z → Forall (λ z, 0 ≤ z)%Z mids → (0 ≤ last)%Z →
       ∃ pre post,
         list_ascii_of_string
           ("UInputsData(uinputs=" +:+ repr_uinputs (uinputs data) +:+ ")")%string
         = pre ++ "["%char
               :: list_ascii_of_string
                    (String.concat ", "
                       (repr_int <$> first :: mids ++ [last]))
               ++ "]"%char :: post
         ∧ str data
           = string_of_list_ascii
               (shorten (pre ++ ["["%char])
                ++ list_ascii_of_string
                     (repr_int first +:+ ", ... " +:+ repr_int last)%string
                ++ "]"%char :: shorten post))
  ∧ (∀ a b : UInputsData,
       Message_wf (MUInputsData a : Message DeviceType EventCombination) →
       Message_wf (MUInputsData b : Message DeviceType EventCombination) →
       UInputsData_eq a b = true
       ↔ dict_same (dict_same eq) (uinputs a) (uinputs b))
  ∧ (∃ a b : UInputsData, str a = str b ∧ UInputsData_eq a b = false)
  ∧ (∀ fuel (data : UInputsData) file line self,
       _sending self = true →
       let copy := iter (registered MessageType.uinputs self) in
       (∀ l, l ∈ copy → never_raises (body l (MUInputsData data))) →
       ∃ self' evs,
         _send body iter fuel (MUInputsData data, file, line) self
         = Returned self'
         ∧ observed self'
           = observed self ++ EvDebugSend (MUInputsData data, file, line) :: evs
         ∧ calls evs = (λ l, (l, MUInputsData data)) <$> copy).
Proof.
  split_and!.
  - apply shorten_numbers.
  - intros data name caps k first mids last Hd Hcaps Hne Hf Hm Hl.
    destruct (repr_uinputs_elem_of _ _ _ _ _ Hd Hcaps) as (pre & post & E).
    exists pre, post. split; [done|].
    unfold str, UInputsData_str. rewrite E. f_equal.
    rewrite shorten_numbers by done.
    rewrite decide_False by done.
    by rewrite !list_ascii_of_string_app, <-!app_assoc.
  - intros a b [Ha1 Ha2] [Hb1 Hb2]. unfold UInputsData_eq.
    apply (dict_eqb_spec _ _ dict_wf); try done.
    intros; by apply dict_eqb_eqb_of_spec.
  - exists {| uinputs := [("keyboard"%string, [(1%Z, [1; 2; 3]%Z)])] |},
           {| uinputs := [("keyboard"%string, [(1%Z, [1; 7; 3]%Z)])] |}.
    by vm_compute.
  - intros fuel data file line self Hs copy Hnr.
    destruct (_send_calls_copy body iter fuel (MUInputsData data, file, line)
                self Hs Hnr)
      as (self' & evs & ? & ? & ? & _).
    by exists self', evs.
Qed.
End Rendering.

(** * More of the broker *)

(** ** The keys of the registry *)

Section KeysRegistry.
Context {DeviceType EventCombination : Type}.
Implicit Types (self : MessageBroker DeviceType EventCombination).

Lemma dom_subscribe kind listener self :
  dom (_listeners (subscribe kind listener self))
  = dom (_listeners self) ∪ {[kind]}.
Proof. rewrite subscribe_listeners, dom_insert_L. set_solver. Qed.

Lemma dom_without listener self :
  dom (_listeners (without listener self)) = dom (_listeners self).
Proof. unfold without. simpl. by rewrite dom_fmap_L. Qed.

Lemma dom_listeners_getitem key self :
  dom (_listeners (listeners_getitem key self).2)
  = dom (_listeners self) ∪ {[key]}.
Proof.
  unfold listeners_getitem.
  destruct (_listeners self !! key) as [s|] eqn:E; simpl.
  - apply (elem_of_dom_2 (D := gset MessageType)) in E. set_solver.
  - rewrite dom_insert_L. set_solver.
Qed.
End KeysRegistry.

Section Keys.
Context {DeviceType EventCombination : Type}.
Implicit Types (self : MessageBroker DeviceType EventCombination).
Implicit Types (evs : list (Event DeviceType EventCombination)).
Variable body :
  MessageListener → Message DeviceType EventCombination →
  Code DeviceType EventCombination.
Variable iter : gset MessageListener → list MessageListener.
Variable send_all :
  MessageBroker DeviceType EventCombination →
  Outcome DeviceType EventCombination.
Hypothesis send_all_sending :
  ∀ self, _sending self = true → send_all self = Returned self.

Lemma run_keys code self self' :
  _sending self = true →
  final (run send_all code self) = Some self' →
  dom (_listeners self) ⊆ dom (_listeners self').
Proof.
  revert self.
  induction code as [|exc|data file line rest IH|kind rest IH
                    |kind listener rest IH|listener rest IH|rest IH];
    intros self Hs; simpl.
  - by intros [= <-].
  - by intros [= <-].
  - rewrite (send_body_sending send_all send_all_sending) by done. simpl.
    intros Hf. by apply IH in Hf.
  - unfold signal_body.
    rewrite (send_body_sending send_all send_all_sending) by done. simpl.
    intros Hf. by apply IH in Hf.
  - intros Hf. apply IH in Hf.
    + rewrite dom_subscribe in Hf. set_solver.
    + by destruct (subscribe_fields kind listener self) as (_ & -> & _).
  - intros Hf. apply (IH (without listener self)) in Hf; [|done].
    by rewrite dom_without in Hf.
  - by apply IH.
Qed.

Lemma call_each_keys copy data self self' :
  _sending self = true →
  final (call_each body send_all copy data self) = Some self' →
  dom (_listeners self) ⊆ dom (_listeners self').
Proof.
  revert self. induction copy as [|l copy IH]; intros self Hs; simpl.
  { by intros [= <-]. }
  destruct (run_sending send_all send_all_sending (body l data)
              (observe (EvListener l data) self) Hs)
    as (s1 & evs & Hf1 & Hext & _).
  pose proof (run_keys (body l data) (observe (EvListener l data) self) s1
                Hs Hf1) as Hk1. simpl in Hk1.
  destruct (run send_all (body l data) (observe (EvListener l data) self))
    as [s|exc s|]; simpl in *; [| |done]; injection Hf1 as ->.
  - intros Hf. apply IH in Hf; [set_solver|].
    by destruct Hext as (_ & _ & -> & _).
  - intros [= <-]. done.
Qed.

Lemma _send_body_keys entry self self' :
  _sending self = true →
  final (_send_body body iter send_all entry self) = Some self' →
  dom (_listeners self) ∪ {[Message_message_type entry.1.1]}
  ⊆ dom (_listeners self').
Proof.
  intros Hs. unfold _send_body.
  pose proof (dom_listeners_getitem (Message_message_type entry.1.1)
                (observe (EvDebugSend entry) self)) as Hd.
  pose proof (listeners_getitem_snd (Message_message_type entry.1.1)
                (observe (EvDebugSend entry) self)) as (_ & _ & _ & Hs1 & _).
  destruct (listeners_getitem _ _) as [ls s1]. simpl in *.
  intros Hf. apply call_each_keys in Hf; [|by rewrite Hs1].
  rewrite Hd in Hf. done.
Qed.

Lemma while_messages_keys fuel self self' :
  _sending self = true →
  final (while_messages body iter send_all fuel self) = Some self' →
  dom (_listeners self) ⊆ dom (_listeners self').
Proof.
  revert self. induction fuel as [|fuel IH]; intros self Hs; simpl.
  { destruct (_messages self); [by intros [= <-]|done]. }
  destruct (_messages self) as [|entry queue] eqn:Hq; [by intros [= <-]|].
  destruct (_send_body_sending body iter send_all send_all_sending entry
              (set_messages queue self) Hs)
    as (s1 & evs & called & Hf1 & Hext & _).
  pose proof (_send_body_keys entry (set_messages queue self) s1 Hs Hf1)
    as Hk1. simpl in Hk1.
  destruct (_send_body body iter send_all entry (set_messages queue self))
    as [s|exc s|]; simpl in *; [| |done]; injection Hf1 as ->.
  - intros Hf. apply IH in Hf; [set_solver|].
    by destruct Hext as (_ & _ & -> & _).
  - intros [= <-]. set_solver.
Qed.
End Keys.

Section KeysMethods.
Context {DeviceType EventCombination : Type}.
Implicit Types (self : MessageBroker DeviceType EventCombination).
Variable body :
  MessageListener → Message DeviceType EventCombination →
  Code DeviceType EventCombination.
Variable iter : gset MessageListener → list MessageListener.

Lemma _send_all_keys fuel self self' :
  final (_send_all body iter fuel self) = Some self' →
  dom (_listeners self) ⊆ dom (_listeners self').
Proof.
  destruct (_sending self) eqn:Hs.
  { rewrite _send_all_sending by done. by intros [= <-]. }
  destruct fuel as [|fuel]; [by simpl; rewrite Hs|].
  rewrite _send_all_unfold by done. intros Hf.
  destruct (while_messages body iter (_send_all body iter fuel) fuel
              (set_sending true self)) as [s|exc s|] eqn:Ew;
    simpl in Hf; [| |done]; injection Hf as <-; simpl;
    apply (while_messages_keys body iter (_send_all body iter fuel)
             (_send_all_sending body iter fuel) fuel
             (set_sending true self) s); try done; by rewrite Ew.
Qed.

(** X4. The keys of [_listeners] are never removed: [subscribe] adds the
    type, [unsubscribe] keeps every key (a set may become empty), and a
    call of [send], whatever the listeners do and however it ends, keeps
    the keys it finds; a dispatch adds the type of its message. *)
Theorem listeners_keys_are_never_removed :
  (∀ kind listener self,
     dom (_listeners (subscribe kind listener self))
     = dom (_listeners self) ∪ {[kind]})
  ∧ (∀ listener self self',
       unsubscribe listener self = Returned self' →
       dom (_listeners self') = dom (_listeners self))
  ∧ (∀ fuel data file line self self',
       final (send body iter fuel data file line self) = Some self' →
       dom (_listeners self) ⊆ dom (_listeners self'))
  ∧ (∀ fuel entry self self',
       _sending self = true →
       final (_send body iter fuel entry self) = Some self' →
       dom (_listeners self) ∪ {[Message_message_type entry.1.1]}
       ⊆ dom (_listeners self')).
Proof.
  split_and!.
  - apply dom_subscribe.
  - intros listener self self' [= <-]. apply (dom_without listener self).
  - intros fuel data file line self self' Hf.
    unfold send, send_body in Hf. by apply _send_all_keys in Hf.
  - intros fuel entry self self' Hs Hf.
    by apply (_send_body_keys body iter (_send_all body iter fuel)
                (_send_all_sending body iter fuel) entry self self').
Qed.
End KeysMethods.

(** ** Subscribing and unsubscribing, one after the other *)

Section Algebra.
Context {DeviceType EventCombination : Type}.
Implicit Types (self : MessageBroker DeviceType EventCombination).

(** X5. Subscribing and then unsubscribing a listener leaves every set as
    it was without the listener, so as it was when the listener was not
    registered; the type subscribed to stays a key of [_listeners]. *)
Theorem subscribe_then_unsubscribe kind listener self :
  ∃ self',
    unsubscribe listener (subscribe kind listener self) = Returned self'
    ∧ (∀ key, registered key self' = registered key self ∖ {[listener]})
    ∧ (unregistered listener self →
       ∀ key, registered key self' = registered key self)
    ∧ _listeners self' !! kind = Some (registered kind self ∖ {[listener]})
    ∧ _messages self' = _messages self
    ∧ _sending self' = _sending self.
Proof.
  eexists. split; [reflexivity|].
  fold (without listener (subscribe kind listener self)).
  assert (∀ key, registered key (without listener (subscribe kind listener self))
                 = registered key self ∖ {[listener]}) as Hreg.
  { intros key. rewrite registered_without, registered_subscribe.
    case_decide; [subst|done]. set_solver. }
  destruct (subscribe_fields kind listener self) as (Hm & Hs & _).
  split_and!; try done.
  - intros Hun key. rewrite Hreg. specialize (Hun key). set_solver.
  - simpl. rewrite lookup_fmap, subscribe_listeners, lookup_insert_eq. simpl.
    f_equal. unfold set_remove. rewrite decide_True by set_solver.
    set_solver.
Qed.

(** X6. The order of two subscriptions, and of two unsubscriptions, does
    not matter for the registry, and unsubscribing a second time
    changes nothing. *)
Theorem subscriptions_commute :
  (∀ kind1 l1 kind2 l2 self,
     let a := subscribe kind1 l1 (subscribe kind2 l2 self) in
     let b := subscribe kind2 l2 (subscribe kind1 l1 self) in
     _listeners a = _listeners b
     ∧ _messages a = _messages b ∧ _sending a = _sending b)
  ∧ (∀ l1 l2 self,
       and_then (unsubscribe l1 self) (unsubscribe l2)
       = and_then (unsubscribe l2 self) (unsubscribe l1))
  ∧ (∀ l self,
       and_then (unsubscribe l self) (unsubscribe l) = unsubscribe l self).
Proof.
  split_and!.
  - intros kind1 l1 kind2 l2 self a b. split_and!.
    + unfold a, b. rewrite !subscribe_listeners, !registered_subscribe.
      destruct (decide (kind1 = kind2)) as [->|Hne].
      * rewrite !decide_True, !insert_insert_eq by done. f_equal.
        set_solver.
      * rewrite !decide_False by done. by apply insert_insert_ne.
    + unfold a, b.
      destruct (subscribe_fields kind1 l1 (subscribe kind2 l2 self))
        as (-> & _).
      destruct (subscribe_fields kind2 l2 (subscribe kind1 l1 self))
        as (-> & _).
      destruct (subscribe_fields kind2 l2 self) as (-> & _).
      by destruct (subscribe_fields kind1 l1 self) as (-> & _).
    + unfold a, b.
      destruct (subscribe_fields kind1 l1 (subscribe kind2 l2 self))
        as (_ & -> & _).
      destruct (subscribe_fields kind2 l2 (subscribe kind1 l1 self))
        as (_ & -> & _).
      destruct (subscribe_fields kind2 l2 self) as (_ & -> & _).
      by destruct (subscribe_fields kind1 l1 self) as (_ & -> & _).
  - intros l1 l2 self. rewrite !unsubscribe_returns. cbn [and_then].
    rewrite !unsubscribe_returns. f_equal.
    unfold without, set_listeners. simpl. f_equal.
    apply map_eq. intros key. rewrite !lookup_fmap.
    destruct (_listeners self !! key) as [s|]; simpl; [|done]. f_equal.
    unfold set_remove. repeat case_decide; set_solver.
  - intros l self. rewrite !unsubscribe_returns. cbn [and_then].
    rewrite !unsubscribe_returns. f_equal.
    unfold without, set_listeners. simpl. f_equal.
    apply map_eq. intros key. rewrite !lookup_fmap.
    destruct (_listeners self !! key) as [s|]; simpl; [|done]. f_equal.
    unfold set_remove. repeat case_decide; set_solver.
Qed.
End Algebra.

Section Delivery.
Context {DeviceType EventCombination : Type}.
Implicit Types (self : MessageBroker DeviceType EventCombination).
Implicit Types (evs : list (Event DeviceType EventCombination)).
Variable body :
  MessageListener → Message DeviceType EventCombination →
  Code DeviceType EventCombination.
Variable iter : gset MessageListener → list MessageListener.
Hypothesis iter_elements : ∀ listeners, iter listeners ≡ₚ elements listeners.

(** [send] on an idle broker with nothing queued, when no listener
    raises or sends on this message: one dispatch, of this message. *)
Lemma send_idle_delivers fuel data file line self :
  _sending self = false → _messages self = [] → 2 ≤ fuel →
  well_behaved_on body data →
  let entry := (data, file, line) in
  let copy := iter (registered (Message_message_type data) self) in
  ∃ self' evs,
    send body iter fuel data file line self = Returned self'
    ∧ observed self'
      = observed self
        ++ [EvAppend entry; EvSending true; EvDebugSend entry] ++ evs
        ++ [EvSending false]
    ∧ calls evs = (λ l, (l, data)) <$> copy
    ∧ enqueued evs = [] ∧ dispatched evs = [] ∧ flags evs = []
    ∧ _messages self' = []
    ∧ _sending self' = false.
Proof.
  intros Hs Hq Hfuel Hwb entry copy.
  destruct fuel as [|[|fuel]]; [lia..|].
  unfold send, send_body. rewrite _send_all_unfold by done.
  rewrite (while_messages_cons body iter _ _ _ entry [])
    by (simpl; by rewrite Hq).
  set (s0 := set_messages [] _).
  assert (_sending s0 = true) as Hs0 by done.
  destruct (_send_body_sending body iter (_send_all body iter (S fuel))
              (_send_all_sending body iter (S fuel)) entry s0 Hs0)
    as (s1 & evs & called & Hf & Hext & Hc & Hp & Hret & Hx & Hr & Hu).
  assert (_send_body body iter (_send_all body iter (S fuel)) entry s0
          = Returned s1) as Hsend.
  { apply Hr, Forall_forall. intros l _. apply Hwb. }
  pose proof (_send_body_never_sends body iter (_send_all body iter (S fuel))
                entry s0 s1 (λ l, proj2 (Hwb l)) Hf) as Hm1.
  rewrite Hsend. cbn [and_then].
  destruct Hext as (Ho & Hm & Hs1 & Hd & Hfl).
  assert (enqueued evs = []) as He.
  { rewrite Hm1 in Hm. simpl in Hm. done. }
  assert (_messages s1 = []) as Hq1 by (by rewrite Hm1).
  assert (while_messages body iter (_send_all body iter (S fuel)) fuel s1
          = Returned s1) as ->.
  { destruct fuel; simpl; by rewrite Hq1. }
  exists (set_sending false s1), evs. simpl. split_and!; try done.
  - rewrite Ho. simpl. by rewrite <-!app_assoc.
  - rewrite Hc. f_equal. by eapply Hret.
Qed.

(** A listener is met once in the elements of a set it is in, and not
    at all otherwise. *)
Lemma count_iter (l : MessageListener) (listeners : gset MessageListener) :
  length (filter (λ l', l' = l) (iter listeners))
  = if decide (l ∈ listeners) then 1 else 0.
Proof.
  assert (NoDup (iter listeners)) as Hnd.
  { rewrite iter_elements. apply NoDup_elements. }
  case_decide as Hin.
  - apply filter_eq_NoDup; [done|]. by rewrite iter_elements, elem_of_elements.
  - rewrite filter_eq_not_elem_of; [done|].
    by rewrite iter_elements, elem_of_elements.
Qed.

(** X1. [send] on an idle broker with nothing queued, when no listener
    raises or sends on this message: it returns, and in between it has
    called each listener registered for the type of the message once,
    with the message, and nobody else; nothing is queued afterwards and
    the flag is clear. *)
Theorem send_calls_the_registered_once fuel data file line self :
  _sending self = false → _messages self = [] → 2 ≤ fuel →
  well_behaved_on body data →
  let entry := (data, file, line) in
  ∃ self' evs,
    send body iter fuel data file line self = Returned self'
    ∧ observed self'
      = observed self
        ++ [EvAppend entry; EvSending true; EvDebugSend entry] ++ evs
        ++ [EvSending false]
    ∧ Forall (λ c, c.2 = data) (calls evs)
    ∧ (∀ l, length (filter (λ l', l' = l) (calls evs).*1)
            = if decide (l ∈ registered (Message_message_type data) self)
              then 1 else 0)
    ∧ enqueued evs = [] ∧ dispatched evs = [] ∧ flags evs = []
    ∧ _messages self' = []
    ∧ _sending self' = false.
Proof.
  intros Hs Hq Hfuel Hwb entry.
  destruct (send_idle_delivers fuel data file line self Hs Hq Hfuel Hwb)
    as (self' & evs & Hret & Ho & Hc & He & Hd & Hfl & Hq' & Hs').
  exists self', evs. split_and!; try done.
  - rewrite Hc. apply Forall_fmap, Forall_forall. by intros.
  - intros l. rewrite Hc, callers_fmap. apply count_iter.
Qed.

(** X2. Outside the listeners the broker is idle and its record is
    consistent: whatever was subscribed, unsubscribed and sent before,
    and however the calls ended, [_sending] is clear; and when no
    listener ever raises, nothing is left in the queue. *)
Theorem reachable_brokers_are_idle self :
  reachable body iter self →
  consistent self
  ∧ _sending self = false
  ∧ ((∀ l m, never_raises (body l m)) → _messages self = []).
Proof.
  induction 1 as [|kind listener self _ (Hc & Hs & Hq)
                  |listener self self' _ (Hc & Hs & Hq) Hu
                  |fuel data file line self self' _ (Hc & Hs & Hq) Hf
                  |fuel kind self self' _ (Hc & Hs & Hq) Hf].
  - done.
  - destruct (subscribe_fields kind listener self) as (Hm' & Hs' & _).
    split_and!; [by apply consistent_subscribe|by rewrite Hs'|].
    intros Hnr. rewrite Hm'. by apply Hq.
  - injection Hu as <-. done.
  - destruct (send_idle body iter iter_elements fuel data file line self self'
                Hs Hf) as (evs & _ & Hs' & _ & _ & _ & Hret & _ & Hr & _).
    split_and!; [by eapply consistent_send|done|].
    intros Hnr. by eapply Hret, Hr.
  - unfold signal, signal_body in Hf.
    destruct (send_idle body iter iter_elements fuel _ _ _ self self'
                Hs Hf) as (evs & _ & Hs' & _ & _ & _ & Hret & _ & Hr & _).
    split_and!; [by eapply consistent_send|done|].
    intros Hnr. by eapply Hret, Hr.
Qed.
End Delivery.

(** ** A drain that does not end *)

Section Echo.
Context {DeviceType EventCombination : Type}.
Implicit Types (self : MessageBroker DeviceType EventCombination).
Implicit Types (evs : list (Event DeviceType EventCombination)).
Variable body :
  MessageListener → Message DeviceType EventCombination →
  Code DeviceType EventCombination.
Variable iter : gset MessageListener → list MessageListener.
Variable send_all :
  MessageBroker DeviceType EventCombination →
  Outcome DeviceType EventCombination.
Hypothesis send_all_sending :
  ∀ self, _sending self = true → send_all self = Returned self.

Lemma run_keeps_subscribed l key code self self' :
  _sending self = true → keeps_subscribed l code →
  final (run send_all code self) = Some self' →
  l ∈ registered key self → l ∈ registered key self'.
Proof.
  intros Hs Hk. revert self Hs.
  induction Hk as [|exc|data file line rest _ IH|kind rest _ IH
                  |kind listener rest _ IH|listener rest Hne _ IH|rest _ IH];
    intros self Hs; simpl.
  - by intros [= <-].
  - by intros [= <-].
  - rewrite (send_body_sending send_all send_all_sending) by done. simpl.
    intros Hf Hin. by apply IH in Hf.
  - unfold signal_body.
    rewrite (send_body_sending send_all send_all_sending) by done. simpl.
    intros Hf Hin. by apply IH in Hf.
  - intros Hf Hin. apply IH in Hf; [done| |].
    + by destruct (subscribe_fields kind listener self) as (_ & -> & _).
    + rewrite registered_subscribe. case_decide; [subst|done]. set_solver.
  - intros Hf Hin. apply (IH (without listener self)) in Hf; [done|done|].
    rewrite registered_without. set_solver.
  - by apply IH.
Qed.

(** The queue only grows while a listener runs. *)
Lemma run_keeps_queued code self self' entry :
  _sending self = true →
  final (run send_all code self) = Some self' →
  entry ∈ _messages self → entry ∈ _messages self'.
Proof.
  intros Hs Hf Hin.
  destruct (run_sending send_all send_all_sending code self Hs)
    as (s & evs & Hf' & (_ & Hm & _) & _).
  rewrite Hf in Hf'. injection Hf' as <-. rewrite Hm. set_solver.
Qed.

Lemma call_each_keeps copy data self self' :
  _sending self = true →
  final (call_each body send_all copy data self) = Some self' →
  _sending self' = true
  ∧ (∀ entry, entry ∈ _messages self → entry ∈ _messages self')
  ∧ ∀ l key, (∀ l', keeps_subscribed l (body l' data)) →
             l ∈ registered key self → l ∈ registered key self'.
Proof.
  revert self. induction copy as [|l0 copy IH]; intros self Hs; simpl.
  { by intros [= <-]. }
  destruct (run_sending send_all send_all_sending (body l0 data)
              (observe (EvListener l0 data) self) Hs)
    as (s1 & evs & Hf1 & (_ & _ & Hs1 & _) & _).
  pose proof (run_keeps_queued (body l0 data)
                (observe (EvListener l0 data) self) s1) as Hq1.
  pose proof (λ l key Hk, run_keeps_subscribed l key (body l0 data)
                (observe (EvListener l0 data) self) s1 Hs Hk Hf1) as Hr1.
  simpl in Hq1, Hr1, Hs1.
  destruct (run send_all (body l0 data) (observe (EvListener l0 data) self))
    as [s|exc s|]; simpl in *; [| |done]; injection Hf1 as ->.
  - intros Hf. apply IH in Hf as (Hs' & Hq' & Hr'); [|by rewrite Hs1].
    split_and!; [done|by auto|]. intros l key Hk Hin.
    apply Hr'; [done|]. by apply Hr1.
  - intros [= <-]. split_and!; [by rewrite Hs1|by auto|].
    intros l key Hk Hin. by apply Hr1.
Qed.

(** A listener of the copy that sends has left its message in the
    queue when the dispatch returns. *)
Lemma call_each_queues copy data self self' l m file line rest :
  _sending self = true →
  call_each body send_all copy data self = Returned self' →
  l ∈ copy → body l data = CallSend m file line rest →
  (m, file, line) ∈ _messages self'.
Proof.
  revert self. induction copy as [|l0 copy IH]; intros self Hs Hret Hin Hb.
  { by apply elem_of_nil in Hin. }
  simpl in Hret.
  destruct (run_sending send_all send_all_sending (body l0 data)
              (observe (EvListener l0 data) self) Hs)
    as (s1 & evs & Hf1 & (_ & _ & Hs1 & _) & _).
  pose proof (run_keeps_queued (body l0 data)
                (observe (EvListener l0 data) self) s1 (m, file, line) Hs Hf1)
    as Hq1.
  destruct (run send_all (body l0 data) (observe (EvListener l0 data) self))
    as [s|exc s|] eqn:Er; simpl in *; [|done|done]. injection Hf1 as ->.
  assert (_sending s1 = true) as Hs1' by (by rewrite Hs1).
  destruct (decide (l0 = l)) as [->|Hne].
  - rewrite Hb in Er. simpl in Er.
    rewrite (send_body_sending send_all send_all_sending) in Er by done.
    simpl in Er.
    assert ((m, file, line) ∈ _messages s1) as Hq.
    { eapply (run_keeps_queued rest); [|by rewrite Er|]; [done|].
      simpl. set_solver. }
    destruct (call_each_keeps copy data s1 self' Hs1') as (_ & Hk & _);
      [by rewrite Hret|]. by apply Hk.
  - apply (IH s1); try done. set_solver.
Qed.

Section Loop.
Variable listener : MessageListener.
Variable kind : MessageType.
Hypothesis iter_elements : ∀ listeners, iter listeners ≡ₚ elements listeners.
Hypothesis no_raise : ∀ l m, never_raises (body l m).
Hypothesis stays : ∀ l m, keeps_subscribed listener (body l m).
Hypothesis echo :
  ∀ m, Message_message_type m = kind →
       ∃ m' file line rest,
         body listener m = CallSend m' file line rest
         ∧ Message_message_type m' = kind.

Lemma while_messages_echo fuel self :
  _sending self = true →
  listener ∈ registered kind self →
  (∃ entry, entry ∈ _messages self ∧ Message_message_type entry.1.1 = kind) →
  while_messages body iter send_all fuel self = OutOfFuel.
Proof.
  revert self. induction fuel as [|fuel IH]; intros self Hs Hreg (e0 & Hin & Hk).
  { simpl. destruct (_messages self); [by apply elem_of_nil in Hin|done]. }
  destruct (_messages self) as [|entry queue] eqn:Hq;
    [by apply elem_of_nil in Hin|].
  rewrite (while_messages_cons body iter send_all fuel self entry queue Hq).
  set (s0 := set_messages queue self).
  assert (_sending s0 = true) as Hs0 by done.
  destruct (_send_body_sending body iter send_all send_all_sending entry s0 Hs0)
    as (s1 & evs & called & Hf & Hext & Hc & Hp & Hret & Hx & Hr & Hu).
  assert (_send_body body iter send_all entry s0 = Returned s1) as Hsend.
  { apply Hr, Forall_forall. intros l _. apply no_raise. }
  rewrite Hsend. cbn [and_then].
  pose proof Hsend as Hcall. unfold _send_body in Hcall.
  pose proof (listeners_getitem_fst (Message_message_type entry.1.1)
                (observe (EvDebugSend entry) s0)) as Hfst.
  pose proof (listeners_getitem_snd (Message_message_type entry.1.1)
                (observe (EvDebugSend entry) s0))
    as (Hreg0 & _ & Hm0 & Hsn0 & _).
  destruct (listeners_getitem (Message_message_type entry.1.1)
              (observe (EvDebugSend entry) s0)) as [ls s0'].
  simpl in Hfst, Hreg0, Hm0, Hsn0, Hcall.
  assert (_sending s0' = true) as Hs0' by (by rewrite Hsn0).
  destruct (call_each_keeps (iter ls) entry.1.1 s0' s1 Hs0')
    as (Hs1 & Hkq & Hkr); [by rewrite Hcall|].
  apply IH; [done| |].
  - apply Hkr; [intros; apply stays|]. by rewrite Hreg0.
  - apply elem_of_cons in Hin as [->|Hin].
    + destruct (echo entry.1.1 Hk) as (m' & file & line & rest & Hb & Hk').
      exists (m', file, line). split; [|done].
      eapply (call_each_queues (iter ls)); [exact Hs0'|exact Hcall| |exact Hb].
      rewrite iter_elements, elem_of_elements, Hfst, Hk. done.
    + exists e0. split; [|done]. apply Hkq. by rewrite Hm0.
Qed.
End Loop.
End Echo.

Section EchoMethods.
Context {DeviceType EventCombination : Type}.
Implicit Types (self : MessageBroker DeviceType EventCombination).
Variable body :
  MessageListener → Message DeviceType EventCombination →
  Code DeviceType EventCombination.
Variable iter : gset MessageListener → list MessageListener.
Hypothesis iter_elements : ∀ listeners, iter listeners ≡ₚ elements listeners.

(** X3. A listener that answers every message of a type by sending a
    message of that type keeps the queue from getting empty: [send] of
    such a message on an idle broker does not return, whatever the
    fuel, when no listener raises and none unsubscribes it. *)
Theorem send_to_an_echo_never_returns fuel listener data file line self :
  _sending self = false →
  listener ∈ registered (Message_message_type data) self →
  (∀ l m, never_raises (body l m)) →
  (∀ l m, keeps_subscribed listener (body l m)) →
  (∀ m, Message_message_type m = Message_message_type data →
        ∃ m' file' line' rest,
          body listener m = CallSend m' file' line' rest
          ∧ Message_message_type m' = Message_message_type data) →
  send body iter fuel data file line self = OutOfFuel.
Proof.
  intros Hs Hreg Hnr Hst Hecho. unfold send, send_body.
  destruct fuel as [|fuel]; [by simpl; rewrite Hs|].
  rewrite _send_all_unfold by done.
  rewrite (while_messages_echo body iter (_send_all body iter fuel)
             (_send_all_sending body iter fuel) listener
             (Message_message_type data) iter_elements Hnr Hst Hecho);
    try done.
  exists (data, file, line). split; [|done]. simpl. set_solver.
Qed.
End EchoMethods.

(** * More of the messages *)

Section Enum.
(** X8. The enumeration has twenty members and no alias: the values are
    the names, every member is found again by its value, and a value
    that no member has is refused. *)
Theorem MessageType_values_are_the_names :
  (∀ k, MessageType_value k = MessageType.name k)
  ∧ (∀ k, MessageType_of_value (MessageType_value k) = Some k)
  ∧ (∀ value k, MessageType_of_value value = Some k →
                MessageType_value k = value)
  ∧ (∀ value, MessageType_of_value value = None
              ↔ ∀ k, MessageType_value k ≠ value)
  ∧ NoDup MessageType_members
  ∧ length MessageType_members = 20
  ∧ ∀ k, k ∈ MessageType_members.
Proof.
  assert (∀ k, k ∈ MessageType_members) as Hall.
  { intros k. apply list_elem_of_In. destruct k; simpl; tauto. }
  split_and!; [by intros []|by intros []| | | |done|done].
  - intros value k Hf. apply find_some in Hf as [_ Hf].
    by apply String.eqb_eq in Hf.
  - intros value. split.
    + intros Hf k Hk.
      pose proof (find_none _ _ Hf k) as Hn. simpl in Hn.
      rewrite Hk, String.eqb_refl in Hn.
      specialize (Hall k). apply list_elem_of_In in Hall. by specialize (Hn Hall).
    + intros Hne. destruct (MessageType_of_value value) as [k|] eqn:E; [|done].
      apply find_some in E as [_ E]. apply String.eqb_eq in E.
      by destruct (Hne k).
  - apply NoDup_ListNoDup. repeat constructor; simpl; intuition discriminate.
Qed.
End Enum.

Section Kept.
Implicit Types (s : list ascii) (c : ascii).

Lemma match_groups_not_kept fuel s :
  Forall (λ c, is_kept c = false) (take (match_groups fuel s) s).
Proof.
  revert s. induction fuel as [|fuel IH]; intros s; simpl; [by rewrite take_0|].
  destruct (match_group s) as [g|] eqn:Eg; [|by rewrite take_0].
  destruct (match_group_Some s g Eg) as (ds & rest & -> & _ & Hds & ->).
  rewrite drop_group.
  change (ds ++ ","%char :: " "%char :: rest)
    with (ds ++ [","%char; " "%char] ++ rest).
  rewrite app_assoc.
  replace (length ds + 2) with (length (ds ++ [","%char; " "%char]))
    by (rewrite length_app; simpl; lia).
  rewrite take_app_add'  by done.
  apply Forall_app. split; [|apply IH].
  apply Forall_app. split; [|by repeat constructor].
  eapply Forall_impl; [exact Hds|]. intros c Hc. unfold is_kept. by rewrite Hc.
Qed.

Lemma re_match_not_kept s n :
  re_match s = Some n → Forall (λ c, is_kept c = false) (take n s).
Proof.
  unfold re_match. destruct (_ =? 0); [done|]. intros [= <-].
  apply match_groups_not_kept.
Qed.

Lemma filter_not_kept s :
  Forall (λ c, is_kept c = false) s → filter (λ c, is_kept c = true) s = [].
Proof.
  induction 1 as [|c s Hc _ IH]; [done|].
  rewrite filter_cons_False by (by rewrite Hc). done.
Qed.

Lemma compress_kept s :
  filter (λ c, is_kept c = true) (compress s)
  = filter (λ c, is_kept c = true) s.
Proof.
  remember (length s) as k eqn:Hk.
  assert (length s ≤ k) as Hle by lia. clear Hk. revert s Hle.
  induction k as [|k IH]; intros s Hle.
  { by destruct s; [|simpl in Hle; lia]. }
  destruct s as [|c s]; [done|]. simpl in Hle.
  rewrite compress_cons.
  destruct (re_match (c :: s)) as [n|] eqn:Er;
    [destruct (match_group (c :: s)) as [g|] eqn:Eg|].
  - destruct (re_match_Some _ _ Er) as (g' & Eg' & Hgn & Hn).
    rewrite Eg in Eg'. injection Eg' as <-.
    pose proof (match_group_pos _ _ Eg) as [Hg2 _].
    pose proof (re_match_not_kept _ _ Er) as Hnk.
    assert (filter (λ c, is_kept c = true) (c :: s)
            = filter (λ c, is_kept c = true) (drop n (c :: s))) as ->.
    { rewrite <-(take_drop n (c :: s)) at 1.
      by rewrite filter_app, filter_not_kept. }
    rewrite !filter_app, IH by (rewrite length_drop; simpl in *; lia).
    rewrite (filter_not_kept (take g (c :: s))).
    + by destruct (g =? n).
    + replace (take g (c :: s)) with (take g (take n (c :: s)))
        by (rewrite take_take; f_equal; lia).
      by apply Forall_take.
  - rewrite !filter_cons. case_decide; [f_equal|]; apply IH; lia.
  - rewrite !filter_cons. case_decide; [f_equal|]; apply IH; lia.
Qed.
End Kept.

Section Loops.
(** X9. The loop of [UInputsData.__str__] goes through the matches from the
    last to the first and cuts the text at the positions they have in
    the text it started with; the result is what one pass from left to
    right gives, which leaves of every sequence of two groups or more
    its first group and an ellipsis. The loop touches digits, commas
    and spaces only: the other characters of the text, full stops
    apart, are in the result in the order they had. *)
Theorem str_loop_is_one_pass (s : list ascii) :
  shorten s = compress s
  ∧ filter (λ c, is_kept c = true) (shorten s)
    = filter (λ c, is_kept c = true) s.
Proof.
  split; [apply shorten_compress|].
  rewrite shorten_compress. apply compress_kept.
Qed.

(** X10. [Signal.__eq__] compares the textual forms, of whatever the other
    object is: a [Signal] is equal to the [str] that is its textual
    form, and is not equal to any [UInputsData]. *)
Theorem Signal_eq_compares_renderings :
  (∀ A `(Str A) (self : Signal) (other : A),
     Signal_eq self other = true ↔ str other = str self)
  ∧ (∀ self : Signal, Signal_eq self (str self : string) = true)
  ∧ (∀ (self : Signal) (other : UInputsData), Signal_eq self other = false).
Proof.
  split_and!.
  - intros A ? self other. unfold Signal_eq. rewrite String.eqb_eq.
    split; by intros ->.
  - intros self. unfold Signal_eq. apply String.eqb_refl.
  - intros self other. unfold Signal_eq.
    apply String.eqb_neq. unfold str at 2, UInputsData_str.
    rewrite shorten_compress. simpl list_ascii_of_string.
    rewrite compress_cons_None by done. simpl. unfold str, Signal_str.
    cbn. discriminate.
Qed.
End Loops.

(** * The caller of [send] *)

Section Caller.
Implicit Types (s : list ascii) (stack outer : list FrameSummary).

Lemma rfind_None c s : c ∉ s → rfind c s = (-1)%Z.
Proof.
  induction s as [|c' s IH]; [done|]. intros [Hne Hs]%not_elem_of_cons.
  simpl. rewrite IH by done.
  destruct (Ascii.eqb c' c) eqn:E; [|done].
  apply Ascii.eqb_eq in E. by subst.
Qed.

Lemma rfind_bound c s : (-1 ≤ rfind c s < Z.of_nat (length s))%Z.
Proof.
  induction s as [|c' s IH]; simpl; [lia|].
  destruct (rfind c s) eqn:E; try lia.
  destruct (Ascii.eqb c' c); lia.
Qed.

(** What follows the last [c] has no [c]. *)
Lemma rfind_drop c s : c ∉ drop (Z.to_nat (rfind c s + 1)) s.
Proof.
  induction s as [|c' s IH]; simpl; [by intros ?%elem_of_nil|].
  pose proof (rfind_bound c s) as Hb.
  destruct (rfind c s) as [|p|p] eqn:E.
  - simpl in *. done.
  - replace (Z.to_nat (Z.pos p + 1 + 1)) with (S (Z.to_nat (Z.pos p + 1)))
      by lia. done.
  - assert (Z.neg p = (-1)%Z) as Hp by lia. rewrite Hp in IH. simpl in IH.
    destruct (Ascii.eqb c' c) eqn:Ec; simpl; [done|].
    apply not_elem_of_cons. split; [|done].
    intros ->. by rewrite Ascii.eqb_refl in Ec.
Qed.

Lemma rfind_app c s1 s2 :
  c ∉ s2 → rfind c (s1 ++ c :: s2) = Z.of_nat (length s1).
Proof.
  intros Hs2. induction s1 as [|c' s1 IH]; simpl.
  - by rewrite rfind_None, Ascii.eqb_refl.
  - rewrite IH. destruct (length s1); simpl; lia.
Qed.

Lemma basename_no_slash (p : string) :
  "/"%char ∉ list_ascii_of_string (basename p).
Proof.
  unfold basename. rewrite list_ascii_of_string_of_list_ascii.
  apply rfind_drop.
Qed.

Lemma basename_app (dir file : string) :
  "/"%char ∉ list_ascii_of_string file →
  basename (dir +:+ "/" +:+ file) = file.
Proof.
  intros Hf. unfold basename. rewrite !list_ascii_of_string_app.
  simpl. rewrite rfind_app by done.
  replace (Z.to_nat (Z.of_nat (length (list_ascii_of_string dir)) + 1))
    with (length (list_ascii_of_string dir ++ ["/"%char]))
    by (rewrite length_app; simpl; lia).
  change (list_ascii_of_string dir ++ "/"%char :: list_ascii_of_string file)
    with (list_ascii_of_string dir ++ ["/"%char] ++ list_ascii_of_string file).
  rewrite app_assoc, drop_app_length.
  apply string_of_list_ascii_of_string.
Qed.

(** X7. [get_caller] names the frame [position - 1] calls above its own:
    with the default 3, the caller of the method that called
    [get_caller], so the caller of [send]; when [signal] called [send],
    that is [signal] itself. The file is given without its directories
    and a missing line number as 0. A stack with fewer frames gives its
    oldest frame; position 0 raises [IndexError]. *)
Theorem get_caller_names_the_frame_above :
  (∀ outer caller method own,
     get_caller 3 (outer ++ [caller; method; own])
     = inr (basename (filename caller), default 0%Z (lineno caller)))
  ∧ (∀ (position : nat) outer frame inner,
       length inner + 1 = position →
       get_caller (Z.of_nat position) (outer ++ frame :: inner)
       = inr (basename (filename frame), default 0%Z (lineno frame)))
  ∧ (∀ (position : nat) frame stack,
       length (frame :: stack) ≤ position →
       get_caller (Z.of_nat position) (frame :: stack)
       = inr (basename (filename frame), default 0%Z (lineno frame)))
  ∧ (∀ stack, get_caller 0 stack = inl IndexError)
  ∧ (∀ position stack file line,
       get_caller position stack = inr (file, line) →
       "/"%char ∉ list_ascii_of_string file)
  ∧ (∀ dir file : string,
       "/"%char ∉ list_ascii_of_string file →
       basename (dir +:+ "/" +:+ file) = file).
Proof.
  assert (∀ (position : nat) outer frame inner,
            length inner + 1 = position →
            get_caller (Z.of_nat position) (outer ++ frame :: inner)
            = inr (basename (filename frame), default 0%Z (lineno frame)))
    as Hpos.
  { intros position outer frame inner Hlen. unfold get_caller, extract_stack.
    replace (0 <=? Z.of_nat position)%Z with true by (symmetry; lia).
    rewrite length_app. simpl length.
    replace (length outer + S (length inner) - Z.to_nat (Z.of_nat position))
      with (length outer) by lia.
    by rewrite drop_app_length. }
  split_and!.
  - intros outer caller method own.
    by apply (Hpos 3 outer caller [method; own]).
  - done.
  - intros position frame stack Hlen. unfold get_caller, extract_stack.
    replace (0 <=? Z.of_nat position)%Z with true by (symmetry; lia).
    replace (length (frame :: stack) - Z.to_nat (Z.of_nat position)) with 0
      by lia.
    done.
  - intros stack. unfold get_caller, extract_stack. simpl.
    rewrite Nat.sub_0_r. by rewrite drop_all.
  - intros position stack file line. unfold get_caller.
    destruct (extract_stack position stack) as [|tb ?]; [done|].
    intros [= <- _]. apply basename_no_slash.
  - apply basename_app.
Qed.
End Caller.

(** * The components *)

Section Dialog.
Implicit Types (s h after : string).

Lemma str_split_spec sep s :
  ∃ h t,
    str_split sep s = h :: t
    ∧ (sep ∉ list_ascii_of_string h)
    ∧ ((t = [] ∧ s = h)
       ∨ ∃ after, t = str_split sep after ∧ s = (h +:+ String sep after)%string).
Proof.
  induction s as [|c s (h & t & Hsp & Hh & Hcases)]; simpl.
  - exists ""%string, []. split_and!; [done|by intros ?%elem_of_nil|by left].
  - destruct (Ascii.eqb c sep) eqn:Ec.
    + apply Ascii.eqb_eq in Ec as ->.
      exists ""%string, (str_split sep s).
      split_and!; [done|by intros ?%elem_of_nil|]. right. by exists s.
    + rewrite Hsp. exists (String c h), t. split_and!; [done| |].
      * simpl. apply not_elem_of_cons. split; [|done].
        intros ->. by rewrite Ascii.eqb_refl in Ec.
      * destruct Hcases as [[-> ->]|(after & -> & ->)]; [by left|].
        right. by exists after.
Qed.

Lemma str_split_not_nil sep s : str_split sep s ≠ [].
Proof. by destruct (str_split_spec sep s) as (h & t & -> & _). Qed.

(** Joining the chunks with spaces puts a space where each separator
    was. *)
Lemma replace_newlines_cons c s :
  replace_newlines (String c s)
  = String (if Ascii.eqb c newline then " "%char else c) (replace_newlines s).
Proof. done. Qed.

Lemma join_str_split s :
  String.concat " " (str_split newline s) = replace_newlines s.
Proof.
  induction s as [|c s IH]; [done|].
  rewrite replace_newlines_cons, <-IH. cbn [str_split].
  destruct (Ascii.eqb c newline);
    (destruct (str_split newline s) as [|h t] eqn:E;
     [by apply str_split_not_nil in E|]); [done|by destruct t].
Qed.

Lemma replace_newlines_empty s : replace_newlines s = ""%string ↔ s = ""%string.
Proof. destruct s; [done|]. unfold replace_newlines. simpl. split; done. Qed.

(** X11. [_on_user_confirm_request] shows the text before the first line
    break as the primary text and what follows it, with spaces for the
    line breaks, as the secondary text, when something follows; it
    then adds the two buttons, runs the dialog and calls the callback of
    the request, with whether the answer was ACCEPT. When the callback
    returns, the handler hides the dialog and returns; when the
    callback raises, the handler raises the same exception and the
    dialog is not hidden. *)
Theorem confirm_dialog_shows_and_answers
    (call_respond : nat → bool → option Exn) (msg : UserConfirmRequest)
    (response : Z) :
  let answer := bool_decide (response = Gtk.ResponseType_ACCEPT) in
  ∃ primary shown,
    (newline ∉ list_ascii_of_string primary)
    ∧ ((request_msg msg = primary
        ∧ shown = Dialog.MessageDialog primary
                  :: dialog_buttons_and_answer msg response)
       ∨ ∃ after,
           request_msg msg = (primary +:+ String newline after)%string
           ∧ shown = Dialog.MessageDialog primary
                     :: (if decide (after = ""%string) then []
                         else [Dialog.format_secondary_text
                                 (replace_newlines after)])
                     ++ dialog_buttons_and_answer msg response)
    ∧ _on_user_confirm_request call_respond msg response
      = match call_respond (respond msg) answer with
        | Some exc => (shown, Some exc)
        | None => (shown ++ [Dialog.hide], None)
        end
    ∧ answers shown = [(respond msg, answer)]
    ∧ (Dialog.hide ∉ shown).
Proof.
  intros answer. unfold _on_user_confirm_request. fold answer.
  destruct (str_split_spec newline (request_msg msg))
    as (primary & rest & -> & Hp & Hcases).
  exists primary.
  destruct Hcases as [[-> ->]|(after & -> & ->)].
  - exists (Dialog.MessageDialog primary
            :: dialog_buttons_and_answer msg response).
    split_and!; [done|by left|done|done|].
    unfold dialog_buttons_and_answer. set_solver.
  - exists (Dialog.MessageDialog primary
            :: (if decide (after = ""%string) then []
                else [Dialog.format_secondary_text (replace_newlines after)])
            ++ dialog_buttons_and_answer msg response).
    rewrite join_str_split.
    split_and!; [done|right; by exists after| | |].
    + destruct (decide (after = ""%string)) as [->|Hne]; [done|].
      rewrite decide_False; [done|]. by rewrite replace_newlines_empty.
    + by destruct (decide (after = ""%string)).
    + unfold dialog_buttons_and_answer.
      destruct (decide (after = ""%string)); set_solver.
Qed.
End Dialog.

Section FlowBox.
Implicit Types (children : list (list FlowBoxEntry.t)).

Lemma show_active_entry_loop_ok name children :
  Forall (λ child, child ≠ []) children →
  ∃ children',
    FlowBoxWrapper.show_active_entry_loop name children = (None, children')
    ∧ omap head children'
      = (λ entry,
           FlowBoxEntry.show_active
             (bool_decide (Some (FlowBoxEntry.name entry) = name)) entry)
        <$> omap head children
    ∧ tail <$> children' = tail <$> children.
Proof.
  induction 1 as [|child children Hne _ (children' & Hl & Hh & Ht)].
  { by exists []. }
  destruct child as [|entry others]; [done|]. simpl. rewrite Hl.
  eexists. split; [done|]. simpl. split; f_equal; done.
Qed.

Lemma show_active_entry_loop_again name children children' :
  FlowBoxWrapper.show_active_entry_loop name children = (None, children') →
  FlowBoxWrapper.show_active_entry_loop name children' = (None, children').
Proof.
  revert children'. induction children as [|child children IH];
    intros children'; simpl.
  { by intros [= <-]. }
  destruct child as [|entry others]; [done|].
  destruct (FlowBoxWrapper.show_active_entry_loop name children) as [exc c] eqn:E.
  intros [= -> <-]. simpl. by rewrite (IH c).
Qed.

Lemma show_active_entry_loop_raises name before after :
  Forall (λ child, child ≠ []) before →
  ∃ before',
    FlowBoxWrapper.show_active_entry_loop name (before ++ [] :: after)
    = (Some IndexError, before' ++ [] :: after)
    ∧ omap head before' = shown_for name <$> omap head before
    ∧ tail <$> before' = tail <$> before.
Proof.
  induction 1 as [|child before Hne _ (before' & Hl & Hh & Ht)].
  { by exists []. }
  destruct child as [|entry others]; [done|]. simpl. rewrite Hl.
  exists ((shown_for name entry :: others) :: before').
  split; [done|]. simpl. split; f_equal; done.
Qed.

Lemma filter_active_nil name (entries : list FlowBoxEntry.t) :
  (∀ entry, entry ∈ entries → Some (FlowBoxEntry.name entry) ≠ name) →
  filter (λ entry, FlowBoxEntry.active entry = true)
    (shown_for name <$> entries) = [].
Proof.
  induction entries as [|e entries IH]; [done|]. intros Hall.
  rewrite fmap_cons, filter_cons_False.
  - apply IH. intros entry Hin. apply Hall. by right.
  - simpl. rewrite bool_decide_eq_true. apply Hall. by left.
Qed.

Lemma filter_active_le name (entries : list FlowBoxEntry.t) :
  NoDup (FlowBoxEntry.name <$> entries) →
  length (filter (λ entry, FlowBoxEntry.active entry = true)
            (shown_for name <$> entries)) ≤ 1.
Proof.
  induction entries as [|e entries IH]; [simpl; lia|].
  rewrite !fmap_cons. intros [Hn Hnd]%NoDup_cons.
  rewrite filter_cons. case_decide as He; [|by apply IH].
  simpl in He. apply bool_decide_eq_true in He.
  rewrite filter_active_nil; [simpl; lia|].
  intros entry Hin Hname. apply Hn. rewrite <-He in Hname.
  injection Hname as <-. by apply list_elem_of_fmap_2.
Qed.

(** X15. [show_active_entry] makes active the entries of the given name and
    no other: when every child of the flowbox has a child, it raises
    nothing, each entry is active exactly when its name is the one
    given, so none is for [None] and at most one when the names are
    distinct; names, icons and the other widgets stay, and showing the
    same name again changes nothing. A child of the flowbox without
    children raises [IndexError] when the entries before it have been
    shown, and leaves the ones after it as they were. *)
Theorem show_active_entry_marks_the_named (name : option string)
    (self : FlowBoxWrapper.t) :
  (Forall (λ child, child ≠ []) (FlowBoxWrapper._gui self) →
   ∃ self',
     FlowBoxWrapper.show_active_entry name self = (None, self')
     ∧ flow_box_entries self' = shown_for name <$> flow_box_entries self
     ∧ tail <$> FlowBoxWrapper._gui self' = tail <$> FlowBoxWrapper._gui self
     ∧ (∀ entry, entry ∈ flow_box_entries self' →
                 FlowBoxEntry.active entry = true
                 ↔ Some (FlowBoxEntry.name entry) = name)
     ∧ (NoDup (FlowBoxEntry.name <$> flow_box_entries self) →
        length (filter (λ entry, FlowBoxEntry.active entry = true)
                  (flow_box_entries self')) ≤ 1)
     ∧ FlowBoxWrapper.show_active_entry name self' = (None, self'))
  ∧ (∀ before after,
       FlowBoxWrapper._gui self = before ++ [] :: after →
       Forall (λ child, child ≠ []) before →
       ∃ before',
         FlowBoxWrapper.show_active_entry name self
         = (Some IndexError, {| FlowBoxWrapper._gui := before' ++ [] :: after |})
         ∧ omap head before' = shown_for name <$> omap head before
         ∧ tail <$> before' = tail <$> before).
Proof.
  split.
  - intros Hne.
    destruct (show_active_entry_loop_ok name (FlowBoxWrapper._gui self) Hne)
      as (children' & Hl & Hh & Ht).
    exists {| FlowBoxWrapper._gui := children' |}. unfold FlowBoxWrapper.show_active_entry.
    rewrite Hl. split_and!; try done.
    + intros entry. unfold flow_box_entries. simpl. rewrite Hh.
      intros (e0 & -> & _)%list_elem_of_fmap. simpl.
      apply bool_decide_eq_true.
    + intros Hnd. unfold flow_box_entries. simpl. rewrite Hh.
      by apply filter_active_le.
    + simpl. by rewrite (show_active_entry_loop_again name (FlowBoxWrapper._gui self)).
  - intros before after Hg Hne. unfold FlowBoxWrapper.show_active_entry. rewrite Hg.
    destruct (show_active_entry_loop_raises name before after Hne)
      as (before' & -> & Hh & Ht).
    by exists before'.
Qed.
End FlowBox.

Section Crumbs.
Context {EventCombination : Type} `{!EqDecision EventCombination}.
Variable empty_combination : EventCombination.
Variable beautify : EventCombination → string.
Variable gettext : string → string.
Implicit Types (self : Breadcrumbs) (call : BreadcrumbsCall EventCombination).

Lemma _render_gui self :
  _gui (_render self) = String.concat "  /  " (shown_parts self).
Proof.
  unfold _render, shown_parts.
  by destruct (show_device_group self), (show_preset self),
    (show_mapping self).
Qed.

Lemma Breadcrumbs_handle_fields self call :
  let self' := Breadcrumbs_handle empty_combination beautify gettext self call in
  show_device_group self' = show_device_group self
  ∧ show_preset self' = show_preset self
  ∧ show_mapping self' = show_mapping self
  ∧ _group_key self' = default (_group_key self) (group_of call)
  ∧ _preset_name self' = default (_preset_name self) (preset_of call)
  ∧ _mapping_name self'
    = default (_mapping_name self)
        (mapping_of empty_combination beautify gettext call)
  ∧ _gui self' = String.concat "  /  " (shown_parts self').
Proof.
  destruct call as [data|data|mapping]; cbv zeta;
    cbn [Breadcrumbs_handle group_of preset_of mapping_of].
  - unfold _on_group_changed. rewrite _render_gui. by split_and!.
  - unfold _on_preset_changed. rewrite _render_gui. split_and!; try done.
    cbn. destruct (name data) as [n|]; simpl; [|done]. by case_decide.
  - unfold _on_mapping_changed. rewrite _render_gui. split_and!; try done.
    cbn. destruct (MappingData.name mapping) as [[|c n]|]; simpl;
      by repeat case_decide.
Qed.

(** X13. After any calls of its handlers, in any order, the breadcrumbs
    hold the name given by the last call for each part (the name
    before, when there was no call for the part), the flags are as they
    were, and, once a handler was called, the label is the names of the
    parts that the flags show, group, preset and mapping in this order,
    joined by "  /  ": a call for a part that is not shown does not
    change the label. A preset without a name gives the empty name; a
    mapping without a name, or with an empty one, gives its
    combination, and "empty mapping" (translated) when the combination
    is empty. *)
Theorem breadcrumbs_show_the_latest_names
    (calls : list (BreadcrumbsCall EventCombination)) self :
  let self' :=
    foldl (Breadcrumbs_handle empty_combination beautify gettext) self calls in
  show_device_group self' = show_device_group self
  ∧ show_preset self' = show_preset self
  ∧ show_mapping self' = show_mapping self
  ∧ _group_key self' = default (_group_key self) (last (omap group_of calls))
  ∧ _preset_name self'
    = default (_preset_name self) (last (omap preset_of calls))
  ∧ _mapping_name self'
    = default (_mapping_name self)
        (last (omap (mapping_of empty_combination beautify gettext) calls))
  ∧ _gui self'
    = match calls with
      | [] => _gui self
      | _ => String.concat "  /  " (shown_parts self')
      end.
Proof.
  induction calls as [|call calls IH] using rev_ind; [done|].
  rewrite foldl_snoc. cbv zeta in IH.
  destruct IH as (H1 & H2 & H3 & H4 & H5 & H6 & _).
  destruct (Breadcrumbs_handle_fields
              (foldl (Breadcrumbs_handle empty_combination beautify gettext)
                 self calls) call)
    as (G1 & G2 & G3 & G4 & G5 & G6 & G7).
  cbv zeta. rewrite G1, G2, G3, G4, G5, G6, H1, H2, H3, H4, H5, H6.
  rewrite !omap_app, !last_app. split_and!; try done.
  - simpl. by destruct (group_of call).
  - simpl. by destruct (preset_of call).
  - simpl. by destruct (mapping_of empty_combination beautify gettext call).
  - destruct (calls ++ [call]) eqn:E; [by destruct calls|]. exact G7.
Qed.
End Crumbs.

Section Wiring.
Context {DeviceType EventCombination : Type}.
Implicit Types (self broker : MessageBroker DeviceType EventCombination).
Variable body :
  MessageListener → Message DeviceType EventCombination →
  Code DeviceType EventCombination.
Variable iter : gset MessageListener → list MessageListener.
Hypothesis iter_elements : ∀ listeners, iter listeners ≡ₚ elements listeners.

(** X12. A request sent on an idle broker that a [ConfirmCancelDialog] was
    made for, when no listener raises or sends on it: [send] returns
    and has called the handler of the dialog once, with the request;
    and the handler, whatever the user answers, calls the callback of
    the request once, with whether the answer was ACCEPT, and ends as
    the callback does. *)
Theorem confirm_dialog_is_asked_once handler fuel
    (msg : UserConfirmRequest) file line broker :
  _sending broker = false → _messages broker = [] → 2 ≤ fuel →
  well_behaved_on body (MUserConfirmRequest msg) →
  let broker1 := ConfirmCancelDialog___init__ handler broker in
  let entry := (MUserConfirmRequest msg, file, line) in
  ∃ broker' evs,
    send body iter fuel (MUserConfirmRequest msg) file line broker1
    = Returned broker'
    ∧ observed broker'
      = observed broker1
        ++ [EvAppend entry; EvSending true; EvDebugSend entry] ++ evs
        ++ [EvSending false]
    ∧ length (filter (λ l, l = handler) (calls evs).*1) = 1
    ∧ Forall (λ c, c.2 = MUserConfirmRequest msg) (calls evs)
    ∧ ∀ call_respond response,
        ∃ events,
          _on_user_confirm_request call_respond msg response
          = (events,
             call_respond (respond msg)
               (bool_decide (response = Gtk.ResponseType_ACCEPT)))
          ∧ answers events
            = [(respond msg,
                bool_decide (response = Gtk.ResponseType_ACCEPT))].
Proof.
  intros Hs Hq Hfuel Hwb broker1 entry.
  destruct (subscribe_fields MessageType.user_confirm_request handler broker)
    as (Hm1 & Hs1 & _).
  destruct (send_idle_delivers body iter fuel (MUserConfirmRequest msg)
              file line broker1)
    as (broker' & evs & Hret & Ho & Hc & _); try done.
  { unfold broker1, ConfirmCancelDialog___init__. by rewrite Hs1. }
  { unfold broker1, ConfirmCancelDialog___init__. by rewrite Hm1. }
  exists broker', evs. split_and!; try done.
  - rewrite Hc, callers_fmap, (count_iter iter iter_elements).
    rewrite decide_True; [done|]. simpl.
    unfold broker1, ConfirmCancelDialog___init__.
    rewrite registered_subscribe, decide_True by done. set_solver.
  - rewrite Hc. apply Forall_fmap, Forall_forall. by intros.
  - intros call_respond response. unfold _on_user_confirm_request.
    destruct (str_split_spec newline (request_msg msg))
      as (primary & rest & -> & _).
    destruct (call_respond _ _); (eexists; split; [done|]);
      by destruct (decide _).
Qed.

(** X14. A message sent on an idle broker that [Breadcrumbs] were made for,
    with three handlers that were not registered before: the handler
    for the group is called once when the message has the type
    [group], and not otherwise, and so the two others for [preset]
    and [mapping]. The breadcrumbs start with empty names and leave the
    label as it is until a handler is called. *)
Theorem breadcrumbs_handlers_get_their_types
    (on_group on_preset on_mapping : MessageListener) fuel data file line
    broker label (show_device_group show_preset show_mapping : bool) :
  _sending broker = false → _messages broker = [] → 2 ≤ fuel →
  well_behaved_on body data →
  on_group ≠ on_preset → on_group ≠ on_mapping → on_preset ≠ on_mapping →
  unregistered on_group broker → unregistered on_preset broker →
  unregistered on_mapping broker →
  let made :=
    Breadcrumbs___init__ on_group on_preset on_mapping broker label
      show_device_group show_preset show_mapping in
  let entry := (data, file, line) in
  let count l evs := length (filter (λ l', l' = l) (calls evs).*1) in
  _gui made.2 = label
  ∧ _group_key made.2 = ""%string
  ∧ _preset_name made.2 = ""%string
  ∧ _mapping_name made.2 = ""%string
  ∧ ∃ broker' evs,
      send body iter fuel data file line made.1 = Returned broker'
      ∧ observed broker'
        = observed made.1
          ++ [EvAppend entry; EvSending true; EvDebugSend entry] ++ evs
          ++ [EvSending false]
      ∧ count on_group evs
        = (if decide (Message_message_type data = MessageType.group)
           then 1 else 0)
      ∧ count on_preset evs
        = (if decide (Message_message_type data = MessageType.preset)
           then 1 else 0)
      ∧ count on_mapping evs
        = (if decide (Message_message_type data = MessageType.mapping)
           then 1 else 0).
Proof.
  intros Hs Hq Hfuel Hwb Hgp Hgm Hpm Hug Hup Hum made entry count.
  split_and!; try done.
  set (broker1 := made.1).
  assert (_sending broker1 = false ∧ _messages broker1 = []) as [Hs1 Hq1].
  { unfold broker1, made, Breadcrumbs___init__, _connect_message_listener.
    simpl.
    repeat match goal with
      | |- context [subscribe ?k ?l ?b] =>
          destruct (subscribe_fields k l b) as (-> & -> & _)
      end. done. }
  assert (∀ key,
            registered key broker1
            = registered key broker
              ∪ (if decide (key = MessageType.group) then {[on_group]} else ∅)
              ∪ (if decide (key = MessageType.preset) then {[on_preset]} else ∅)
              ∪ (if decide (key = MessageType.mapping) then {[on_mapping]}
                 else ∅)) as Hreg.
  { intros key.
    unfold broker1, made, Breadcrumbs___init__, _connect_message_listener.
    simpl. rewrite !registered_subscribe.
    repeat case_decide; subst; try done; set_solver. }
  destruct (send_idle_delivers body iter fuel data file line broker1)
    as (broker' & evs & Hret & Ho & Hc & _); try done.
  exists broker', evs. split_and!; try done; unfold count;
    rewrite Hc, callers_fmap, (count_iter iter iter_elements), Hreg.
  - specialize (Hug (Message_message_type data)).
    repeat case_decide; try done; set_solver.
  - specialize (Hup (Message_message_type data)).
    repeat case_decide; try done; set_solver.
  - specialize (Hum (Message_message_type data)).
    repeat case_decide; try done; set_solver.
Qed.
End Wiring.

(** * The properties on the small application *)

Lemma Scenario_iter_elements :
  ∀ listeners : gset MessageListener, elements listeners ≡ₚ elements listeners.
Proof. done. Qed.

Lemma Scenario_broker_consistent : consistent Scenario.broker.
Proof. repeat apply consistent_subscribe. apply consistent___init__. Qed.

Lemma Scenario_never_raises_test1 l :
  never_raises (Scenario.body l (Scenario.signal_of MessageType.test1)).
Proof. do 6 (try destruct l as [|l]); repeat constructor. Qed.

Lemma Scenario_never_raises_test2 l :
  never_raises (Scenario.body l (Scenario.signal_of MessageType.test2)).
Proof. do 6 (try destruct l as [|l]); repeat constructor. Qed.

Lemma Scenario_never_subscribes listener l m :
  never_subscribes listener (Scenario.body l m).
Proof.
  unfold Scenario.body.
  do 6 (try destruct l as [|l]); destruct (Message_message_type m);
    repeat constructor.
Qed.

Lemma Scenario_well_behaved_test2 :
  well_behaved_on Scenario.body (Scenario.signal_of MessageType.test2).
Proof.
  intros l. do 6 (try destruct l as [|l]); split; repeat constructor.
Qed.

(** The listeners of [test1] are called before the listener of the
    [test2] that listener 1 sends meanwhile. *)
Example Scenario_calls_after_test1 :
  calls (observed Scenario.after_test1)
  = [(2, Scenario.signal_of MessageType.test1);
     (1, Scenario.signal_of MessageType.test1);
     (3, Scenario.signal_of MessageType.test2)].
Proof. by vm_compute. Qed.

(** After the exception the entry behind the failing one is still
    queued, and the later [send] dispatches it first. *)
Example Scenario_queue_after_raise :
  _messages Scenario.after_raise
  = [(Scenario.signal_of MessageType.test2, "message_broker.py"%string, 109%Z)]
  ∧ _sending Scenario.after_raise = false
  ∧ calls (observed Scenario.after_later)
    = calls (observed Scenario.after_raise)
      ++ [(3, Scenario.signal_of MessageType.test2);
          (2, Scenario.signal_of MessageType.test1);
          (1, Scenario.signal_of MessageType.test1);
          (3, Scenario.signal_of MessageType.test2)].
Proof. by vm_compute. Qed.

Lemma fifo_delivery_witness :
  consistent Scenario.broker
  ∧ final (send Scenario.body elements 5
             (Scenario.signal_of MessageType.test1) "app.py"%string 10%Z
             Scenario.broker)
    = Some Scenario.after_test1
  ∧ let tr := observed Scenario.after_test1 in
    (∃ evs,
       tr = observed Scenario.broker
            ++ EvAppend (Scenario.signal_of MessageType.test1,
                         "app.py"%string, 10%Z) :: evs)
    ∧ enqueued tr = dispatched tr ++ _messages Scenario.after_test1
    ∧ (∀ p l m, tr !! p = Some (EvListener l m) →
         ∃ i file' line',
           serves tr p = Some i ∧ enqueued tr !! i = Some (m, file', line'))
    ∧ (∀ p1 p2 i j : nat,
         serves tr p1 = Some i → serves tr p2 = Some j → i < j → p1 < p2).
Proof.
  assert (final (send Scenario.body elements 5
                   (Scenario.signal_of MessageType.test1) "app.py"%string
                   10%Z Scenario.broker)
          = Some Scenario.after_test1) as Hfin by (by vm_compute).
  split; [exact Scenario_broker_consistent|]. split; [exact Hfin|].
  exact (fifo_delivery Scenario.body elements Scenario_iter_elements 5
           (Scenario.signal_of MessageType.test1) "app.py"%string 10%Z
           Scenario.broker Scenario.after_test1
           Scenario_broker_consistent Hfin).
Defined.

Lemma one_drain_at_a_time_witness :
  send Scenario.body elements 5 (Scenario.signal_of MessageType.test2)
    "listener.py"%string 7%Z Scenario.draining
  = Returned
      (observe (EvAppend (Scenario.signal_of MessageType.test2,
                          "listener.py"%string, 7%Z))
         (set_messages
            (_messages Scenario.draining
             ++ [(Scenario.signal_of MessageType.test2,
                  "listener.py"%string, 7%Z)]) Scenario.draining))
  ∧ toggles false (flags (observed Scenario.after_test1))
    = Some (_sending Scenario.after_test1)
  ∧ _messages Scenario.after_test1 = []
  ∧ ∃ evs,
      observed Scenario.after_test1
      = observed Scenario.broker
        ++ [EvAppend (Scenario.signal_of MessageType.test1,
                      "app.py"%string, 10%Z); EvSending true] ++ evs
        ++ [EvSending false]
      ∧ flags evs = []
      ∧ dispatched evs
        = _messages Scenario.broker
          ++ [(Scenario.signal_of MessageType.test1, "app.py"%string, 10%Z)]
          ++ enqueued evs.
Proof.
  assert (send Scenario.body elements 5
            (Scenario.signal_of MessageType.test1) "app.py"%string
            10%Z Scenario.broker
          = Returned Scenario.after_test1) as Hret by (by vm_compute).
  split.
  - apply (one_drain_at_a_time Scenario.body elements Scenario_iter_elements
             5 (Scenario.signal_of MessageType.test2) "listener.py"%string
             7%Z Scenario.draining). done.
  - destruct (one_drain_at_a_time Scenario.body elements
                Scenario_iter_elements 5
                (Scenario.signal_of MessageType.test1) "app.py"%string 10%Z
                Scenario.broker) as (_ & H2 & H3).
    split.
    + apply H2; [exact Scenario_broker_consistent|by rewrite Hret].
    + apply H3; [done|exact Hret].
Defined.

(** Listener 2 unsubscribes itself during the dispatch of [test1]: it
    and listener 1 are both called, and only listener 1 is left for the
    next dispatch. *)
Example Scenario_self_unsubscribe :
  ∃ self',
    _send Scenario.body elements 5
      (Scenario.signal_of MessageType.test1, "app.py"%string, 10%Z)
      Scenario.draining = Returned self'
    ∧ calls (observed self')
      = [(2, Scenario.signal_of MessageType.test1);
         (1, Scenario.signal_of MessageType.test1)]
    ∧ elements (registered MessageType.test1 self') = [1].
Proof. eexists. split; [by vm_compute|]. by vm_compute. Qed.

Lemma Scenario_keeps_subscribed listener l m :
  listener ≠ 2 → keeps_subscribed listener (Scenario.body l m).
Proof.
  intros Hne. unfold Scenario.body.
  do 6 (try destruct l as [|l]); destruct (Message_message_type m);
    repeat constructor; done.
Qed.

Lemma Latecomer_never_raises l m : never_raises (Latecomer.body l m).
Proof. do 2 (try destruct l as [|l]); repeat constructor. Qed.

Lemma Latecomer_keeps_subscribed listener l m :
  keeps_subscribed listener (Latecomer.body l m).
Proof. do 2 (try destruct l as [|l]); repeat constructor. Qed.

Lemma Latecomer_never_subscribes listener l m :
  listener ≠ 2 → never_subscribes listener (Latecomer.body l m).
Proof.
  intros Hne. do 2 (try destruct l as [|l]); repeat constructor; done.
Qed.

(** Listener 2 of the application unsubscribes itself while [test1] is
    dispatched: it is called in this dispatch, is registered for
    nothing afterwards, and is not called in the next dispatch of
    [test1], where listener 1 is. The latecomer is subscribed by
    listener 1 while [test1] is dispatched: it is not called in this
    dispatch, is registered afterwards, and is called in the next. *)
Lemma dispatch_uses_a_copy_witness :
  let test1 := Scenario.signal_of MessageType.test1 in
  (_sending Scenario.draining = true
   ∧ ∃ self' evs,
       _send Scenario.body elements 5 (test1, "app.py"%string, 10%Z)
         Scenario.draining = Returned self'
       ∧ observed self'
         = observed Scenario.draining
           ++ EvDebugSend (test1, "app.py"%string, 10%Z) :: evs
       ∧ calls evs = [(2, test1); (1, test1)]
       ∧ _sending self' = true
       ∧ 2 ∈ registered MessageType.test1 Scenario.draining
       ∧ unregistered 2 self'
       ∧ 1 ∈ registered MessageType.test1 self'
       ∧ ∃ self'' evs',
           _send Scenario.body elements 5 (test1, "app.py"%string, 11%Z) self'
           = Returned self''
           ∧ observed self''
             = observed self'
               ++ EvDebugSend (test1, "app.py"%string, 11%Z) :: evs'
           ∧ (1, test1) ∈ calls evs'
           ∧ (2, test1) ∉ calls evs')
  ∧ (_sending Latecomer.draining = true
     ∧ ∃ self' evs,
         _send Latecomer.body elements 5 (test1, "app.py"%string, 10%Z)
           Latecomer.draining = Returned self'
         ∧ observed self'
           = observed Latecomer.draining
             ++ EvDebugSend (test1, "app.py"%string, 10%Z) :: evs
         ∧ calls evs = [(1, test1)]
         ∧ (2 ∉ registered MessageType.test1 Latecomer.draining)
         ∧ 2 ∈ registered MessageType.test1 self'
         ∧ ∃ self'' evs',
             _send Latecomer.body elements 5 (test1, "app.py"%string, 11%Z)
               self' = Returned self''
             ∧ observed self''
               = observed self'
                 ++ EvDebugSend (test1, "app.py"%string, 11%Z) :: evs'
             ∧ (1, test1) ∈ calls evs'
             ∧ (2, test1) ∈ calls evs').
Proof.
  intros test1. split; (split; [done|]).
  - destruct (dispatch_uses_a_copy Scenario.body elements
                Scenario_iter_elements 5 (test1, "app.py"%string, 10%Z)
                Scenario.draining eq_refl
                (λ l _, Scenario_never_raises_test1 l))
      as (self' & evs & Hret & Ho & Hc & _ & Hcalled & Hs & _ & Hun & Hsame
          & Hnext).
    assert (2 ∈ registered MessageType.test1 Scenario.draining) as H2.
    { apply elem_of_elements. vm_compute. repeat constructor. }
    assert (unregistered 2 self') as Hun2.
    { apply Hun.
      - exists 2. split; [vm_compute; repeat constructor|apply unsub_here].
      - intros l _. apply Scenario_never_subscribes. }
    assert (1 ∈ registered MessageType.test1 self') as H1.
    { apply Hsame.
      - intros l _. split; [apply Scenario_never_subscribes|].
        by apply Scenario_keeps_subscribed.
      - apply elem_of_elements. vm_compute. repeat constructor. }
    destruct (Hnext (test1, "app.py"%string, 11%Z)
                (λ l _, Scenario_never_raises_test1 l))
      as (self'' & evs' & Hret' & Ho' & _ & Hcalled').
    exists self', evs. split_and!; try done.
    exists self'', evs'. split_and!; try done.
    + by apply Hcalled'.
    + intros Hin%Hcalled'. by apply (Hun2 MessageType.test1).
  - destruct (dispatch_uses_a_copy Latecomer.body elements
                Scenario_iter_elements 5 (test1, "app.py"%string, 10%Z)
                Latecomer.draining eq_refl
                (λ l _, Latecomer_never_raises l test1))
      as (self' & evs & Hret & Ho & Hc & _ & Hcalled & Hs & Hsub & _ & Hsame
          & Hnext).
    assert (2 ∉ registered MessageType.test1 Latecomer.draining) as H2.
    { rewrite <-elem_of_elements. vm_compute.
      intros Hin. repeat (inversion Hin as [|? ? ? Hin']; clear Hin;
                          rename Hin' into Hin; subst). }
    assert (2 ∈ registered MessageType.test1 self') as H2'.
    { apply Hsub.
      - exists 1. split; [vm_compute; repeat constructor|apply sub_here].
      - intros l _. apply Latecomer_keeps_subscribed. }
    assert (1 ∈ registered MessageType.test1 self') as H1.
    { apply Hsame.
      - intros l _. split; [by apply Latecomer_never_subscribes|].
        apply Latecomer_keeps_subscribed.
      - apply elem_of_elements. vm_compute. repeat constructor. }
    destruct (Hnext (test1, "app.py"%string, 11%Z)
                (λ l _, Latecomer_never_raises l test1))
      as (self'' & evs' & Hret' & Ho' & _ & Hcalled').
    exists self', evs. split_and!; try done.
    exists self'', evs'. split_and!; try done; by apply Hcalled'.
Defined.

Lemma listener_exception_aborts_drain_witness :
  _sending Scenario.broker = false
  ∧ send Scenario.body elements 5 (Scenario.signal_of MessageType.init)
      "app.py"%string 20%Z Scenario.broker
    = Raised "boom"%string Scenario.after_raise
  ∧ _sending Scenario.after_raise = false
  ∧ (∃ evs l m,
       observed Scenario.after_raise
       = observed Scenario.broker
         ++ [EvAppend (Scenario.signal_of MessageType.init,
                       "app.py"%string, 20%Z); EvSending true] ++ evs
         ++ [EvSending false]
       ∧ flags evs = []
       ∧ last (calls evs) = Some (l, m)
       ∧ raises_with "boom"%string (Scenario.body l m)
       ∧ dispatched evs ++ _messages Scenario.after_raise
         = _messages Scenario.broker
           ++ [(Scenario.signal_of MessageType.init, "app.py"%string, 20%Z)]
           ++ enqueued evs)
  ∧ ∃ self'',
      send Scenario.body elements 5 (Scenario.signal_of MessageType.test2)
        "app.py"%string 30%Z Scenario.after_raise = Returned self''.
Proof.
  assert (send Scenario.body elements 5 (Scenario.signal_of MessageType.init)
            "app.py"%string 20%Z Scenario.broker
          = Raised "boom"%string Scenario.after_raise) as Hraise
    by (by vm_compute).
  destruct (listener_exception_aborts_drain Scenario.body elements
              Scenario_iter_elements 5
              (Scenario.signal_of MessageType.init) "app.py"%string 20%Z
              Scenario.broker eq_refl) as (_ & H2).
  destruct (H2 _ _ Hraise) as (Hs & Hevs & _ & Hlater).
  split_and!; try done.
  apply Hlater.
  - repeat constructor; apply Scenario_well_behaved_test2.
  - vm_compute. lia.
Defined.

Lemma subscribe_is_idempotent_witness :
  let once := subscribe MessageType.test1 1 (__init__ : Scenario.Broker) in
  let twice := subscribe MessageType.test1 1 once in
  let entry :=
    (Scenario.signal_of MessageType.test1, "app.py"%string, 10%Z) in
  _listeners twice = _listeners once
  ∧ registered MessageType.test1 twice
    = registered MessageType.test1 (__init__ : Scenario.Broker) ∪ {[1]}
  ∧ ∃ s' evs,
      _send Scenario.body elements 5 entry (set_sending true twice)
      = Returned s'
      ∧ observed s'
        = observed (set_sending true twice) ++ EvDebugSend entry :: evs
      ∧ length (filter (λ l, l = 1) (calls evs).*1) = 1.
Proof.
  intros once twice entry.
  destruct (subscribe_is_idempotent Scenario.body elements
              Scenario_iter_elements MessageType.test1 1
              (__init__ : Scenario.Broker))
    as (Hl & _ & _ & Hr & Hcall).
  split; [exact Hl|]. split; [exact Hr|].
  assert (_send Scenario.body elements 5 entry (set_sending true twice)
          = Returned
              (default __init__
                 (final (_send Scenario.body elements 5 entry
                           (set_sending true twice))))) as Hret
    by (by vm_compute).
  destruct (Hcall 5 entry (set_sending true twice) _ eq_refl eq_refl
              eq_refl Hret) as (evs & Ho & Hcount).
  by eexists _, evs.
Defined.

Lemma unsubscribe_removes_everywhere_witness :
  ∃ self',
    unsubscribe 3 Scenario.broker = Returned self'
    ∧ unregistered 3 self'
    ∧ ∃ self'' evs,
        final (send Scenario.body elements 5
                 (Scenario.signal_of MessageType.test1) "app.py"%string 10%Z
                 self') = Some self''
        ∧ observed self'' = observed self' ++ evs
        ∧ (3 ∉ (calls evs).*1).
Proof.
  destruct (unsubscribe_removes_everywhere Scenario.body elements
              Scenario_iter_elements 3 Scenario.broker)
    as (self' & Hret & _ & Hun & _ & Hsend).
  exists self'. split; [exact Hret|]. split; [exact Hun|].
  injection Hret as <-.
  destruct (Hsend 5 (Scenario.signal_of MessageType.test1) "app.py"%string
              10%Z
              (default __init__
                 (final (send Scenario.body elements 5
                           (Scenario.signal_of MessageType.test1)
                           "app.py"%string 10%Z
                           (without 3 Scenario.broker)))))
    as (evs & Ho & Hnc & _);
    [intros; apply Scenario_never_subscribes|by vm_compute|].
  eexists _, evs. split; [by vm_compute|]. split; [exact Ho|exact Hnc].
Defined.

Lemma signal_sends_a_Signal_witness :
  signal Scenario.body elements 5 MessageType.test1 Scenario.broker
  = send Scenario.body elements 5 (Scenario.signal_of MessageType.test1)
      "message_broker.py"%string 109%Z Scenario.broker
  ∧ Message_message_type (Scenario.signal_of MessageType.test1)
    = MessageType.test1
  ∧ (∃ s' evs,
       final (_send Scenario.body elements 5
                (Scenario.signal_of MessageType.test1,
                 "message_broker.py"%string, 109%Z) Scenario.draining)
       = Some s'
       ∧ observed s'
         = observed Scenario.draining
           ++ EvDebugSend (Scenario.signal_of MessageType.test1,
                           "message_broker.py"%string, 109%Z) :: evs
       ∧ Forall (λ c, c.2 = Scenario.signal_of MessageType.test1
                      ∧ Message_message_type c.2 = MessageType.test1)
           (calls evs))
  ∧ (Signal_eq {| message_type := MessageType.test1 |}
       {| message_type := MessageType.test2 |} = true
     ↔ MessageType.test1 = MessageType.test2).
Proof.
  destruct (signal_sends_a_Signal Scenario.body elements 5 MessageType.test1
              Scenario.broker) as (H1 & H2 & H3 & _ & H5).
  split; [exact H1|]. split; [exact H2|]. split; [|apply H5].
  destruct (H3 "message_broker.py"%string 109%Z Scenario.draining
              (default __init__
                 (final (_send Scenario.body elements 5
                           (Scenario.signal_of MessageType.test1,
                            "message_broker.py"%string, 109%Z)
                           Scenario.draining))))
    as (evs & Ho & Hall); [done|by vm_compute|].
  eexists _, evs. split; [by vm_compute|]. by split.
Defined.

(** [signal(init)] on the application raises, with whatever fuel the
    drain reaches its end. *)
Lemma send_can_raise :
  ¬ ∃ fuel self',
      send Scenario.body elements fuel (Scenario.signal_of MessageType.init)
        "app.py"%string 20%Z Scenario.broker = Returned self'.
Proof.
  intros (fuel & self' & Hret).
  assert (send Scenario.body elements 5 (Scenario.signal_of MessageType.init)
            "app.py"%string 20%Z Scenario.broker
          = Raised "boom"%string Scenario.after_raise) as Hraise
    by (by vm_compute).
  apply (send_more_fuel _ _ _ (fuel `max` 5)) in Hret; [|lia|done].
  apply (send_more_fuel _ _ _ (fuel `max` 5)) in Hraise; [|lia|done].
  congruence.
Qed.

Lemma send_raises_only_what_a_listener_raises_witness :
  (send Scenario.body elements 5 (Scenario.signal_of MessageType.init)
     "app.py"%string 20%Z Scenario.broker
   = Raised "boom"%string Scenario.after_raise
   ∧ _sending Scenario.broker = false
   ∧ ∃ evs,
       observed Scenario.after_raise
       = observed Scenario.broker
         ++ [EvAppend (Scenario.signal_of MessageType.init,
                       "app.py"%string, 20%Z); EvSending true] ++ evs
         ++ [EvSending false]
       ∧ last (calls evs) = Some (4, Scenario.signal_of MessageType.mapping)
       ∧ raises_with "boom"%string
           (Scenario.body 4 (Scenario.signal_of MessageType.mapping)))
  ∧ (∃ self',
       send Scenario.body elements 5 (Scenario.signal_of MessageType.test2)
         "app.py"%string 40%Z Scenario.broker = Returned self')
  ∧ ∃ self',
      signal Scenario.body elements 5 MessageType.terminate Scenario.broker
      = Returned self'
      ∧ registered MessageType.terminate self' = ∅
      ∧ calls (observed self') = calls (observed Scenario.broker)
      ∧ _messages self' = [].
Proof.
  split; [|split].
  - destruct (send_raises_only_what_a_listener_raises Scenario.body elements
                Scenario_iter_elements 5
                (Scenario.signal_of MessageType.init) "app.py"%string 20%Z
                Scenario.broker) as (H1 & _).
    assert (send Scenario.body elements 5
              (Scenario.signal_of MessageType.init) "app.py"%string 20%Z
              Scenario.broker
            = Raised "boom"%string Scenario.after_raise) as Hraise
      by (by vm_compute).
    destruct (H1 "boom"%string Scenario.after_raise Hraise)
      as (Hs & evs & l & m & Ho & Hl & Hw).
    split_and!; [done|done|]. exists evs.
    assert (calls evs
            = [(5, Scenario.signal_of MessageType.init);
               (4, Scenario.signal_of MessageType.mapping)]) as Hc.
    { apply (f_equal calls) in Ho. rewrite !calls_app in Ho.
      rewrite app_nil_r in Ho. exact (eq_sym Ho). }
    rewrite Hc in Hl. injection Hl as <- <-. by rewrite Hc.
  - destruct (send_raises_only_what_a_listener_raises Scenario.body elements
                Scenario_iter_elements 5
                (Scenario.signal_of MessageType.test2) "app.py"%string 40%Z
                Scenario.broker) as (_ & H2 & _).
    apply H2; [|done|vm_compute; lia].
    repeat constructor; apply Scenario_well_behaved_test2.
  - destruct (send_raises_only_what_a_listener_raises Scenario.body elements
                Scenario_iter_elements 5
                (Scenario.signal_of MessageType.test2) "app.py"%string 40%Z
                Scenario.broker) as (_ & _ & H3).
    apply H3; [done|done|by vm_compute|lia].
Defined.

(** The rendering of a message of the application: the lists of three
    numbers or more are shortened. The expression also matches the
    numbers in a name, where the ellipsis takes the place of the last
    one too, and a minus sign ends a match. *)
Example Scenario_str_uinputs :
  str Scenario.uinputs_message
  = "UInputsData(uinputs={'keyboard': {1: [1, ... 5], 2: [7, 8]}, '1, ... x': {4: [1, -2, ... 4]}})"%string.
Proof. by vm_compute. Qed.

Lemma uinputs_rendering_shortens_number_runs_witness :
  ∃ pre post,
    list_ascii_of_string
      ("UInputsData(uinputs="
       +:+ repr_uinputs (uinputs Scenario.uinputs_message) +:+ ")")%string
    = pre ++ "["%char
          :: list_ascii_of_string
               (String.concat ", " (repr_int <$> [1; 2; 3; 4; 5]%Z))
          ++ "]"%char :: post
    ∧ str Scenario.uinputs_message
      = string_of_list_ascii
          (shorten (pre ++ ["["%char])
           ++ list_ascii_of_string
                (repr_int 1 +:+ ", ... " +:+ repr_int 5)%string
           ++ "]"%char :: shorten post).
Proof.
  apply (proj1 (proj2 (uinputs_rendering_shortens_number_runs
                         Scenario.body elements))
           Scenario.uinputs_message "keyboard"%string Scenario.keyboard
           1%Z 1%Z [2; 3; 4]%Z 5%Z).
  - apply elem_of_cons. by left.
  - apply elem_of_cons. by left.
  - done.
  - lia.
  - repeat constructor; lia.
  - lia.
Defined.

(** The type of a [Signal] is changed by an assignment. *)
Lemma Signal_message_type_can_be_assigned :
  ∃ obj,
    Message_setattr (Scenario.signal_of MessageType.test1)
      "message_type"%string MessageType.test2 = Assigned obj
    ∧ Message_message_type obj
      ≠ Message_message_type (Scenario.signal_of MessageType.test1).
Proof. eexists. split; [reflexivity|done]. Qed.

(** Two dicts with the same items, inserted in a different order, make
    equal messages. *)
Example Scenario_eq_uinputs :
  dataclass_eq (DeviceType := unit) (EventCombination := unit)
    (MUInputsData {| uinputs := [("a"%string, Scenario.keyboard);
                                 ("b"%string, [])] |})
    (MUInputsData {| uinputs := [("b"%string, []);
                                 ("a"%string, reverse Scenario.keyboard)] |})
  = true.
Proof. by vm_compute. Qed.

(** * The further properties on the small applications *)

Lemma Scenario_well_behaved_request (msg : UserConfirmRequest) :
  well_behaved_on Scenario.body (MUserConfirmRequest msg).
Proof.
  intros l. do 6 (try destruct l as [|l]); split; repeat constructor.
Qed.

Lemma Scenario_well_behaved_group (data : GroupData) :
  well_behaved_on Scenario.body (MGroupData data).
Proof.
  intros l. do 6 (try destruct l as [|l]); split; repeat constructor.
Qed.

Lemma Scenario_unregistered (l : MessageListener) :
  5 < l → unregistered l Scenario.broker.
Proof.
  intros Hl key. unfold Scenario.broker. rewrite !registered_subscribe.
  unfold registered. simpl. rewrite lookup_empty. simpl.
  repeat case_decide; set_solver by lia.
Qed.

Lemma Scenario_broker_reachable :
  reachable Scenario.body elements Scenario.broker.
Proof. repeat apply reachable_subscribe. apply reachable___init__. Qed.

Lemma send_calls_the_registered_once_witness :
  ∃ self' evs,
    send Scenario.body elements 5 (Scenario.signal_of MessageType.test2)
      "app.py"%string 40%Z Scenario.broker = Returned self'
    ∧ Forall (λ c, c.2 = Scenario.signal_of MessageType.test2) (calls evs)
    ∧ length (filter (λ l', l' = 3) (calls evs).*1) = 1
    ∧ length (filter (λ l', l' = 1) (calls evs).*1) = 0
    ∧ _messages self' = [].
Proof.
  destruct (send_calls_the_registered_once Scenario.body elements
              Scenario_iter_elements 5 (Scenario.signal_of MessageType.test2)
              "app.py"%string 40%Z Scenario.broker)
    as (self' & evs & Hret & _ & Hall & Hcount & _ & _ & _ & Hq & _);
    [done|done|lia|apply Scenario_well_behaved_test2|].
  exists self', evs. split_and!; [done|done| | |done].
  - rewrite Hcount. by vm_compute.
  - rewrite Hcount. by vm_compute.
Defined.

Lemma reachable_brokers_are_idle_witness :
  reachable Scenario.body elements Scenario.after_raise
  ∧ consistent Scenario.after_raise
  ∧ _sending Scenario.after_raise = false.
Proof.
  assert (reachable Scenario.body elements Scenario.after_raise) as Hreach.
  { apply (reachable_send _ _ 5 (Scenario.signal_of MessageType.init)
             "app.py"%string 20%Z Scenario.broker);
      [apply Scenario_broker_reachable|by vm_compute]. }
  split; [exact Hreach|].
  destruct (reachable_brokers_are_idle Scenario.body elements
              Scenario_iter_elements Scenario.after_raise Hreach)
    as (Hc & Hs & _).
  by split.
Defined.

Lemma send_to_an_echo_never_returns_witness :
  1 ∈ registered MessageType.test1 Echo.broker
  ∧ send Echo.body elements 1000 (Scenario.signal_of MessageType.test1)
      "app.py"%string 10%Z Echo.broker = OutOfFuel.
Proof.
  assert (1 ∈ registered MessageType.test1 Echo.broker) as Hreg.
  { unfold Echo.broker. rewrite registered_subscribe, decide_True by done.
    set_solver. }
  split; [exact Hreg|].
  apply (send_to_an_echo_never_returns Echo.body elements
           Scenario_iter_elements 1000 1).
  - done.
  - exact Hreg.
  - intros l m. unfold Echo.body.
    do 2 (try destruct l as [|l]); repeat constructor.
  - intros l m. unfold Echo.body.
    do 2 (try destruct l as [|l]); repeat constructor.
  - intros m Hm. by exists m, "echo.py"%string, 1%Z, Pass.
Defined.

Lemma confirm_dialog_is_asked_once_witness :
  let msg :=
    {| request_msg := "Delete the preset?";
       respond := 0 |} in
  ∃ broker' (evs : list (Event unit unit)),
    send Scenario.body elements 5 (MUserConfirmRequest msg)
      "controller.py"%string 1%Z
      (ConfirmCancelDialog___init__ 7 Scenario.broker)
    = Returned broker'
    ∧ length (filter (λ l, l = 7) (calls evs).*1) = 1
    ∧ ∃ events,
        _on_user_confirm_request (λ _ _, None) msg Gtk.ResponseType_CANCEL
        = (events, None)
        ∧ answers events = [(0, false)].
Proof.
  intros msg.
  destruct (confirm_dialog_is_asked_once Scenario.body elements
              Scenario_iter_elements 7 5 msg "controller.py"%string 1%Z
              Scenario.broker)
    as (broker' & evs & Hret & _ & Hcount & _ & Hanswer);
    [done|done|lia|apply Scenario_well_behaved_request|].
  exists broker', evs. split_and!; [done|done|].
  destruct (Hanswer (λ _ _, None) Gtk.ResponseType_CANCEL)
    as (events & He & Ha).
  by exists events.
Defined.

Lemma breadcrumbs_handlers_get_their_types_witness :
  let data := MGroupData {| group_key := "keyboard"; presets := [] |} in
  let made :=
    Breadcrumbs___init__ 7 8 9 Scenario.broker "" true true false in
  ∃ broker' (evs : list (Event unit unit)),
    send Scenario.body elements 5 data "controller.py"%string 2%Z made.1
    = Returned broker'
    ∧ length (filter (λ l, l = 7) (calls evs).*1) = 1
    ∧ length (filter (λ l, l = 8) (calls evs).*1) = 0
    ∧ length (filter (λ l, l = 9) (calls evs).*1) = 0.
Proof.
  intros data made.
  destruct (breadcrumbs_handlers_get_their_types Scenario.body elements
              Scenario_iter_elements 7 8 9 5 data "controller.py"%string 2%Z
              Scenario.broker ""%string true true false)
    as (_ & _ & _ & _ & broker' & evs & Hret & _ & Hg & Hp & Hm);
    [done|done|lia|apply Scenario_well_behaved_group|done|done|done
    |apply Scenario_unregistered; lia|apply Scenario_unregistered; lia
    |apply Scenario_unregistered; lia|].
  by exists broker', evs.
Defined.

(** The text of a request with two line breaks, and the answer to
    ACCEPT, with a callback that returns. *)
Example Scenario_confirm_dialog :
  _on_user_confirm_request (λ _ _, None)
    {| request_msg :=
         "Delete?" +:+ String newline ("It is" +:+ String newline "in use.");
       respond := 3 |}
    Gtk.ResponseType_ACCEPT
  = ([Dialog.MessageDialog "Delete?";
      Dialog.format_secondary_text "It is in use.";
      Dialog.add_button "Cancel" (-6);
      Dialog.add_button "Confirm" (-3);
      Dialog.add_class "destructive-action";
      Dialog.run (-3);
      Dialog.respond 3 true;
      Dialog.hide], None).
Proof. done. Qed.

(** The same request with a callback that raises when the answer is
    ACCEPT: the exception comes out of the handler, and the dialog is
    left as it is. *)
Example Scenario_confirm_dialog_raises :
  _on_user_confirm_request
    (λ _ answer, if answer then Some "PermissionError" else None)
    {| request_msg :=
         "Delete?" +:+ String newline ("It is" +:+ String newline "in use.");
       respond := 3 |}
    Gtk.ResponseType_ACCEPT
  = ([Dialog.MessageDialog "Delete?";
      Dialog.format_secondary_text "It is in use.";
      Dialog.add_button "Cancel" (-6);
      Dialog.add_button "Confirm" (-3);
      Dialog.add_class "destructive-action";
      Dialog.run (-3);
      Dialog.respond 3 true], Some "PermissionError").
Proof. done. Qed.

(** A signal is logged as sent from [signal] itself: line 109 of the
    module, whoever called [signal]. *)
Example Scenario_get_caller_of_signal :
  get_caller 3
    [{| filename := "/usr/bin/input-remapper-gtk"; lineno := Some 60%Z |};
     {| filename := "/usr/lib/inputremapper/gui/controller.py";
        lineno := Some 100%Z |};
     {| filename := "/usr/lib/inputremapper/gui/message_broker.py";
        lineno := Some 109%Z |};
     {| filename := "/usr/lib/inputremapper/gui/message_broker.py";
        lineno := Some 104%Z |};
     {| filename := "/usr/lib/inputremapper/gui/message_broker.py";
        lineno := Some 138%Z |}]
  = inr ("message_broker.py", 109%Z).
Proof. done. Qed.
